(** * browser-fs/dom: the WorkerFS bridge and the FileSystemAccess resolver

    A shallow embedding of [src/backends/Worker.ts] and
    [src/backends/FileSystemAccess.ts].  Asynchronous methods are modelled as
    state transformers that either return a value or throw; the state that a
    throwing method leaves behind is kept, as in JavaScript. *)

From Stdlib Require Import String Ascii ZArith List Bool Lia.
From stdpp Require Import base option list gmap strings pretty.

Set Warnings "-register-all".

Local Open Scope string_scope.
Local Open Scope Z_scope.

(** ** JavaScript values, errors and results *)

Module JS.

(** The numeric values of the enum [ErrorCode] of @browserfs/core that the two
    backends use. *)
Inductive ErrorCode := ENOENT | EEXIST | EINVAL | ENOTDIR.

(** What a [throw] can carry: a DOMException of the browser (with its [name]
    and [message]), a TypeError of the engine, or an [ApiError] of
    @browserfs/core ([errno], [path]). *)
Inductive error :=
| DOMException (name message : string)
| TypeError (message : string)
| ApiError (errno : ErrorCode) (path : string).

(** [error.name]; an [ApiError] inherits the name of [Error]. *)
Definition error_name (e : error) : string :=
  match e with
  | DOMException n _ => n
  | TypeError _ => "TypeError"
  | ApiError _ _ => "Error"
  end.

Inductive result (A : Type) :=
| Ok (a : A)
| Throw (e : error).
Arguments Ok {A} a.
Arguments Throw {A} e.

(** The class of an object, as far as [instanceof] and [typeof] can tell.
    [ApiError extends Error]. *)
Inductive jsclass := ClsObject | ClsArray | ClsError | ClsApiError.

(** Values that structured cloning can put into [event.data]. Numbers are the
    integer-valued ones plus NaN. *)
Inductive jsval :=
| JUndefined
| JNull
| JBool (b : bool)
| JNum (n : Z)
| JNaN
| JStr (s : string)
| JObj (cls : jsclass) (fields : list (string * jsval)).

Definition typeof (v : jsval) : string :=
  match v with
  | JUndefined => "undefined"
  | JNull => "object"
  | JBool _ => "boolean"
  | JNum _ | JNaN => "number"
  | JStr _ => "string"
  | JObj _ _ => "object"
  end.

(** [!!v] *)
Definition truthy (v : jsval) : bool :=
  match v with
  | JUndefined | JNull | JNaN => false
  | JBool b => b
  | JNum n => negb (n =? 0)
  | JStr s => negb (String.eqb s EmptyString)
  | JObj _ _ => true
  end.

Fixpoint assoc {A} (k : string) (l : list (string * A)) : option A :=
  match l with
  | [] => None
  | (k', v) :: l => if String.eqb k k' then Some v else assoc k l
  end.

(** [v.k], or a destructured [{ k } = v], for a [v] that is not null or
    undefined. *)
Definition get_prop (k : string) (v : jsval) : jsval :=
  match v with
  | JObj _ fs => default JUndefined (assoc k fs)
  | _ => JUndefined
  end.

(** [k in v]: throws a TypeError when [v] is not an object, which for a [v]
    with [typeof v == 'object'] means [v] is null. *)
Definition has_prop (k : string) (v : jsval) : result bool :=
  match v with
  | JObj _ fs => Ok (bool_decide (is_Some (assoc k fs)))
  | JNull =>
    Throw (TypeError ("Cannot use 'in' operator to search for '" ++ k ++ "' in null"))
  | _ =>
    Throw (TypeError ("Cannot use 'in' operator to search for '" ++ k
                      ++ "' in a primitive value"))
  end.

(** [v === s] for a string literal [s] *)
Definition strict_eq_str (v : jsval) (s : string) : bool :=
  match v with
  | JStr s' => String.eqb s' s
  | _ => false
  end.

(** [v instanceof Error || v instanceof ApiError] *)
Definition is_error_object (v : jsval) : bool :=
  match v with
  | JObj ClsError _ | JObj ClsApiError _ => true
  | _ => false
  end.

End JS.
Import JS.

(** ** Worker.ts: the remote bridge *)

Module WorkerFS.

(** Worker.ts 40-42 *)
Definition isRPCMessage (arg : jsval) : result bool :=
  if String.eqb (typeof arg) "object" then
    match has_prop "isBFS" arg with
    | Ok true => Ok (truthy (get_prop "isBFS" arg))
    | Ok false => Ok false
    | Throw e => Throw e
    end
  else Ok false.

(** A promise made by [new Promise(...)] in [_rpc]. [resolve] and [reject]
    settle it once; later calls do nothing. *)
Inductive promise_state :=
| Pending
| Fulfilled (v : jsval)
| Rejected (v : jsval).

(** Worker.ts 45-48: the two continuations of one promise, which is named by
    its index in the promise store. *)
Record WorkerRequest := { promise : nat }.

(** Worker.ts 16-19, 36: what [_rpc] posts. *)
Record RPCRequest := {
  isBFS : bool;
  id : Z;
  method : string;
  args : list jsval;
}.

(** The fields of a [WorkerFS] instance (Worker.ts 110-115), with the promises
    it has created and the messages it has posted to the worker.
    [_currentID] is a JavaScript number that starts at 0 and is only ever
    changed by the [++] of [_rpc]; it holds the integer it stands for. *)
Record t := {
  _currentID : Z;
  _requests : gmap Z WorkerRequest;
  _isInitialized : bool;
  _metadata : jsval;
  promises : list promise_state;
  posted : list RPCRequest;
}.

(** Worker.ts 111-115, 121-123 *)
Definition init : t := {|
  _currentID := 0;
  _requests := ∅;
  _isInitialized := false;
  _metadata := JUndefined;
  promises := [];
  posted := [];
|}.

(** [resolve(v)] or [reject(v)] of promise [p]. *)
Definition settle (p : nat) (s : promise_state) (ps : list promise_state)
  : list promise_state :=
  match ps !! p with
  | Some Pending => <[p := s]> ps
  | _ => ps
  end.

(** [n++] on a JavaScript number that holds an integer from 0 to 2^53: below
    2^53 the sum is exact; 2^53 + 1 is not a number of the double format and
    is rounded, to the even neighbour, back to 2^53, so from there on the
    number keeps its value. *)
Definition number_succ (n : Z) : Z := if n <? 2 ^ 53 then n + 1 else n.

(** Worker.ts 155-166. Returns the new promise. *)
Definition _rpc (method : string) (args : list jsval) (fs : t) : nat * t :=
  let p := length (promises fs) in
  let id := _currentID fs in
  (p, {| _currentID := number_succ id;
         _requests := <[id := {| promise := p |}]> (_requests fs);
         _isInitialized := _isInitialized fs;
         _metadata := _metadata fs;
         promises := promises fs ++ [Pending];
         posted := posted fs ++
           [{| isBFS := true; id := id; method := method; args := args |}] |}).

(** [this._requests.get(id)]: the keys are the numbers [_rpc] put there. *)
Definition requests_get (id : jsval) (fs : t) : option WorkerRequest :=
  match id with
  | JNum n => _requests fs !! n
  | _ => None
  end.

(** [this._requests.delete(id)] *)
Definition requests_delete (id : jsval) (fs : t) : gmap Z WorkerRequest :=
  match id with
  | JNum n => delete n (_requests fs)
  | _ => _requests fs
  end.

(** Worker.ts 124-143: the handler, applied to [event.data]. *)
Definition onmessage (data : jsval) (fs : t) : result unit * t :=
  match isRPCMessage data with
  | Throw e => (Throw e, fs)
  | Ok false => (Ok tt, fs)
  | Ok true =>
    let id := get_prop "id" data in
    let method := get_prop "method" data in
    let value := get_prop "value" data in
    if strict_eq_str method "metadata" then
      (Ok tt, {| _currentID := _currentID fs;
                 _requests := _requests fs;
                 _isInitialized := true;
                 _metadata := value;
                 promises := promises fs;
                 posted := posted fs |})
    else
      match requests_get id fs with
      | None =>
        (Throw (TypeError "Cannot destructure property 'resolve' of undefined"), fs)
      | Some req =>
        (Ok tt, {| _currentID := _currentID fs;
                   _requests := requests_delete id fs;
                   _isInitialized := _isInitialized fs;
                   _metadata := _metadata fs;
                   promises :=
                     settle (promise req)
                       (if is_error_object value then Rejected value
                        else Fulfilled value)
                       (promises fs);
                   posted := posted fs |})
      end
  end.

(** What happens to one bridge: a caller invokes a method, or the channel
    delivers a message. An exception of the handler is reported by the event
    loop and the bridge goes on. *)
Inductive event :=
| Call (method : string) (args : list jsval)
| Deliver (data : jsval).

Definition step (fs : t) (ev : event) : t :=
  match ev with
  | Call m a => snd (_rpc m a fs)
  | Deliver d => snd (onmessage d fs)
  end.

Definition run (evs : list event) (fs : t) : t := foldl step fs evs.

Definition reachable (fs : t) : Prop := ∃ evs, fs = run evs init.

(** Whether the transition on [ev] takes the id [i] out of the pending map. *)
Definition removes (i : Z) (fs : t) (ev : event) : bool :=
  bool_decide (is_Some (_requests fs !! i))
  && bool_decide (_requests (step fs ev) !! i = None).

(** The events of a run that take [i] out of the pending map. *)
Fixpoint removers (i : Z) (evs : list event) (fs : t) : list event :=
  match evs with
  | [] => []
  | ev :: evs =>
    (if removes i fs ev then [ev] else []) ++ removers i evs (step fs ev)
  end.

(** What every reachable bridge satisfies: the counter is the number of
    requests sent so far, or 2^53 when more have been sent; the [k]-th request
    carries the id [k], or 2^53 from there on; a pending id is the id of a
    request that has been sent; the promise of a pending request is not
    settled, and different pending ids hold different promises. *)
Record consistent (fs : t) : Prop := {
  id_counts : _currentID fs = Z.min (Z.of_nat (length (posted fs))) (2 ^ 53);
  ids_posted : id <$> posted fs
               = (fun k => Z.min k (2 ^ 53))
                   <$> seqZ 0 (Z.of_nat (length (posted fs)));
  pending_issued : ∀ i req, _requests fs !! i = Some req →
    0 ≤ i ≤ 2 ^ 53 ∧ i < Z.of_nat (length (posted fs))
    ∧ promises fs !! promise req = Some Pending;
  pending_distinct : ∀ i j ri rj, i ≠ j →
    _requests fs !! i = Some ri → _requests fs !! j = Some rj →
    promise ri ≠ promise rj;
}.

(** A response envelope. *)
Definition response (i : Z) (m : string) (v : jsval) : jsval :=
  JObj ClsObject
    [("isBFS", JBool true); ("id", JNum i); ("method", JStr m); ("value", v)].

(** A bridge that has received one metadata announcement. *)
Definition announced : t :=
  run [Deliver (response 0 "metadata"
                  (JObj ClsObject [("name", JStr "InMemory")]))] init.

(** A bridge with eight requests outstanding, ids 0 to 7, the last two for
    [readdir('/')]. *)
Definition eight_pending : t :=
  run (replicate 6 (Call "stat" [JStr "/"]) ++
       [Call "readdir" [JStr "/"]; Call "readdir" [JStr "/"]]) init.

(** ['x'] in an array *)
Definition array_x : jsval := JObj ClsArray [("0", JStr "x")].

(** Worker.ts 89 *)
Definition Name : string := "WorkerFS".

(** The own enumerable properties that an object spread [{...v}] copies:
    the fields of an object, the characters of a string under their indices,
    nothing for the other values. *)
Definition own_properties (v : jsval) : list (string * jsval) :=
  match v with
  | JObj _ fields => fields
  | JStr s =>
    imap (fun (i : nat) c => (pretty i, JStr (String c EmptyString)))
      (list_ascii_of_string s)
  | _ => []
  end.

(** [fields[k] = v] on the properties of an object: a property that is there
    keeps its place. *)
Fixpoint obj_set (k : string) (v : jsval) (fields : list (string * jsval))
  : list (string * jsval) :=
  match fields with
  | [] => [(k, v)]
  | (k', v') :: rest =>
    if String.eqb k k' then (k', v) :: rest else (k', v') :: obj_set k v rest
  end.

(** [{...target, ...source}] *)
Definition spread (target : list (string * jsval)) (source : jsval)
  : list (string * jsval) :=
  fold_left (fun acc kv => obj_set (fst kv) (snd kv) acc)
    (own_properties source) target.

(** Worker.ts 146-153: the getter [metadata]. [super_metadata] is what the
    getter of [BaseFileSystem] returns, which is not part of this
    repository. *)
Definition metadata (super_metadata : jsval) (fs : t) : jsval :=
  JObj ClsObject
    (obj_set "synchronous" (JBool false)
       (obj_set "name" (JStr Name)
          (spread (spread [] super_metadata) (_metadata fs)))).

(** Worker.ts 168-228: the methods of the bridge. Each one is
    [this._rpc(name, ...arguments)] with its own name. *)
Inductive public_method :=
| rename | stat | open | unlink | rmdir | mkdir | readdir | exists_
| realpath | truncate | readFile | writeFile | appendFile | chmod | chown
| utimes | link | symlink | readlink | syncClose.

Definition method_name (m : public_method) : string :=
  match m with
  | rename => "rename" | stat => "stat" | open => "open"
  | unlink => "unlink" | rmdir => "rmdir" | mkdir => "mkdir"
  | readdir => "readdir" | exists_ => "exists" | realpath => "realpath"
  | truncate => "truncate" | readFile => "readFile"
  | writeFile => "writeFile" | appendFile => "appendFile"
  | chmod => "chmod" | chown => "chown" | utimes => "utimes"
  | link => "link" | symlink => "symlink" | readlink => "readlink"
  | syncClose => "syncClose"
  end.

Definition invoke (m : public_method) (arguments : list jsval) (fs : t)
  : nat * t :=
  _rpc (method_name m) arguments fs.

(** Whether the handler takes [data] for a metadata announcement
    (Worker.ts 125-130). *)
Definition is_announcement (data : jsval) : bool :=
  match isRPCMessage data with
  | Ok true => strict_eq_str (get_prop "method" data) "metadata"
  | _ => false
  end.

(** The values of the metadata announcements among the events, in order. *)
Definition announcements (evs : list event) : list jsval :=
  omap (fun ev => match ev with
                  | Deliver d =>
                    if is_announcement d then Some (get_prop "value" d)
                    else None
                  | Call _ _ => None
                  end) evs.

(** A bridge with one request outstanding, for [stat('/')]. *)
Definition one_pending : t := run [Call "stat" [JStr "/"]] init.

(** A bridge with two requests outstanding. *)
Definition two_pending : t :=
  run [Call "stat" [JStr "/"]; Call "readdir" [JStr "/"]] init.

End WorkerFS.

(** ** The functions of the [path] module that FileSystemAccess.ts imports

    Modelled from the spec: paths are split into segments at ['/'] and
    [readdir] returns each child's full joined path (section 4.2). [basename],
    [dirname] and [join] come from the POSIX [path] package, which is not part
    of this repository; they are written here after its documented
    algorithm. *)

Module Path.

Definition is_slash (c : ascii) : bool := Ascii.eqb c "/".

(** [s.split('/')] *)
Fixpoint split (s : string) : list string :=
  match s with
  | EmptyString => [EmptyString]
  | String c r =>
    if is_slash c then EmptyString :: split r
    else match split r with
         | h :: t => String c h :: t
         | [] => [String c EmptyString]
         end
  end.

(** [segs.join('/')] *)
Fixpoint join_segs (segs : list string) : string :=
  match segs with
  | [] => EmptyString
  | [s] => s
  | s :: r => s ++ "/" ++ join_segs r
  end.

(** One segment of [normalizeString]; [acc] is the result so far, last
    segment first. *)
Definition normalize_step (allowAboveRoot : bool) (acc : list string)
    (seg : string) : list string :=
  if String.eqb seg EmptyString || String.eqb seg "." then acc
  else if String.eqb seg ".." then
    match acc with
    | [] => if allowAboveRoot then [".."] else []
    | last :: acc' =>
      if String.eqb last ".." then
        (if allowAboveRoot then ".." :: acc else acc)
      else acc'
    end
  else seg :: acc.

Definition normalizeString (allowAboveRoot : bool) (path : string) : string :=
  join_segs (rev (fold_left (normalize_step allowAboveRoot) (split path) [])).

Definition starts_with_slash (s : string) : bool :=
  match s with
  | String c _ => is_slash c
  | EmptyString => false
  end.

Definition ends_with_slash (s : string) : bool :=
  match rev (list_ascii_of_string s) with
  | c :: _ => is_slash c
  | [] => false
  end.

Definition normalize (path : string) : string :=
  if String.eqb path EmptyString then "."
  else
    let isAbsolute := starts_with_slash path in
    let trailingSeparator := ends_with_slash path in
    let p := normalizeString (negb isAbsolute) path in
    if String.eqb p EmptyString then
      (if isAbsolute then "/" else if trailingSeparator then "./" else ".")
    else
      let p := if trailingSeparator then p ++ "/" else p in
      if isAbsolute then "/" ++ p else p.

(** [join(a, b)] *)
Definition join (a b : string) : string :=
  let joined :=
    if String.eqb a EmptyString then b
    else if String.eqb b EmptyString then a
    else a ++ "/" ++ b in
  if String.eqb joined EmptyString then "." else normalize joined.

Fixpoint drop_while {A} (f : A -> bool) (l : list A) : list A :=
  match l with
  | [] => []
  | x :: r => if f x then drop_while f r else l
  end.

Fixpoint take_while {A} (f : A -> bool) (l : list A) : list A :=
  match l with
  | [] => []
  | x :: r => if f x then x :: take_while f r else []
  end.

(** [dirname(path)]: the scan runs from the last character down to index 1,
    skips trailing slashes and stops at the slash before the last segment. *)
Definition dirname (path : string) : string :=
  match path with
  | EmptyString => "."
  | String c body =>
    let hasRoot := is_slash c in
    let scanned :=
      drop_while (fun x => negb (is_slash x))
        (drop_while is_slash (rev (list_ascii_of_string body))) in
    match scanned with
    | [] => if hasRoot then "/" else "."
    | _ :: before =>
      if hasRoot && bool_decide (before = []) then "//"
      else String c (string_of_list_ascii (rev before))
    end
  end.

(** [basename(path)], without a suffix argument. *)
Definition basename (path : string) : string :=
  string_of_list_ascii
    (rev (take_while (fun x => negb (is_slash x))
            (drop_while is_slash (rev (list_ascii_of_string path))))).

(** [s.includes(c)] for a one-character [c] *)
Definition includes (c : ascii) (s : string) : bool :=
  existsb (Ascii.eqb c) (list_ascii_of_string s).

(** The absolute path of the entry reached from the root by [names]. *)
Definition absolute (names : list string) : string := "/" ++ join_segs names.

End Path.
Import Path.

(** ** The File System Access API of the browser

    Modelled from the spec: the handle-granting API of section 6, a root
    handle with [getDirectoryHandle(name, {create})],
    [getFileHandle(name, {create})], [removeEntry(name, {recursive})] and the
    enumeration of child names, and file handles with a content blob and a
    writable stream. [FileSystemDirectoryHandle] and [FileSystemFileHandle]
    are provided by the browser and are not part of this repository. The
    model keeps the tree the handles point into, counts the handle objects
    handed out, and gives each one its own identity; the errors are those of
    the error mapping of section 4.2. *)

Module DOM.

Inductive node :=
| FileNode (data : string) (lastModified : Z)
| DirNode (entries : list (string * node)).

(** [FileSystemHandle.kind] *)
Inductive kind := KFile | KDirectory.

(** A handle object: [hid] tells two objects apart, [loc] is the entry it
    points to, as the names from the root. *)
Record FileSystemHandle := {
  hid : nat;
  hkind : kind;
  loc : list string;
}.

(** What [getFile()] returns. *)
Record File := {
  size : Z;
  lastModified : Z;
  arrayBuffer : string;
}.

Record t := {
  root : node;
  acquired : nat;
  clock : Z;
}.

Fixpoint find (n : node) (l : list string) : option node :=
  match l with
  | [] => Some n
  | x :: r =>
    match n with
    | DirNode es =>
      match assoc x es with
      | Some c => find c r
      | None => None
      end
    | FileNode _ _ => None
    end
  end.

(** Replaces the node at [l], when there is one, by [f] of it. *)
Fixpoint update (f : node -> node) (l : list string) (n : node) : node :=
  match l with
  | [] => f n
  | x :: r =>
    match n with
    | DirNode es =>
      DirNode (map (fun e => if String.eqb x (fst e)
                             then (fst e, update f r (snd e)) else e) es)
    | FileNode _ _ => n
    end
  end.

Definition add_entry (name : string) (c : node) (n : node) : node :=
  match n with
  | DirNode es => DirNode (es ++ [(name, c)])
  | FileNode _ _ => n
  end.

Definition remove_entry (name : string) (n : node) : node :=
  match n with
  | DirNode es => DirNode (filter (fun e => negb (String.eqb name (fst e))) es)
  | FileNode _ _ => n
  end.

(** Names the API refuses with [TypeError: Name is not allowed.] *)
Definition name_allowed (name : string) : bool :=
  negb (String.eqb name EmptyString) && negb (String.eqb name ".")
  && negb (String.eqb name "..") && negb (includes "/" name).

Definition allowed (name : string) : Prop := name_allowed name = true.

(** [kind] of a handle for the node [n] *)
Definition kind_of (n : node) : kind :=
  match n with
  | FileNode _ _ => KFile
  | DirNode _ => KDirectory
  end.

Definition NotFoundError : error :=
  DOMException "NotFoundError"
    "A requested file or directory could not be found at the time an operation was processed.".

Definition TypeMismatchError : error :=
  DOMException "TypeMismatchError"
    "The path supplied exists, but was not an entry of requested type.".

Definition NameNotAllowed : error := TypeError "Name is not allowed.".

Definition not_a_function (m : string) : error :=
  TypeError ("handle." ++ m ++ " is not a function").

(** A new handle object for the entry at [l]. *)
Definition grant (k : kind) (l : list string) (d : t)
  : result FileSystemHandle * t :=
  (Ok {| hid := acquired d; hkind := k; loc := l |},
   {| root := root d; acquired := S (acquired d); clock := clock d |}).

(** The entries of the directory that [h] points to, for the directory
    method [m] called with the entry name [name] (none for [keys]). A file
    handle has none of the directory methods; a name that is not allowed is
    refused before the tree is looked at; a handle whose directory is gone
    fails with NotFoundError. *)
Definition entries_of (m : string) (h : FileSystemHandle) (name : option string)
    (d : t) : result (list (string * node)) :=
  match hkind h with
  | KFile => Throw (not_a_function m)
  | KDirectory =>
    if negb (from_option name_allowed true name) then Throw NameNotAllowed
    else
      match find (root d) (loc h) with
      | Some (DirNode es) => Ok es
      | _ => Throw NotFoundError
      end
  end.

(** [h.getDirectoryHandle(name, { create })] *)
Definition getDirectoryHandle (h : FileSystemHandle) (name : string)
    (create : bool) (d : t) : result FileSystemHandle * t :=
  match entries_of "getDirectoryHandle" h (Some name) d with
  | Throw e => (Throw e, d)
  | Ok es =>
    match assoc name es with
    | Some (DirNode _) => grant KDirectory (loc h ++ [name]) d
    | Some (FileNode _ _) => (Throw TypeMismatchError, d)
    | None =>
      if create then
        grant KDirectory (loc h ++ [name])
          {| root := update (add_entry name (DirNode [])) (loc h) (root d);
             acquired := acquired d; clock := clock d |}
      else (Throw NotFoundError, d)
    end
  end.

(** [h.getFileHandle(name, { create })]; a created file is empty and stamped
    with the current time. *)
Definition getFileHandle (h : FileSystemHandle) (name : string)
    (create : bool) (d : t) : result FileSystemHandle * t :=
  match entries_of "getFileHandle" h (Some name) d with
  | Throw e => (Throw e, d)
  | Ok es =>
    match assoc name es with
    | Some (FileNode _ _) => grant KFile (loc h ++ [name]) d
    | Some (DirNode _) => (Throw TypeMismatchError, d)
    | None =>
      if create then
        grant KFile (loc h ++ [name])
          {| root := update (add_entry name (FileNode EmptyString (clock d)))
                       (loc h) (root d);
             acquired := acquired d; clock := clock d + 1 |}
      else (Throw NotFoundError, d)
    end
  end.

(** [h.removeEntry(name, { recursive: true })] *)
Definition removeEntry (h : FileSystemHandle) (name : string) (d : t)
  : result unit * t :=
  match entries_of "removeEntry" h (Some name) d with
  | Throw e => (Throw e, d)
  | Ok es =>
    match assoc name es with
    | Some _ =>
      (Ok tt, {| root := update (remove_entry name) (loc h) (root d);
                 acquired := acquired d; clock := clock d |})
    | None => (Throw NotFoundError, d)
    end
  end.

(** [h.keys()], collected *)
Definition keys (h : FileSystemHandle) (d : t) : result (list string) * t :=
  match entries_of "keys" h None d with
  | Throw e => (Throw e, d)
  | Ok es => (Ok (map fst es), d)
  end.

(** [h.getFile()] *)
Definition getFile (h : FileSystemHandle) (d : t) : result File * t :=
  match hkind h with
  | KDirectory => (Throw (not_a_function "getFile"), d)
  | KFile =>
    match find (root d) (loc h) with
    | Some (FileNode data m) =>
      (Ok {| size := Z.of_nat (String.length data); lastModified := m;
             arrayBuffer := data |}, d)
    | _ => (Throw NotFoundError, d)
    end
  end.

(** [h.createWritable()], [write(data)] and [close()] in one step: the file
    gets the whole of [data] and the current time. *)
Definition write (h : FileSystemHandle) (data : string) (d : t)
  : result unit * t :=
  match hkind h with
  | KDirectory => (Throw (not_a_function "createWritable"), d)
  | KFile =>
    match find (root d) (loc h) with
    | Some (FileNode _ _) =>
      (Ok tt, {| root := update (fun _ => FileNode data (clock d)) (loc h) (root d);
                 acquired := acquired d; clock := clock d + 1 |})
    | _ => (Throw NotFoundError, d)
    end
  end.

End DOM.

(** ** FileSystemAccess.ts: the handle-tree resolver *)

Module FileSystemAccessFileSystem.

Import DOM.

(** An invocation of a method of the file system on itself that is recorded
    at entry. *)
Inductive call :=
| CallRename (oldPath newPath : string)
| CallUnlink (path : string).

(** A call of [getHandleParts] that waits for the browser
    (FileSystemAccess.ts 214-229): it has computed [walkingPath], read the
    handle of [walkedPath] from the cache and sent it a request for
    [pathPart], [getDirectoryHandle] (line 229) or, when [fallback] is set,
    [getFileHandle] (line 233). [response] is the answer of the browser to
    that request. The browser serves the requests in the order they are
    sent, so the answer is fixed when the request is sent; the call goes on
    when the answer is delivered. *)
Record task := {
  handle : option FileSystemHandle;
  response : result FileSystemHandle;
  fallback : bool;
  walkingPath : string;
  pathPart : string;
  remainingPathParts : list string;
  target : string;
}.

(** The instance: the handle tree behind it, the cache [_handles]
    (FileSystemAccess.ts 59), the walks that run unawaited, the errors they
    ended with, and the record of calls. *)
Record t := {
  dom : DOM.t;
  _handles : gmap string FileSystemHandle;
  detached : list task;
  unhandled : list error;
  calls : list call;
}.

Definition M (A : Type) : Type := t -> result A * t.

Definition ret {A} (a : A) : M A := fun fs => (Ok a, fs).

Definition throw {A} (e : error) : M A := fun fs => (Throw e, fs).

Definition bind {A B} (m : M A) (k : A -> M B) : M B :=
  fun fs =>
    match m fs with
    | (Ok a, fs') => k a fs'
    | (Throw e, fs') => (Throw e, fs')
    end.

(** [try { m } catch (e) { h e }] *)
Definition try_catch {A} (m : M A) (h : error -> M A) : M A :=
  fun fs =>
    match m fs with
    | (Ok a, fs') => (Ok a, fs')
    | (Throw e, fs') => h e fs'
    end.

Notation "'let*' x ':=' m 'in' k" := (bind m (fun x => k))
  (at level 10, x name, m at level 100, k at level 200).
Notation "m ';;' k" := (bind m (fun _ => k))
  (at level 100, k at level 200, right associativity).

(** A request to the browser. *)
Definition browser {A} (f : DOM.t -> result A * DOM.t) : M A :=
  fun fs =>
    let '(r, d) := f (dom fs) in
    (r, {| dom := d; _handles := _handles fs; detached := detached fs;
           unhandled := unhandled fs; calls := calls fs |}).

(** [this._handles.get(path)] *)
Definition handles_get (path : string) : M (option FileSystemHandle) :=
  fun fs => (Ok (_handles fs !! path), fs).

(** [this._handles.set(path, handle)] *)
Definition handles_set (path : string) (h : FileSystemHandle) : M unit :=
  fun fs =>
    (Ok tt, {| dom := dom fs; _handles := <[path := h]> (_handles fs);
               detached := detached fs; unhandled := unhandled fs;
               calls := calls fs |}).

Definition record (c : call) : M unit :=
  fun fs =>
    (Ok tt, {| dom := dom fs; _handles := _handles fs;
               detached := detached fs; unhandled := unhandled fs;
               calls := calls fs ++ [c] |}).

(** [error.message]; of the message of an [ApiError] only the beginning is
    kept, nothing in the source compares the rest. *)
Definition error_message (e : error) : string :=
  match e with
  | DOMException _ m => m
  | TypeError m => m
  | ApiError _ _ => "Error: "
  end.

(** FileSystemAccess.ts 23-29 *)
Definition handleError {A} (path : string) (error : error) : M A :=
  if String.eqb (error_name error) "NotFoundError" then
    throw (ApiError ENOENT path)
  else throw error.

(** A method of a handle that may be [undefined]. *)
Definition on_handle {A} (m : string) (handle : option FileSystemHandle)
    (f : FileSystemHandle -> DOM.t -> result A * DOM.t) : M A :=
  match handle with
  | Some h => browser (f h)
  | None =>
    throw (TypeError ("Cannot read properties of undefined (reading '" ++ m ++ "')"))
  end.

(** An expression that is evaluated now and whose value or exception is
    looked at later. *)
Definition attempt {A} (m : M A) : M (result A) :=
  fun fs => let '(r, fs') := m fs in (Ok r, fs').

(** FileSystemAccess.ts 214-215, 226, 229: a call of [getHandleParts] up to
    its first [await], which is the one inside the call of [continueWalk]:
    the request [handle.getDirectoryHandle(pathPart)] is sent here.
    [walkedPath] is the variable of the enclosing [getHandle] as this call
    finds it. With no part left, [join] is given [undefined] and throws. *)
Definition getHandleParts_begin (walkedPath : string) (parts : list string)
    (path : string) : M task :=
  match parts with
  | [] => throw (TypeError "The path argument must be of type string. Received undefined")
  | pathPart :: remainingPathParts =>
    let walkingPath := join walkedPath pathPart in
    let* handle := handles_get walkedPath in
    let* response :=
      attempt (on_handle "getDirectoryHandle" handle
                 (fun h => getDirectoryHandle h pathPart false)) in
    ret {| handle := handle; response := response; fallback := false;
           walkingPath := walkingPath; pathPart := pathPart;
           remainingPathParts := remainingPathParts; target := path |}
  end.

(** A call of an async function whose promise is dropped: what it does
    before its first [await] happens now, the rest is left to the event loop,
    and an error goes nowhere. *)
Definition unawaited (begin : M task) : M unit :=
  fun fs =>
    match begin fs with
    | (Ok tk, fs') =>
      (Ok tt, {| dom := dom fs'; _handles := _handles fs';
                 detached := detached fs' ++ [tk];
                 unhandled := unhandled fs'; calls := calls fs' |})
    | (Throw e, fs') =>
      (Ok tt, {| dom := dom fs'; _handles := _handles fs';
                 detached := detached fs';
                 unhandled := unhandled fs' ++ [e]; calls := calls fs' |})
    end.

(** FileSystemAccess.ts 216-225: [continueWalk] in the closure of the call
    [tk]. The call of [getHandleParts] for the remaining parts is not awaited
    and its result is dropped. *)
Definition continueWalk (tk : task) (h : FileSystemHandle)
  : M (option FileSystemHandle) :=
  handles_set (walkingPath tk) h;;
  match remainingPathParts tk with
  | [] => handles_get (target tk)
  | _ :: _ =>
    unawaited (getHandleParts_begin (walkingPath tk) (remainingPathParts tk)
                 (target tk));;
    ret None
  end.

(** FileSystemAccess.ts 229-242, from the delivery of the answer to
    [getDirectoryHandle]: the call of [tk] is over with a value ([inl]) or an
    exception, or it has sent [getFileHandle] and waits again ([inr]). *)
Definition getHandleParts_answer (tk : task)
  : M (option FileSystemHandle + task) :=
  match response tk with
  | Ok h => let* v := continueWalk tk h in ret (inl v)
  | Throw error =>
    if String.eqb (error_name error) "TypeMismatchError" then
      let* response :=
        attempt (on_handle "getFileHandle" (handle tk)
                   (fun h => getFileHandle h (pathPart tk) false)) in
      ret (inr {| handle := handle tk; response := response; fallback := true;
                  walkingPath := walkingPath tk; pathPart := pathPart tk;
                  remainingPathParts := remainingPathParts tk;
                  target := target tk |})
    else if String.eqb (error_message error) "Name is not allowed." then
      throw (ApiError ENOENT (walkingPath tk))
    else handleError (walkingPath tk) error
  end.

(** FileSystemAccess.ts 233-236, from the delivery of the answer to
    [getFileHandle]. *)
Definition getHandleParts_retry (tk : task) : M (option FileSystemHandle) :=
  match response tk with
  | Ok h => continueWalk tk h
  | Throw err => handleError (walkingPath tk) err
  end.

(** FileSystemAccess.ts 228-242: the rest of the call [tk] when the caller
    awaits it. *)
Definition getHandleParts_end (tk : task) : M (option FileSystemHandle) :=
  let* next := getHandleParts_answer tk in
  match next with
  | inl v => ret v
  | inr tk' => getHandleParts_retry tk'
  end.

(** FileSystemAccess.ts 214-243: one call of [getHandleParts], awaited. *)
Definition getHandleParts (walkedPath : string) (parts : list string)
    (path : string) : M (option FileSystemHandle) :=
  let* tk := getHandleParts_begin walkedPath parts path in
  getHandleParts_end tk.

(** FileSystemAccess.ts 207-246. [None] is [undefined]: the walk is awaited
    and what it returns is dropped. *)
Definition getHandle (path : string) : M (option FileSystemHandle) :=
  fun fs =>
    match _handles fs !! path with
    | Some h => (Ok (Some h), fs)
    | None =>
      (getHandleParts "/" (tail (split path)) path;;
       ret None) fs
    end.

(** The event loop delivers the answer that the oldest unawaited call waits
    for. A call that sends its second request waits behind the others; an
    error a call ends with is an unhandled rejection. *)
Definition run_detached (fs : t) : t :=
  match detached fs with
  | [] => fs
  | tk :: rest =>
    let fs0 := {| dom := dom fs; _handles := _handles fs; detached := rest;
                  unhandled := unhandled fs; calls := calls fs |} in
    let failed e fs' :=
      {| dom := dom fs'; _handles := _handles fs'; detached := detached fs';
         unhandled := unhandled fs' ++ [e]; calls := calls fs' |} in
    if fallback tk then
      match getHandleParts_retry tk fs0 with
      | (Ok _, fs') => fs'
      | (Throw e, fs') => failed e fs'
      end
    else
      match getHandleParts_answer tk fs0 with
      | (Ok (inl _), fs') => fs'
      | (Ok (inr tk'), fs') =>
        {| dom := dom fs'; _handles := _handles fs';
           detached := detached fs' ++ [tk'];
           unhandled := unhandled fs'; calls := calls fs' |}
      | (Throw e, fs') => failed e fs'
      end
  end.

(** The unawaited walks run to their end: each path part takes at most two
    answers. *)
Definition parts_left (fs : t) : nat :=
  list_sum (map (fun tk => S (length (remainingPathParts tk))) (detached fs)).

Definition settle_walks (fs : t) : t :=
  Nat.iter (2 * parts_left fs) run_detached fs.

(** FileSystemAccess.ts 61-64 *)
Definition rootHandle : FileSystemHandle :=
  {| hid := 0; hkind := KDirectory; loc := [] |}.

Definition create (tree : node) : t :=
  {| dom := {| root := tree; acquired := 1; clock := 0 |};
     _handles := {[ "/" := rootHandle ]};
     detached := []; unhandled := []; calls := [] |}.

(** [Stats] of @browserfs/core, as far as [stat] fills it: the item type,
    the size, and [mtimeMs] when it is passed. *)
Inductive FileType := FILE | DIRECTORY.

Record Stats := {
  itemType : FileType;
  size : Z;
  mtimeMs : option Z;
}.

(** FileSystemAccess.ts 130-142 *)
Definition stat (path : string) : M Stats :=
  let* handle := getHandle path in
  match handle with
  | None => throw (ApiError EINVAL path)
  | Some h =>
    match hkind h with
    | KDirectory =>
      ret {| itemType := DIRECTORY; size := 4096; mtimeMs := None |}
    | KFile =>
      let* file := browser (getFile h) in
      ret {| itemType := FILE; size := DOM.size file;
             mtimeMs := Some (lastModified file) |}
    end
  end.

(** FileSystemAccess.ts 191-201 *)
Definition readdir (path : string) : M (list string) :=
  let* handle := getHandle path in
  match handle with
  | Some h =>
    match hkind h with
    | KDirectory =>
      let* _keys := browser (keys h) in
      ret (map (join path) _keys)
    | KFile => throw (ApiError ENOTDIR path)
    end
  | None => throw (ApiError ENOTDIR path)
  end.

(** [flag.includes(c)] for a [flag] that is truthy: strings and arrays have
    the method. *)
Definition js_includes (flag : jsval) (c : ascii) : result bool :=
  match flag with
  | JStr s => Ok (includes c s)
  | JObj ClsArray items =>
    Ok (existsb (fun v => strict_eq_str v (String c EmptyString)) (map snd items))
  | _ => Throw (TypeError "mode.flag.includes is not a function")
  end.

(** FileSystemAccess.ts 178:
    [mode && mode.flag && mode.flag.includes('w') && !mode.flag.includes('x')],
    as a truth value. *)
Definition overwrite_flag (mode : jsval) : result bool :=
  if negb (truthy mode) then Ok false
  else
    let flag := get_prop "flag" mode in
    if negb (truthy flag) then Ok false
    else
      match js_includes flag "w" with
      | Throw e => Throw e
      | Ok false => Ok false
      | Ok true =>
        match js_includes flag "x" with
        | Throw e => Throw e
        | Ok x => Ok (negb x)
        end
      end.

Definition lift {A} (r : result A) : M A := fun fs => (r, fs).

(** FileSystemAccess.ts 177-189 *)
Definition mkdir (p : string) (mode : jsval) : M unit :=
  let* overwrite := lift (overwrite_flag mode) in
  let* existingHandle := getHandle p in
  if bool_decide (is_Some existingHandle) && negb overwrite then
    throw (ApiError EEXIST p)
  else
    let* handle := getHandle (dirname p) in
    match handle with
    | Some h =>
      match hkind h with
      | KDirectory =>
        let* _ := browser (getDirectoryHandle h (basename p) true) in
        ret tt
      | KFile => ret tt
      end
    | None => ret tt
    end.

(** FileSystemAccess.ts 162-171 *)
Definition unlink (path : string) : M unit :=
  record (CallUnlink path);;
  let* handle := getHandle (dirname path) in
  match handle with
  | Some h =>
    match hkind h with
    | KDirectory =>
      try_catch (browser (removeEntry h (basename path)))
        (fun e => handleError path e)
    | KFile => ret tt
    end
  | None => ret tt
  end.

(** FileSystemAccess.ts 96-108: the file branch of [rename]. The write to
    the new file is taken to be complete when [close] is called. *)
Definition rename_file (handle : FileSystemHandle) (oldPath newPath : string)
  : M unit :=
  let* oldFile := browser (getFile handle) in
  let* destFolder := getHandle (dirname newPath) in
  match destFolder with
  | Some folder =>
    match hkind folder with
    | KDirectory =>
      let* newFile := browser (getFileHandle folder (basename newPath) true) in
      browser (write newFile (arrayBuffer oldFile));;
      unlink oldPath
    | KFile => ret tt
    end
  | None => ret tt
  end.

(** A recursive method either has not finished within the given number of
    nested calls ([None]) or has returned or thrown. *)
Definition outcome : Type := option (result unit * t).

(** FileSystemAccess.ts 90-93: the loop over the children, for the [rename]
    it calls on each of them. *)
Fixpoint rename_children (rename : string -> string -> t -> outcome)
    (oldPath newPath : string) (files : list string) (fs : t) : outcome :=
  match files with
  | [] => Some (Ok tt, fs)
  | file :: files =>
    match rename (join oldPath file) (join newPath file) fs with
    | None => None
    | Some (Throw e, fs1) => Some (Throw e, fs1)
    | Some (Ok _, fs1) =>
      match unlink oldPath fs1 with
      | (Throw e, fs2) => Some (Throw e, fs2)
      | (Ok _, fs2) => rename_children rename oldPath newPath files fs2
      end
    end
  end.

(** FileSystemAccess.ts 83-95: what [rename] does up to the loop for a
    directory. *)
Definition rename_directory_begin (oldPath newPath : string) : M (list string) :=
  let* files := readdir oldPath in
  mkdir newPath (JStr "wx");;
  ret files.

(** FileSystemAccess.ts 80-112; [depth] bounds the nesting of the calls. *)
Fixpoint rename (depth : nat) (oldPath newPath : string) (fs : t) : outcome :=
  match depth with
  | O => None
  | S depth =>
    let tried : outcome :=
      match (record (CallRename oldPath newPath);; getHandle oldPath) fs with
      | (Throw e, fs1) => Some (Throw e, fs1)
      | (Ok None, fs1) => Some (Ok tt, fs1)
      | (Ok (Some handle), fs1) =>
        match hkind handle with
        | KDirectory =>
          match rename_directory_begin oldPath newPath fs1 with
          | (Throw e, fs2) => Some (Throw e, fs2)
          | (Ok [], fs2) => Some (unlink oldPath fs2)
          | (Ok files, fs2) =>
            rename_children (rename depth) oldPath newPath files fs2
          end
        | KFile => Some (rename_file handle oldPath newPath fs1)
        end
      end in
    match tried with
    | None => None
    | Some (Ok _, fs') => Some (Ok tt, fs')
    | Some (Throw err, fs') => Some (handleError oldPath err fs')
    end
  end.

(** FileSystemAccess.ts 144-151 *)
Definition exists_ (p : string) : M bool :=
  try_catch (getHandle p;; ret true) (fun e => ret false).

(** FileSystemAccess.ts 114-123. [createWritable], [write] and [close] are
    the one step [write] of the model of the browser. *)
Definition writeFile (fname : string) (data : string) : M unit :=
  let* handle := getHandle (dirname fname) in
  match handle with
  | Some h =>
    match hkind h with
    | KDirectory =>
      let* file := browser (getFileHandle h (basename fname) true) in
      browser (write file data)
    | KFile => ret tt
    end
  | None => ret tt
  end.

(** FileSystemAccess.ts 31-34: what the constructor of [FileSystemAccessFile]
    is given. *)
Record FileSystemAccessFile := {
  _path : string;
  _flag : jsval;
  _stat : Stats;
  _buffer : string;
}.

(** FileSystemAccess.ts 203-205: [size || 0] and
    [lastModified || new Date().getTime()]; the current time is the clock of
    the model. *)
Definition newFile (path : string) (flag : jsval) (data : string) (size : Z)
    (lastModified : Z) : M FileSystemAccessFile :=
  fun fs =>
    (Ok {| _path := path; _flag := flag;
           _stat := {| itemType := FILE;
                       size := if size =? 0 then 0 else size;
                       mtimeMs := Some (if lastModified =? 0
                                        then clock (dom fs)
                                        else lastModified) |};
           _buffer := data |}, fs).

(** FileSystemAccess.ts 153-160. [None] is [undefined]. *)
Definition openFile (path : string) (flags : jsval)
  : M (option FileSystemAccessFile) :=
  let* handle := getHandle path in
  match handle with
  | Some h =>
    match hkind h with
    | KFile =>
      let* file := browser (getFile h) in
      let buffer := arrayBuffer file in
      let* f := newFile path flags buffer (DOM.size file) (lastModified file) in
      ret (Some f)
    | KDirectory => ret None
    end
  | None => ret None
  end.

(** FileSystemAccess.ts 125-128 *)
Definition createFile (p : string) (flag : jsval)
  : M (option FileSystemAccessFile) :=
  writeFile p EmptyString;;
  openFile p flag.

(** FileSystemAccess.ts 173-175 *)
Definition rmdir (path : string) : M unit := unlink path.

(** What a caller or the event loop can do with an instance: a caller calls
    a method and awaits it; the event loop ([OpResume]) delivers the answer
    that the oldest unawaited call of [getHandleParts] waits for. *)
Inductive operation :=
| OpStat (path : string)
| OpExists (p : string)
| OpReaddir (path : string)
| OpOpenFile (path : string) (flags : jsval)
| OpMkdir (p : string) (mode : jsval)
| OpUnlink (path : string)
| OpRmdir (path : string)
| OpWriteFile (fname : string) (data : string)
| OpCreateFile (p : string) (flag : jsval)
| OpRename (depth : nat) (oldPath newPath : string)
| OpResume.

(** The instance after the operation, whether it returned or threw; [None]
    when a [rename] did not finish within its bound. *)
Definition perform (o : operation) (fs : t) : option t :=
  match o with
  | OpStat path => Some (snd (stat path fs))
  | OpExists p => Some (snd (exists_ p fs))
  | OpReaddir path => Some (snd (readdir path fs))
  | OpOpenFile path flags => Some (snd (openFile path flags fs))
  | OpMkdir p mode => Some (snd (mkdir p mode fs))
  | OpUnlink path => Some (snd (unlink path fs))
  | OpRmdir path => Some (snd (rmdir path fs))
  | OpWriteFile fname data => Some (snd (writeFile fname data fs))
  | OpCreateFile p flag => Some (snd (createFile p flag fs))
  | OpRename depth oldPath newPath => snd <$> rename depth oldPath newPath fs
  | OpResume => Some (run_detached fs)
  end.

Fixpoint perform_all (ops : list operation) (fs : t) : option t :=
  match ops with
  | [] => Some fs
  | o :: ops =>
    match perform o fs with
    | Some fs' => perform_all ops fs'
    | None => None
    end
  end.

(** The operations that only look. *)
Definition read_only (o : operation) : bool :=
  match o with
  | OpStat _ | OpExists _ | OpReaddir _ | OpOpenFile _ _ | OpResume => true
  | _ => false
  end.

(** A method or a browser request that keeps what [P] says of the
    instance. *)
Definition preserves {A} (P : t -> Prop) (m : M A) : Prop :=
  ∀ fs, P fs → P (snd (m fs)).

(** The cache is coherent: a path maps to a handle for the location that the
    path names, and every walk that is under way is about to cache under the
    path of the entry it asked for. *)
Definition names_entry (path : string) (l : list string) : Prop :=
  path = absolute l ∧ Forall allowed l.

Definition coherent_task (tk : task) : Prop :=
  (∀ h, handle tk = Some h → allowed (pathPart tk) →
     names_entry (walkingPath tk) (loc h ++ [pathPart tk]))
  ∧ (∀ h, response tk = Ok h →
       names_entry (walkingPath tk) (loc h) ∧ walkingPath tk ≠ "/").

Record coherent (fs : t) : Prop := {
  coherent_handles : ∀ path h, _handles fs !! path = Some h →
    names_entry path (loc h);
  coherent_detached : Forall coherent_task (detached fs);
}.

(** A coherent cache that has the root handle under ['/']. *)
Definition rooted (fs : t) : Prop :=
  coherent fs ∧ _handles fs !! "/" = Some rootHandle.

(** The instance after the browser has handed out one more handle. *)
Definition granted (fs : t) : t :=
  {| dom := {| root := root (dom fs); acquired := S (acquired (dom fs));
               clock := clock (dom fs) |};
     _handles := _handles fs; detached := detached fs;
     unhandled := unhandled fs; calls := calls fs |}.

(** What the browser answers to a request for an entry that exists and is the
    node [c]: a handle for the location [l] of the entry when the request is
    for the kind of the entry, and the TypeMismatchError otherwise. *)
Definition answer_for (file_request : bool) (c : node) (l : list string)
    (r : result FileSystemHandle) : Prop :=
  match c, file_request with
  | DirNode _, false => ∃ i, r = Ok {| hid := i; hkind := KDirectory; loc := l |}
  | FileNode _ _, true => ∃ i, r = Ok {| hid := i; hkind := KFile; loc := l |}
  | _, _ => r = Throw TypeMismatchError
  end.

(** A method that leaves the record of calls as it is. *)
Definition keeps_calls {A} (m : M A) : Prop :=
  ∀ fs, calls (snd (m fs)) = calls fs.

(** The calls that the loop of [rename] over [files] makes itself. *)
Definition loop_calls (oldPath newPath : string) (files : list string)
  : list call :=
  flat_map (fun file => [CallRename (join oldPath file) (join newPath file);
                         CallUnlink oldPath]) files.

(** A root with the single file [a.txt] of content ["hi"]. *)
Definition single_file : node := DirNode [("a.txt", FileNode "hi" 1000)].

(** A root with the single, empty directory [d]. *)
Definition one_directory : node := DirNode [("d", DirNode [])].

(** A root with the single, empty directory [a]. *)
Definition one_parent : node := DirNode [("a", DirNode [])].

(** A root with the file [x] in the directory [d] of the directory [a]. *)
Definition nested : node :=
  DirNode [("a", DirNode [("d", DirNode [("x", FileNode "1" 5)])])].

(** A root with the files [x] and [y] in the directory [d] of the directory
    [a]. *)
Definition two_children : node :=
  DirNode [("a", DirNode [("d", DirNode [("x", FileNode "1" 5);
                                        ("y", FileNode "2" 6)])])].

(** A new instance over [tree] after a first [stat('/a/d')], which throws,
    and the end of the walk that it started: ['/a/d'] is in the cache. *)
Definition resolved_d (tree : node) : t :=
  settle_walks (snd (stat "/a/d" (create tree))).

(** The instance at the point where [rename('/a/d', '/a/e')] enters its
    loop. *)
Definition at_loop (tree : node) : t :=
  snd (rename_directory_begin "/a/d" "/a/e"
         (snd (record (CallRename "/a/d" "/a/e") (resolved_d tree)))).

End FileSystemAccessFileSystem.

(** * Properties of the bridge *)

Module WorkerFSFacts.

Import WorkerFS.
Local Open Scope list_scope.

Lemma consistent_init : consistent init.
Proof. split; simpl; done. Qed.

Lemma seqZ_snoc (n : Z) : 0 ≤ n → seqZ 0 (n + 1) = seqZ 0 n ++ [n].
Proof.
  intros Hn. rewrite seqZ_app by lia. f_equal.
Qed.

Lemma number_succ_min (n : Z) :
  0 ≤ n → number_succ (Z.min n (2 ^ 53)) = Z.min (n + 1) (2 ^ 53).
Proof.
  intros Hn. unfold number_succ.
  destruct (Z.ltb_spec (Z.min n (2 ^ 53)) (2 ^ 53)); lia.
Qed.

(** Below the limit the ids are the numbers of the requests themselves. *)
Lemma fmap_min_seqZ (n : Z) :
  n ≤ 2 ^ 53 → (λ k, Z.min k (2 ^ 53)) <$> seqZ 0 n = seqZ 0 n.
Proof.
  intros Hn. apply list_eq. intros i. rewrite list_lookup_fmap.
  destruct (seqZ 0 n !! i) as [k|] eqn:Hk; simpl; [|done].
  apply lookup_seqZ in Hk as [-> Hi]. f_equal. lia.
Qed.

Lemma consistent_rpc m a fs : consistent fs → consistent (snd (_rpc m a fs)).
Proof.
  intros [Hn Hp Hr Hd]. split; simpl.
  - rewrite Hn, length_app, number_succ_min by lia. simpl. f_equal. lia.
  - rewrite fmap_app, Hp, length_app. simpl.
    replace (Z.of_nat (length (posted fs) + 1))
      with (Z.of_nat (length (posted fs)) + 1) by lia.
    rewrite seqZ_snoc, fmap_app by lia. simpl. by rewrite Hn.
  - intros i req. rewrite lookup_insert, length_app. simpl.
    case_decide as Hi.
    + intros [= <-]. simpl. rewrite <- Hi, Hn. split; [lia|]. split; [lia|].
      by rewrite lookup_app_r, Nat.sub_diag by lia.
    + intros Hreq. destruct (Hr _ _ Hreq) as (Hi1 & Hi2 & Hpend).
      split; [done|]. split; [lia|].
      rewrite lookup_app_l; [done|]. by eapply lookup_lt_Some.
  - intros i j ri rj Hij. rewrite !lookup_insert.
    destruct (decide (_currentID fs = i)) as [Hi|Hi],
             (decide (_currentID fs = j)) as [Hj|Hj].
    + congruence.
    + intros [= <-] Hrj. simpl. destruct (Hr _ _ Hrj) as (_ & _ & Hpend).
      apply lookup_lt_Some in Hpend. lia.
    + intros Hri [= <-]. simpl. destruct (Hr _ _ Hri) as (_ & _ & Hpend).
      apply lookup_lt_Some in Hpend. lia.
    + intros Hri Hrj. by apply (Hd i j).
Qed.

Lemma settle_length p s ps : length (settle p s ps) = length ps.
Proof. unfold settle. repeat case_match; by rewrite ?length_insert. Qed.

Lemma settle_other p q s ps : q ≠ p → settle p s ps !! q = ps !! q.
Proof.
  intros Hq. unfold settle. repeat case_match; try done.
  by rewrite list_lookup_insert_ne.
Qed.

Lemma settle_pending p s ps :
  ps !! p = Some Pending → settle p s ps !! p = Some s.
Proof.
  intros Hp. unfold settle. rewrite Hp.
  apply list_lookup_insert_eq. by eapply lookup_lt_Some.
Qed.

Lemma consistent_onmessage d fs :
  consistent fs → consistent (snd (onmessage d fs)).
Proof.
  intros Hc. unfold onmessage.
  destruct (isRPCMessage d) as [[|]|]; simpl; try done.
  destruct (strict_eq_str _ _); simpl.
  { destruct Hc. by split. }
  destruct (requests_get _ fs) as [req|] eqn:Hget; simpl; [|done].
  unfold requests_get, requests_delete in *.
  destruct (get_prop "id" d) as [| | |n| | |]; try done.
  destruct Hc as [Hn Hp Hr Hd].
  split; simpl; try done.
  - intros i r. rewrite lookup_delete. case_decide as Hi; [done|].
    intros Hi'. destruct (Hr _ _ Hi') as (? & ? & ?).
    split; [done|]. split; [done|].
    rewrite settle_other; [done|]. apply (Hd i n r req); [congruence|done..].
  - intros i j ri rj Hij. rewrite !lookup_delete.
    repeat case_decide; try done. by apply Hd.
Qed.

Lemma consistent_step fs ev : consistent fs → consistent (step fs ev).
Proof.
  intros Hc. destruct ev as [m a|d].
  - by apply (consistent_rpc m a).
  - by apply consistent_onmessage.
Qed.

Lemma consistent_run evs fs : consistent fs → consistent (run evs fs).
Proof.
  unfold run. revert fs.
  induction evs as [|ev evs IH]; simpl; auto using consistent_step.
Qed.

Lemma reachable_consistent fs : reachable fs → consistent fs.
Proof. intros [evs ->]. apply consistent_run, consistent_init. Qed.

(** The requests posted are never taken back. *)
Lemma posted_step fs ev :
  (length (posted fs) ≤ length (posted (step fs ev)))%nat.
Proof.
  destruct ev as [m a|d]; simpl.
  - rewrite length_app. lia.
  - unfold onmessage. repeat case_match; simpl; lia.
Qed.

Lemma posted_run evs fs :
  (length (posted fs) ≤ length (posted (run evs fs)))%nat.
Proof.
  unfold run. revert fs. induction evs as [|ev evs IH]; intros fs; simpl; [lia|].
  etrans; [apply (posted_step fs ev)|apply IH].
Qed.

(** While no more than 2^53 requests have been sent, an id that has been
    issued and is no longer pending stays out of the pending map. *)
Lemma gone_step i fs ev :
  consistent fs →
  _requests fs !! i = None → i < Z.of_nat (length (posted fs)) →
  Z.of_nat (length (posted (step fs ev))) ≤ 2 ^ 53 →
  _requests (step fs ev) !! i = None.
Proof.
  intros Hc Hi Hlt. destruct ev as [m a|d]; simpl.
  - rewrite length_app. simpl. intros Hmax.
    rewrite lookup_insert_ne; [done|]. rewrite (id_counts fs Hc). lia.
  - intros _. unfold onmessage.
    destruct (isRPCMessage d) as [[|]|]; simpl; try done.
    destruct (strict_eq_str _ _); simpl; [done|].
    destruct (requests_get _ fs) as [req|]; simpl; [|done].
    unfold requests_delete.
    destruct (get_prop "id" d); try done.
    rewrite lookup_delete. by case_decide.
Qed.

Lemma removers_gone i evs : ∀ fs,
  consistent fs →
  _requests fs !! i = None → i < Z.of_nat (length (posted fs)) →
  Z.of_nat (length (posted (run evs fs))) ≤ 2 ^ 53 →
  removers i evs fs = [].
Proof.
  induction evs as [|ev evs IH]; intros fs Hc Hi Hlt Hmax; simpl; [done|].
  unfold removes. rewrite Hi. simpl.
  change (run (ev :: evs) fs) with (run evs (step fs ev)) in Hmax.
  pose proof (posted_run evs (step fs ev)) as Hmono.
  pose proof (posted_step fs ev) as Hstep.
  apply IH; [by apply consistent_step| |lia|done].
  apply gone_step; [done..|lia].
Qed.

Lemma removers_at_most_once i evs : ∀ fs,
  consistent fs →
  Z.of_nat (length (posted (run evs fs))) ≤ 2 ^ 53 →
  (length (removers i evs fs) ≤ 1)%nat.
Proof.
  induction evs as [|ev evs IH]; intros fs Hc Hmax; simpl; [lia|].
  change (run (ev :: evs) fs) with (run evs (step fs ev)) in Hmax.
  destruct (removes i fs ev) eqn:Hrem.
  - apply andb_true_iff in Hrem as [Hin Hout].
    apply bool_decide_eq_true in Hin as [req Hin], Hout.
    destruct (pending_issued fs Hc i req Hin) as (_ & Hlt & _).
    pose proof (posted_step fs ev) as Hstep.
    rewrite removers_gone; [simpl; lia|by apply consistent_step|done|lia|done].
  - simpl. apply IH; [by apply consistent_step|done].
Qed.

Lemma removes_by_response i fs ev :
  removes i fs ev = true →
  ∃ d, ev = Deliver d ∧ isRPCMessage d = Ok true
       ∧ strict_eq_str (get_prop "method" d) "metadata" = false
       ∧ get_prop "id" d = JNum i.
Proof.
  intros Hrem. apply andb_true_iff in Hrem as [Hin Hout].
  apply bool_decide_eq_true in Hin as [req Hin], Hout.
  destruct ev as [m a|d]; simpl in Hout.
  - rewrite lookup_insert in Hout. case_decide; congruence.
  - exists d. split; [done|]. unfold onmessage in Hout.
    destruct (isRPCMessage d) as [[|]|]; simpl in Hout; try congruence.
    destruct (strict_eq_str _ _); simpl in Hout; [congruence|].
    destruct (requests_get _ fs) as [r|]; simpl in Hout; [|congruence].
    unfold requests_delete in Hout.
    destruct (get_prop "id" d) as [| | |n| | |]; try congruence.
    rewrite lookup_delete in Hout. case_decide; [subst; done|congruence].
Qed.

Lemma removers_by_response i evs fs ev :
  ev ∈ removers i evs fs →
  ∃ d, ev = Deliver d ∧ isRPCMessage d = Ok true
       ∧ strict_eq_str (get_prop "method" d) "metadata" = false
       ∧ get_prop "id" d = JNum i.
Proof.
  revert fs. induction evs as [|e evs IH]; intros fs; simpl.
  - by intros ?%elem_of_nil.
  - intros [Hin|Hin]%elem_of_app; [|by eapply IH].
    destruct (removes i fs e) eqn:Hrem.
    + apply list_elem_of_singleton in Hin as ->. by eapply removes_by_response.
    + by apply elem_of_nil in Hin.
Qed.

(** C4. In every run of one bridge from its construction in which no more
    than 2^53 requests have been sent, the requests posted carry the ids
    0, 1, 2, ... in the order they are sent, so each request has a new id,
    larger than all before it and never used twice, and so has the request
    that is sent next; and every id is taken out of the pending map by at
    most one event of the run, which is the delivery of a response envelope
    carrying that id. *)
Theorem fresh_ids_removed_once (evs : list event) :
  let fs := run evs init in
  Z.of_nat (length (posted fs)) ≤ 2 ^ 53 →
  id <$> posted fs = seqZ 0 (_currentID fs)
  ∧ NoDup (id <$> posted fs)
  ∧ (∀ j k rj rk, posted fs !! j = Some rj → posted fs !! k = Some rk →
       (j < k)%nat → id rj < id rk)
  ∧ (∀ m a,
       (id <$> posted (snd (_rpc m a fs))) = (id <$> posted fs) ++ [_currentID fs]
       ∧ (_currentID fs ∉ (id <$> posted fs))
       ∧ _requests fs !! _currentID fs = None)
  ∧ (∀ i, (length (removers i evs init) ≤ 1)%nat
       ∧ ∀ ev, ev ∈ removers i evs init →
           ∃ d, ev = Deliver d ∧ isRPCMessage d = Ok true
                ∧ get_prop "id" d = JNum i).
Proof.
  intros fs Hmax.
  assert (Hc : consistent fs) by apply consistent_run, consistent_init.
  assert (Hcur : _currentID fs = Z.of_nat (length (posted fs)))
    by (rewrite (id_counts fs Hc); lia).
  assert (Hids : id <$> posted fs = seqZ 0 (_currentID fs)).
  { rewrite (ids_posted fs Hc), Hcur. by apply fmap_min_seqZ. }
  split; [done|]. split; [rewrite Hids; apply NoDup_seqZ|].
  split; [|split].
  - intros j k rj rk Hj Hk Hjk.
    assert (Hj' : (id <$> posted fs) !! j = Some (id rj))
      by (by rewrite list_lookup_fmap, Hj).
    assert (Hk' : (id <$> posted fs) !! k = Some (id rk))
      by (by rewrite list_lookup_fmap, Hk).
    rewrite Hids in Hj', Hk'.
    apply lookup_seqZ in Hj' as [-> _], Hk' as [-> _]. lia.
  - intros m a. simpl. split; [by rewrite fmap_app|]. split.
    + rewrite Hids, elem_of_seqZ. lia.
    + destruct (_requests fs !! _currentID fs) as [req|] eqn:Hreq; [|done].
      destruct (pending_issued fs Hc _ _ Hreq). lia.
  - intros i. split.
    + apply removers_at_most_once; [apply consistent_init|done].
    + intros ev Hev.
      destruct (removers_by_response _ _ _ _ Hev) as (d & ? & ? & ? & ?).
      by exists d.
Qed.

Lemma fresh_ids_removed_once_witness :
  let evs := [Call "stat" [JStr "/"]; Call "readdir" [JStr "/"];
              Deliver (response 0 "stat" JNull); Call "stat" [JStr "/a"]] in
  let fs := run evs init in
  Z.of_nat (length (posted fs)) ≤ 2 ^ 53
  ∧ id <$> posted fs = seqZ 0 3
  ∧ NoDup (id <$> posted fs)
  ∧ (length (removers 0 evs init) ≤ 1)%nat.
Proof.
  intros evs fs.
  assert (Hmax : Z.of_nat (length (posted fs)) ≤ 2 ^ 53)
    by (vm_compute; discriminate).
  destruct (fresh_ids_removed_once evs Hmax) as (Hids & Hnd & _ & _ & Hrem).
  split; [exact Hmax|]. split; [exact Hids|]. split; [exact Hnd|].
  exact (proj1 (Hrem 0)).
Defined.

(** The requests of a run of calls alone. *)
Lemma posted_calls m a n : ∀ fs,
  length (posted (run (replicate n (Call m a)) fs)) = (length (posted fs) + n)%nat.
Proof.
  induction n as [|n IH]; intros fs; [simpl; lia|].
  change (run (replicate (S n) (Call m a)) fs)
    with (run (replicate n (Call m a)) (step fs (Call m a))).
  rewrite IH. simpl. rewrite length_app. simpl. lia.
Qed.

(** In a run that sends more than 2^53 + 1 requests, the requests from the
    one numbered 2^53 on all carry the id 2^53. *)
Lemma ids_saturate (n : nat) (m : string) (a : list jsval) :
  2 ^ 53 + 2 ≤ Z.of_nat n →
  ¬ NoDup (id <$> posted (run (replicate n (Call m a)) init)).
Proof.
  intros Hn Hnd.
  pose proof (consistent_run (replicate n (Call m a)) init consistent_init) as Hc.
  rewrite (ids_posted _ Hc), posted_calls in Hnd. simpl in Hnd.
  set (L := 2 ^ 53) in *.
  assert (HL : 0 ≤ L) by (subst L; lia).
  assert (Hat : ∀ i : nat, L ≤ Z.of_nat i < Z.of_nat n →
            ((λ k, Z.min k L) <$> seqZ 0 (Z.of_nat n)) !! i = Some L).
  { intros i Hi. rewrite list_lookup_fmap, lookup_seqZ_lt by lia. simpl.
    f_equal. lia. }
  pose proof (proj1 (NoDup_alt _) Hnd (Z.to_nat L) (Z.to_nat (L + 1)) L) as Heq.
  rewrite !Hat in Heq by lia. specialize (Heq eq_refl eq_refl). lia.
Qed.

(** The claim C4 without the bound fails: after 2^53 + 2 calls the last two
    requests both carry the id 2^53. *)
Lemma ids_reused :
  ¬ NoDup (id <$> posted
             (run (replicate (Z.to_nat (2 ^ 53 + 2)) (Call "stat" [JStr "/"]))
                init)).
Proof. apply ids_saturate. lia. Qed.

(** A message that is not an object, or an object without a truthy [isBFS],
    is dropped: the handler returns and the bridge is as before. *)
Lemma onmessage_foreign d fs :
  isRPCMessage d = Ok false → onmessage d fs = (Ok tt, fs).
Proof. intros H. unfold onmessage. by rewrite H. Qed.

Lemma isRPCMessage_not_null d :
  d ≠ JNull → isRPCMessage d = Ok (truthy (get_prop "isBFS" d)).
Proof.
  intros Hd. destruct d as [| | | | | |cls fields]; try done.
  unfold isRPCMessage. simpl.
  by destruct (assoc "isBFS" fields) as [v|].
Qed.

(** Every message but [null] that has no truthy [isBFS] is dropped. *)
Lemma onmessage_ignores_foreign d fs :
  d ≠ JNull → truthy (get_prop "isBFS" d) = false →
  onmessage d fs = (Ok tt, fs).
Proof.
  intros Hd Hm. apply onmessage_foreign.
  by rewrite isRPCMessage_not_null, Hm.
Qed.

(** C5. The message [null] carries no protocol marker, yet the handler does
    not return on it: [typeof null] is ['object'], so [isRPCMessage] goes on
    to ['isBFS' in null], which throws a TypeError. The bridge itself is left
    as it was. *)
Theorem onmessage_null_throws (fs : t) :
  typeof JNull = "object"
  ∧ (∃ e, isRPCMessage JNull = Throw (TypeError e))
  ∧ (∃ e, onmessage JNull fs = (Throw (TypeError e), fs)).
Proof. split; [done|]. split; by eexists. Qed.

(** C6. A protocol message whose method is ['metadata'] is handled the same
    way in every state of the bridge, initialised or not: the handler
    returns, the stored metadata becomes the value of the message, the
    initialised flag is set, and the pending map, the promises, the id
    counter and the posted requests are as before. *)
Theorem metadata_overwrites (d : jsval) (fs : t) :
  isRPCMessage d = Ok true →
  strict_eq_str (get_prop "method" d) "metadata" = true →
  ∃ fs', onmessage d fs = (Ok tt, fs')
    ∧ _metadata fs' = get_prop "value" d
    ∧ _isInitialized fs' = true
    ∧ _requests fs' = _requests fs
    ∧ promises fs' = promises fs
    ∧ _currentID fs' = _currentID fs
    ∧ posted fs' = posted fs.
Proof.
  intros Hrpc Hm. unfold onmessage. rewrite Hrpc, Hm.
  eexists. split; [done|]. by simpl.
Qed.

Lemma metadata_overwrites_witness :
  let d := response 0 "metadata" (JObj ClsObject [("name", JStr "IndexedDB")]) in
  isRPCMessage d = Ok true
  ∧ strict_eq_str (get_prop "method" d) "metadata" = true
  ∧ _isInitialized announced = true
  ∧ ∃ fs', onmessage d announced = (Ok tt, fs')
      ∧ _metadata fs' = get_prop "value" d
      ∧ _isInitialized fs' = true
      ∧ _requests fs' = _requests announced
      ∧ promises fs' = promises announced
      ∧ _currentID fs' = _currentID announced
      ∧ posted fs' = posted announced.
Proof.
  intros d. split; [reflexivity|]. split; [reflexivity|]. split; [reflexivity|].
  apply (metadata_overwrites d announced); reflexivity.
Defined.

(** C7. In a reachable bridge, a protocol message that is not a metadata
    message and whose id is pending makes the handler return, takes exactly
    that id out of the pending map, and settles the promise of that request,
    which was not settled before: it is rejected with the value when the
    value is an error object and fulfilled with it otherwise. Every other
    pending request and every other promise is as before, whatever was
    delivered earlier. *)
Theorem response_settles_its_request (d : jsval) (fs : t) (i : Z)
    (req : WorkerRequest) :
  reachable fs →
  isRPCMessage d = Ok true →
  strict_eq_str (get_prop "method" d) "metadata" = false →
  get_prop "id" d = JNum i →
  _requests fs !! i = Some req →
  let value := get_prop "value" d in
  ∃ fs', onmessage d fs = (Ok tt, fs')
    ∧ _requests fs' = delete i (_requests fs)
    ∧ promises fs !! promise req = Some Pending
    ∧ promises fs' !! promise req =
        Some (if is_error_object value then Rejected value else Fulfilled value)
    ∧ (∀ q, q ≠ promise req → promises fs' !! q = promises fs !! q)
    ∧ (∀ j r, j ≠ i → _requests fs !! j = Some r →
         _requests fs' !! j = Some r ∧ promises fs' !! promise r = Some Pending).
Proof.
  intros Hreach Hrpc Hm Hid Hreq value.
  pose proof (reachable_consistent _ Hreach) as Hc.
  destruct (pending_issued fs Hc _ _ Hreq) as (_ & _ & Hpend).
  unfold onmessage. rewrite Hrpc, Hm. unfold requests_get, requests_delete.
  rewrite Hid, Hreq. eexists. split; [done|]. simpl.
  split; [done|]. split; [done|].
  split; [by apply settle_pending|].
  split; [intros q Hq; by apply settle_other|].
  intros j r Hj Hr. rewrite lookup_delete_ne by done. split; [done|].
  destruct (pending_issued fs Hc _ _ Hr) as (_ & _ & Hpend').
  rewrite settle_other; [done|]. by apply (pending_distinct fs Hc j i r req).
Qed.

Lemma response_settles_its_request_witness :
  let d := response 7 "readdir" array_x in
  let req := {| promise := 7 |} in
  reachable eight_pending
  ∧ _requests eight_pending !! 6 = Some {| promise := 6 |}
  ∧ _requests eight_pending !! 7 = Some req
  ∧ ∃ fs', onmessage d eight_pending = (Ok tt, fs')
      ∧ _requests fs' = delete 7 (_requests eight_pending)
      ∧ promises eight_pending !! promise req = Some Pending
      ∧ promises fs' !! promise req = Some (Fulfilled array_x)
      ∧ (∀ q, q ≠ promise req → promises fs' !! q = promises eight_pending !! q)
      ∧ (∀ j r, j ≠ 7 → _requests eight_pending !! j = Some r →
           _requests fs' !! j = Some r ∧ promises fs' !! promise r = Some Pending).
Proof.
  intros d req.
  assert (Hreach : reachable eight_pending) by (eexists; reflexivity).
  split; [exact Hreach|]. split; [reflexivity|]. split; [reflexivity|].
  apply (response_settles_its_request d eight_pending 7 req Hreach);
    reflexivity.
Defined.

(** C10. A protocol message that is not a metadata message and whose id is
    not in the pending map makes the handler throw a TypeError, from the
    destructuring of the [undefined] that the lookup returns; the bridge is
    left exactly as it was. *)
Theorem unmatched_response_throws (d : jsval) (fs : t) :
  isRPCMessage d = Ok true →
  strict_eq_str (get_prop "method" d) "metadata" = false →
  requests_get (get_prop "id" d) fs = None →
  ∃ e, onmessage d fs = (Throw (TypeError e), fs).
Proof.
  intros Hrpc Hm Hget. unfold onmessage. rewrite Hrpc, Hm, Hget. by eexists.
Qed.

Lemma unmatched_response_throws_witness :
  let d := response 3 "stat" JNull in
  isRPCMessage d = Ok true
  ∧ strict_eq_str (get_prop "method" d) "metadata" = false
  ∧ requests_get (get_prop "id" d) init = None
  ∧ ∃ e, onmessage d init = (Throw (TypeError e), init).
Proof.
  intros d. split; [reflexivity|]. split; [reflexivity|]. split; [reflexivity|].
  apply (unmatched_response_throws d init); reflexivity.
Defined.

End WorkerFSFacts.

(** * Properties of the path functions *)

Module PathFacts.

Import DOM.

Lemma append_nil_l (b : string) : EmptyString ++ b = b.
Proof. done. Qed.

Lemma append_cons x (a b : string) : String x a ++ b = String x (a ++ b).
Proof. done. Qed.

Lemma append_assoc (a b c : string) : (a ++ b) ++ c = a ++ b ++ c.
Proof.
  induction a as [|x a IH]; [done|]. rewrite !append_cons. by f_equal.
Qed.

Lemma list_ascii_of_string_append (a b : string) :
  list_ascii_of_string (a ++ b)
  = (list_ascii_of_string a ++ list_ascii_of_string b)%list.
Proof.
  induction a as [|x a IH]; [done|]. rewrite append_cons. simpl. by f_equal.
Qed.

Lemma includes_cons c x s :
  includes c (String x s) = Ascii.eqb c x || includes c s.
Proof. done. Qed.

Lemma is_slash_eqb x : Ascii.eqb "/" x = is_slash x.
Proof. unfold is_slash. apply Ascii.eqb_sym. Qed.

(** A string without a slash is one segment. *)
Lemma split_no_slash s : includes "/" s = false → split s = [s].
Proof.
  induction s as [|x s IH]; simpl; [done|].
  rewrite includes_cons, is_slash_eqb. intros [Hx Hs]%orb_false_iff.
  rewrite Hx. by rewrite IH.
Qed.

Lemma split_append s r :
  includes "/" s = false → split (s ++ "/" ++ r) = s :: split r.
Proof.
  induction s as [|x s IH]; [done|].
  rewrite includes_cons, is_slash_eqb. intros [Hx Hs]%orb_false_iff.
  rewrite append_cons. simpl. rewrite Hx. by rewrite IH.
Qed.

Lemma split_slash_append (a : string) :
  split ("/" ++ a) = EmptyString :: split a.
Proof. done. Qed.

Lemma allowed_no_slash name : allowed name → includes "/" name = false.
Proof.
  unfold allowed, name_allowed. intros H.
  apply andb_true_iff in H as [_ H]. by apply negb_true_iff in H.
Qed.

Lemma allowed_step b acc name :
  allowed name → normalize_step b acc name = name :: acc.
Proof.
  unfold allowed, name_allowed, normalize_step. intros H.
  apply andb_true_iff in H as [H _]. apply andb_true_iff in H as [H H3].
  apply andb_true_iff in H as [H1 H2].
  apply negb_true_iff in H1, H2, H3. by rewrite H1, H2, H3.
Qed.

Lemma allowed_nonempty name : allowed name → ∃ c s, name = String c s.
Proof. destruct name as [|c s]; [done|]. by exists c, s. Qed.

Lemma split_join_segs names r :
  Forall allowed names → names ≠ [] →
  split (join_segs names ++ "/" ++ r) = (names ++ split r)%list.
Proof.
  induction names as [|n names IH]; [done|]. intros Hall _.
  apply Forall_cons in Hall as [Hn Hall].
  destruct names as [|n' names].
  - simpl. by apply split_append, allowed_no_slash.
  - change (join_segs (n :: n' :: names))
      with (n ++ "/" ++ join_segs (n' :: names)).
    rewrite !append_assoc, split_append by by apply allowed_no_slash.
    rewrite IH by done. done.
Qed.

Lemma split_join_segs_last names name :
  Forall allowed names → allowed name →
  split (join_segs (names ++ [name])) = (names ++ [name])%list.
Proof.
  intros Hall Hn. induction Hall as [|n names Hn' Hall IH]; simpl.
  - by apply split_no_slash, allowed_no_slash.
  - destruct (names ++ [name])%list as [|n' l] eqn:Hl.
    { by destruct names. }
    rewrite split_append by by apply allowed_no_slash. by rewrite IH.
Qed.

(** The parts that [getHandle] walks for an absolute path. *)
Lemma split_absolute names :
  Forall allowed names → names ≠ [] → tail (split (absolute names)) = names.
Proof.
  intros Hall Hne. unfold absolute. rewrite split_slash_append. simpl.
  destruct (exists_last Hne) as (l & x & ->).
  apply Forall_app in Hall as [Hl Hx]. apply Forall_cons in Hx as [Hx _].
  by apply split_join_segs_last.
Qed.

Lemma fold_allowed b names acc :
  Forall allowed names →
  fold_left (normalize_step b) names acc = (rev names ++ acc)%list.
Proof.
  intros Hall. revert acc.
  induction Hall as [|n names Hn Hall IH]; intros acc; simpl; [done|].
  rewrite allowed_step, IH by done. by rewrite <- app_assoc.
Qed.

Lemma ends_with_slash_append a name :
  allowed name → ends_with_slash (a ++ name) = false.
Proof.
  intros Hn. unfold ends_with_slash.
  rewrite list_ascii_of_string_append, rev_app_distr.
  pose proof (allowed_no_slash _ Hn) as Hs. unfold includes in Hs.
  destruct (allowed_nonempty _ Hn) as (c & s & ->).
  destruct (rev (list_ascii_of_string (String c s))) as [|x l] eqn:Hrev.
  { apply (f_equal (@length _)) in Hrev. rewrite length_rev in Hrev. done. }
  simpl. destruct (is_slash x) eqn:Hx; [|done].
  assert (Hin : In x (list_ascii_of_string (String c s))).
  { apply in_rev. rewrite Hrev. by left. }
  assert (existsb (Ascii.eqb "/") (list_ascii_of_string (String c s)) = true);
    [|congruence].
  apply existsb_exists. exists x. by rewrite is_slash_eqb.
Qed.

Lemma join_segs_nonempty n names :
  allowed n → String.eqb (join_segs (n :: names)) EmptyString = false.
Proof.
  intros (c & s & ->)%allowed_nonempty. by destruct names.
Qed.

(** The segments of [absolute names ++ "/" ++ name], without the empty
    ones. *)
Lemma split_absolute_append names name :
  Forall allowed names → allowed name →
  fold_left (normalize_step false) (split (absolute names ++ "/" ++ name)) []
  = (name :: rev names)%list.
Proof.
  intros Hall Hn. unfold absolute.
  rewrite append_assoc, split_slash_append.
  destruct names as [|n names].
  - change (join_segs [] ++ "/" ++ name) with ("/" ++ name).
    rewrite split_slash_append, split_no_slash by by apply allowed_no_slash.
    simpl. by rewrite allowed_step.
  - rewrite split_join_segs by done.
    rewrite split_no_slash by by apply allowed_no_slash.
    change (fold_left ?f (EmptyString :: ?l) []) with (fold_left f l []).
    rewrite fold_allowed by (apply Forall_app; split; [done|by constructor]).
    by rewrite app_nil_r, rev_app_distr.
Qed.

(** Joining the absolute path of a directory with the name of an entry gives
    the absolute path of the entry. *)
Lemma join_absolute names name :
  Forall allowed names → allowed name →
  join (absolute names) name = absolute (names ++ [name]).
Proof.
  intros Hall Hn. unfold join.
  destruct (allowed_nonempty _ Hn) as (c & s & Hname).
  assert (String.eqb name EmptyString = false) as -> by by rewrite Hname.
  change (String.eqb (absolute names) EmptyString) with false. cbv iota.
  change (String.eqb (absolute names ++ "/" ++ name) EmptyString) with false. cbv iota.
  unfold normalize.
  change (String.eqb (absolute names ++ "/" ++ name) EmptyString) with false. cbv iota.
  change (starts_with_slash (absolute names ++ "/" ++ name)) with true.
  rewrite <- append_assoc, ends_with_slash_append by done.
  rewrite append_assoc. simpl negb. cbv iota.
  unfold normalizeString. rewrite split_absolute_append by done.
  change (rev (name :: rev names)) with (rev (rev names) ++ [name])%list.
  rewrite rev_involutive.
  destruct (names ++ [name])%list as [|n l] eqn:Hl; [by destruct names|].
  assert (Hal : allowed n).
  { assert (Forall allowed (n :: l)) as Hnl
      by (rewrite <- Hl; apply Forall_app; split; [done|by constructor]).
    by apply Forall_cons in Hnl as [? _]. }
  by rewrite join_segs_nonempty.
Qed.

End PathFacts.

(** * Properties of the resolver *)

Module FileSystemAccessFacts.

Import DOM FileSystemAccessFileSystem PathFacts.
Local Open Scope list_scope.

(** [getHandle] hands out a handle only from the cache, and then changes
    nothing. *)
Lemma getHandle_Some path fs h fs' :
  getHandle path fs = (Ok (Some h), fs') →
  _handles fs !! path = Some h ∧ fs' = fs.
Proof.
  unfold getHandle. destruct (_handles fs !! path) as [h'|] eqn:Hc.
  - by intros [= -> ->].
  - unfold bind, ret. destruct (getHandleParts _ _ _ fs) as [[?|?] ?]; done.
Qed.

Lemma getHandle_cached path fs h :
  _handles fs !! path = Some h → getHandle path fs = (Ok (Some h), fs).
Proof. intros Hc. unfold getHandle. by rewrite Hc. Qed.

(** C1. On a new resolver over the root with the single file [a.txt] of
    content ["hi"], the first [stat('/a.txt')] throws the invalid-argument
    error instead of returning the file type and size 2, which only the
    second call returns; [stat('/missing')] throws not-found and
    [readdir('/')] returns [['/a.txt']]. *)
Theorem stat_fresh_single_file :
  let fs := create single_file in
  fst (stat "/a.txt" fs) = Throw (ApiError EINVAL "/a.txt")
  ∧ fst (stat "/a.txt" (snd (stat "/a.txt" fs)))
    = Ok {| itemType := FILE; size := 2; mtimeMs := Some 1000 |}
  ∧ fst (stat "/missing" fs) = Throw (ApiError ENOENT "/missing")
  ∧ fst (readdir "/" fs) = Ok ["/a.txt"].
Proof. vm_compute. done. Qed.

(** C2. The first resolution of a path that exists returns no handle, so the
    second cannot return the handle object that the first returned. On a new
    resolver over the root with the file [x] in the directory [d] of [a],
    [getHandle('/a/d/x')] returns [undefined]; called again with nothing in
    between, it returns [undefined] again, asks the browser for [a] and [d]
    once more (the handles acquired go from 3 to 5) and puts the new handle
    object for [a] in the place of the first in the cache; [stat('/a/d/x')]
    throws invalid-argument both times. When the unawaited steps of the first
    walk have run before the second call, the second call returns the handle
    of [x] from the cache and asks the browser for nothing, but the first
    call had returned [undefined]. Over the root with the single file
    [a.txt], the first [getHandle('/a.txt')] returns [undefined] and only the
    second returns the handle, from the cache. *)
Theorem getHandle_twice :
  let fs := create nested in
  let fs1 := snd (getHandle "/a/d/x" fs) in
  let fs2 := snd (getHandle "/a/d/x" fs1) in
  let fs' := create single_file in
  fst (getHandle "/a/d/x" fs) = Ok None
  ∧ fst (getHandle "/a/d/x" fs1) = Ok None
  ∧ acquired (dom fs) = 1%nat
  ∧ acquired (dom fs1) = 3%nat
  ∧ acquired (dom fs2) = 5%nat
  ∧ _handles fs1 !! "/a" = Some {| hid := 1; hkind := KDirectory; loc := ["a"] |}
  ∧ _handles fs2 !! "/a" = Some {| hid := 3; hkind := KDirectory; loc := ["a"] |}
  ∧ fst (stat "/a/d/x" fs) = Throw (ApiError EINVAL "/a/d/x")
  ∧ fst (stat "/a/d/x" (snd (stat "/a/d/x" fs)))
    = Throw (ApiError EINVAL "/a/d/x")
  ∧ fst (getHandle "/a/d/x" (settle_walks fs1))
    = Ok (Some {| hid := 3; hkind := KFile; loc := ["a"; "d"; "x"] |})
  ∧ acquired (dom (settle_walks fs1)) = 4%nat
  ∧ acquired (dom (snd (getHandle "/a/d/x" (settle_walks fs1)))) = 4%nat
  ∧ fst (getHandle "/a.txt" fs') = Ok None
  ∧ fst (getHandle "/a.txt" (snd (getHandle "/a.txt" fs')))
    = Ok (Some {| hid := 1; hkind := KFile; loc := ["a.txt"] |}).
Proof. vm_compute. done. Qed.

(** With the target path in the cache and no overwrite flag, [mkdir] throws
    already-exists and changes nothing. *)
Lemma mkdir_cached p mode fs h :
  overwrite_flag mode = Ok false → _handles fs !! p = Some h →
  mkdir p mode fs = (Throw (ApiError EEXIST p), fs).
Proof.
  intros Ho Hc. unfold mkdir, bind, lift. rewrite Ho.
  by rewrite (getHandle_cached _ _ _ Hc).
Qed.

(** C3. On a new resolver over a root that has the directory [d], [mkdir('/d')]
    with no mode returns instead of throwing already-exists; over the root
    with the file [a.txt], [mkdir('/a.txt')] throws the TypeMismatchError of
    the browser. In both cases the tree is as before, and a second call, which
    finds the path in the cache, throws already-exists. Over a root with the
    empty directory [a], [mkdir('/a/d')] creates [d], and [mkdir('/a/d')]
    called again, before the unawaited step of the first walk has run,
    returns as well. *)
Theorem mkdir_existing_uncached :
  let fs := create one_directory in
  let fs' := create single_file in
  let fs'' := create one_parent in
  fst (mkdir "/a/d" JUndefined fs'') = Ok tt
  ∧ root (dom (snd (mkdir "/a/d" JUndefined fs'')))
    = DirNode [("a", DirNode [("d", DirNode [])])]
  ∧ fst (mkdir "/a/d" JUndefined (snd (mkdir "/a/d" JUndefined fs''))) = Ok tt
  ∧ fst (mkdir "/d" JUndefined fs) = Ok tt
  ∧ root (dom (snd (mkdir "/d" JUndefined fs))) = one_directory
  ∧ fst (mkdir "/d" JUndefined (snd (mkdir "/d" JUndefined fs)))
    = Throw (ApiError EEXIST "/d")
  ∧ fst (mkdir "/a.txt" JUndefined fs') = Throw TypeMismatchError
  ∧ root (dom (snd (mkdir "/a.txt" JUndefined fs'))) = single_file
  ∧ fst (mkdir "/a.txt" JUndefined (snd (mkdir "/a.txt" JUndefined fs')))
    = Throw (ApiError EEXIST "/a.txt").
Proof. vm_compute. done. Qed.

(** ** The walk of [getHandle] *)

Lemma find_app n l1 l2 :
  find n (l1 ++ l2) = find n l1 ≫= (λ m, find m l2).
Proof.
  revert n. induction l1 as [|x l1 IH]; intros n; simpl; [done|].
  destruct n as [|es]; [done|]. destruct (assoc x es); [apply IH|done].
Qed.

Lemma find_snoc n l x c :
  find n (l ++ [x]) = Some c →
  ∃ es, find n l = Some (DirNode es) ∧ assoc x es = Some c.
Proof.
  rewrite find_app. destruct (find n l) as [[|es]|]; simpl; try done.
  destruct (assoc x es) as [c'|] eqn:Hc; [|done].
  intros [= ->]. by exists es.
Qed.

(** The two requests of the walk, for an entry that exists. *)
Lemma getDirectoryHandle_found h name d es c :
  hkind h = KDirectory → allowed name →
  find (root d) (loc h) = Some (DirNode es) → assoc name es = Some c →
  getDirectoryHandle h name false d
  = match c with
    | DirNode _ => grant KDirectory (loc h ++ [name]) d
    | FileNode _ _ => (Throw TypeMismatchError, d)
    end.
Proof.
  intros Hk Hal Hfind Hc. unfold getDirectoryHandle, entries_of.
  rewrite Hk. unfold allowed in Hal. simpl. rewrite Hal. simpl.
  rewrite Hfind, Hc. by destruct c.
Qed.

Lemma getFileHandle_found h name d es c :
  hkind h = KDirectory → allowed name →
  find (root d) (loc h) = Some (DirNode es) → assoc name es = Some c →
  getFileHandle h name false d
  = match c with
    | FileNode _ _ => grant KFile (loc h ++ [name]) d
    | DirNode _ => (Throw TypeMismatchError, d)
    end.
Proof.
  intros Hk Hal Hfind Hc. unfold getFileHandle, entries_of.
  rewrite Hk. unfold allowed in Hal. simpl. rewrite Hal. simpl.
  rewrite Hfind, Hc. by destruct c.
Qed.

Lemma getDirectoryHandle_Ok h n d h' d' :
  getDirectoryHandle h n false d = (Ok h', d') →
  loc h' = loc h ++ [n] ∧ allowed n ∧ root d' = root d.
Proof.
  unfold getDirectoryHandle, entries_of, allowed. simpl.
  destruct (hkind h); [done|]. destruct (name_allowed n); [|done]. simpl.
  destruct (find (root d) (loc h)) as [[|es]|]; try done.
  destruct (assoc n es) as [[|es']|]; try done.
  by intros [= <- <-].
Qed.

Lemma getFileHandle_Ok h n d h' d' :
  getFileHandle h n false d = (Ok h', d') →
  loc h' = loc h ++ [n] ∧ allowed n ∧ root d' = root d.
Proof.
  unfold getFileHandle, entries_of, allowed. simpl.
  destruct (hkind h); [done|]. destruct (name_allowed n); [|done]. simpl.
  destruct (find (root d) (loc h)) as [[|es]|]; try done.
  destruct (assoc n es) as [[|es']|]; try done.
  by intros [= <- <-].
Qed.

Lemma getDirectoryHandle_root h n d :
  root (snd (getDirectoryHandle h n false d)) = root d.
Proof.
  destruct (getDirectoryHandle h n false d) as [[h'|e] d'] eqn:H; simpl.
  - by apply getDirectoryHandle_Ok in H as (_ & _ & ?).
  - revert H. unfold getDirectoryHandle. repeat case_match; by intros [= <- <-].
Qed.

Lemma getFileHandle_root h n d :
  root (snd (getFileHandle h n false d)) = root d.
Proof.
  destruct (getFileHandle h n false d) as [[h'|e] d'] eqn:H; simpl.
  - by apply getFileHandle_Ok in H as (_ & _ & ?).
  - revert H. unfold getFileHandle. repeat case_match; by intros [= <- <-].
Qed.

(** [continueWalk] does not throw. With no part left it puts the handle in
    the cache and looks the target up. *)
Lemma continueWalk_last tk h fs :
  remainingPathParts tk = [] →
  continueWalk tk h fs
  = (Ok (<[walkingPath tk := h]> (_handles fs) !! target tk),
     snd (handles_set (walkingPath tk) h fs)).
Proof.
  intros Hrest. unfold continueWalk, bind, handles_set, handles_get.
  by rewrite Hrest.
Qed.

(** With a part left it puts the handle in the cache and sends the request
    for the next part, which the browser answers on the tree as it is then. *)
Lemma continueWalk_next tk h fs r1 rest :
  remainingPathParts tk = r1 :: rest →
  let r := getDirectoryHandle h r1 false (dom fs) in
  continueWalk tk h fs
  = (Ok None,
     {| dom := snd r; _handles := <[walkingPath tk := h]> (_handles fs);
        detached := detached fs ++
          [{| handle := Some h; response := fst r; fallback := false;
              walkingPath := join (walkingPath tk) r1; pathPart := r1;
              remainingPathParts := rest; target := target tk |}];
        unhandled := unhandled fs; calls := calls fs |}).
Proof.
  intros Hrest r. subst r.
  unfold continueWalk, bind, handles_set, unawaited, getHandleParts_begin,
    bind, handles_get, attempt, ret, on_handle, browser.
  rewrite Hrest. simpl. rewrite lookup_insert_eq. simpl.
  by destruct (getDirectoryHandle h r1 false (dom fs)) as [r d'].
Qed.

Lemma continueWalk_frame tk h fs :
  ∃ v fs', continueWalk tk h fs = (Ok v, fs')
    ∧ root (dom fs') = root (dom fs)
    ∧ _handles fs' = <[walkingPath tk := h]> (_handles fs)
    ∧ calls fs' = calls fs ∧ unhandled fs' = unhandled fs.
Proof.
  destruct (remainingPathParts tk) as [|r1 rest] eqn:Hrest.
  - rewrite continueWalk_last by done. by eexists _, _.
  - rewrite (continueWalk_next tk h fs r1 rest Hrest).
    eexists _, _. split; [done|]. simpl.
    split; [apply getDirectoryHandle_root|done].
Qed.

(** The awaited step of a walk from a cached directory handle to an entry
    that exists: the browser hands out a handle for the entry, as a directory
    or, after the TypeMismatchError, as a file, and the call goes on with
    [continueWalk]. *)
Lemma getHandleParts_found w part rest p fs h es c :
  _handles fs !! w = Some h → hkind h = KDirectory → allowed part →
  find (root (dom fs)) (loc h) = Some (DirNode es) →
  assoc part es = Some c →
  let h' := {| hid := acquired (dom fs); hkind := kind_of c;
               loc := loc h ++ [part] |} in
  ∃ tk, walkingPath tk = join w part ∧ remainingPathParts tk = rest
    ∧ target tk = p
    ∧ getHandleParts w (part :: rest) p fs = continueWalk tk h' (granted fs).
Proof.
  intros Hw Hk Hal Hfind Hc h'.
  unfold getHandleParts, getHandleParts_begin, bind at 1 2 3, handles_get.
  rewrite Hw. unfold attempt, on_handle, browser.
  rewrite (getDirectoryHandle_found h part (dom fs) es c Hk Hal Hfind Hc).
  destruct c as [data m|es'].
  - unfold ret at 1. cbv beta iota.
    unfold getHandleParts_end, bind at 1, getHandleParts_answer.
    simpl. unfold bind at 1, attempt, on_handle, browser. simpl.
    rewrite (getFileHandle_found h part (dom fs) es _ Hk Hal Hfind Hc).
    unfold grant. simpl. unfold getHandleParts_retry. simpl.
    eexists. split; [|split; [|split; [|reflexivity]]]; reflexivity.
  - unfold grant, ret at 1. cbv beta iota.
    unfold getHandleParts_end, bind at 1, getHandleParts_answer.
    simpl.
    set (tk := {| handle := Some h; response := Ok _; fallback := false;
                  walkingPath := join w part; pathPart := part;
                  remainingPathParts := rest; target := p |}).
    exists tk. split; [done|]. split; [done|]. split; [done|].
    destruct (continueWalk_frame tk h' (granted fs)) as (v & fs' & Hcw & _).
    unfold bind, ret. unfold granted, h' in Hcw. simpl in Hcw.
    unfold granted, h'. simpl. by rewrite Hcw.
Qed.

Lemma iter_settled n fs : detached fs = [] → Nat.iter n run_detached fs = fs.
Proof.
  intros Hd. induction n as [|n IH]; [done|]. simpl. rewrite IH.
  unfold run_detached. by rewrite Hd.
Qed.

(** An unawaited call that waits for the answer to its request for an entry
    that exists, every part that remains being the name of an entry: when
    the answers have been delivered, at most two for each part, the target
    path is in the cache with a handle for the entry, and no walk is under
    way. *)
Lemma walk_settles m : ∀ fs tk prefix part rest h c n,
  detached fs = [tk] →
  handle tk = Some h → hkind h = KDirectory → loc h = prefix →
  walkingPath tk = absolute (prefix ++ [part]) → pathPart tk = part →
  remainingPathParts tk = rest →
  target tk = absolute (prefix ++ part :: rest) →
  Forall allowed (prefix ++ part :: rest) →
  find (root (dom fs)) (prefix ++ [part]) = Some c → find c rest = Some n →
  answer_for (fallback tk) c (prefix ++ [part]) (response tk) →
  (fallback tk = true → kind_of c = KFile) →
  (2 * length rest + (if fallback tk then 1 else 2) ≤ m)%nat →
  let fs' := Nat.iter m run_detached fs in
  root (dom fs') = root (dom fs) ∧ detached fs' = []
  ∧ unhandled fs' = unhandled fs ∧ calls fs' = calls fs
  ∧ ∃ h', _handles fs' !! absolute (prefix ++ part :: rest) = Some h'
      ∧ loc h' = prefix ++ part :: rest ∧ hkind h' = kind_of n.
Proof.
  induction m as [|m IH];
    intros fs tk prefix part rest h c n Hd Hh Hk Hl Hwp Hpp Hrem Htg Hall
      Hc Hn Hans Hfb Hm.
  { destruct (fallback tk); lia. }
  cbv zeta. rewrite Nat.iter_succ_r.
  destruct tk as [oh r fb wp pp rem tg].
  simpl in Hh, Hwp, Hpp, Hrem, Htg, Hans, Hfb, Hm. subst oh wp pp rem tg.
  pose proof Hall as [Hpre [Hpart Hrest]%Forall_cons]%Forall_app.
  destruct (find_snoc _ _ _ _ Hc) as (es0 & Hdir & Hassoc).
  assert (Hlast : ∀ i k, rest = [] → k = kind_of c →
            run_detached fs
            = snd (handles_set (absolute (prefix ++ [part]))
                     {| hid := i; hkind := k; loc := prefix ++ [part] |}
                     {| dom := dom fs; _handles := _handles fs;
                        detached := []; unhandled := unhandled fs;
                        calls := calls fs |}) →
            root (dom (Nat.iter m run_detached (run_detached fs))) = root (dom fs)
            ∧ detached (Nat.iter m run_detached (run_detached fs)) = []
            ∧ unhandled (Nat.iter m run_detached (run_detached fs)) = unhandled fs
            ∧ calls (Nat.iter m run_detached (run_detached fs)) = calls fs
            ∧ ∃ h', _handles (Nat.iter m run_detached (run_detached fs))
                      !! absolute (prefix ++ part :: rest) = Some h'
                ∧ loc h' = prefix ++ part :: rest ∧ hkind h' = kind_of n).
  { intros i k -> -> ->. simpl in Hn. injection Hn as <-.
    rewrite iter_settled by done. simpl.
    do 4 (split; [done|]). rewrite lookup_insert_eq. by eexists. }
  destruct fb.
  - (* the answer to [getFileHandle] *)
    destruct c as [data mt|es]; [|by specialize (Hfb eq_refl)].
    destruct Hans as [i ->].
    assert (rest = []) as Hnil by (by destruct rest).
    apply (Hlast i KFile Hnil eq_refl).
    unfold run_detached. rewrite Hd. cbn [fallback]. cbv beta iota zeta.
    unfold getHandleParts_retry. cbn [response]. cbv beta iota.
    by rewrite continueWalk_last.
  - destruct c as [data mt|es].
    + (* a file: the call asks again, with [getFileHandle] *)
      simpl in Hans. subst r.
      assert (rest = []) as -> by (by destruct rest).
      simpl in Hn. injection Hn as <-.
      set (h' := {| hid := acquired (dom fs); hkind := KFile;
                    loc := loc h ++ [part] |}).
      set (tk' := {| handle := Some h; response := Ok h'; fallback := true;
                     walkingPath := absolute (prefix ++ [part]);
                     pathPart := part; remainingPathParts := [];
                     target := absolute (prefix ++ [part]) |}).
      set (fs2 := {| dom := {| root := root (dom fs);
                               acquired := S (acquired (dom fs));
                               clock := clock (dom fs) |};
                     _handles := _handles fs; detached := [tk'];
                     unhandled := unhandled fs; calls := calls fs |}).
      assert (Hrun : run_detached fs = fs2).
      { unfold run_detached. rewrite Hd. simpl.
        unfold getHandleParts_answer. simpl.
        unfold bind, attempt, on_handle, browser. simpl.
        rewrite <- Hl in Hdir.
        rewrite (getFileHandle_found h part (dom fs) es0 (FileNode data mt) Hk Hpart Hdir Hassoc).
        reflexivity. }
      rewrite Hrun.
      apply (IH fs2 tk' prefix part [] h (FileNode data mt) (FileNode data mt));
        try done.
      * simpl. exists (acquired (dom fs)). unfold h'. by rewrite Hl.
      * simpl in *. lia.
    + destruct Hans as [i ->].
      destruct rest as [|r1 rest'].
      * apply (Hlast i KDirectory eq_refl eq_refl).
        unfold run_detached. rewrite Hd. cbn [fallback]. cbv beta iota zeta.
        unfold getHandleParts_answer, bind at 1. cbn [response]. cbv beta iota.
        by rewrite continueWalk_last.
      * (* a directory with parts left: the next request *)
        apply Forall_cons in Hrest as [Hr1 Hrest'].
        simpl in Hn. destruct (assoc r1 es) as [c1|] eqn:Hc1; [|done].
        set (hd := {| hid := i; hkind := KDirectory; loc := prefix ++ [part] |}).
        set (tk0 := {| handle := Some h; response := Ok hd; fallback := false;
                       walkingPath := absolute (prefix ++ [part]);
                       pathPart := part; remainingPathParts := r1 :: rest';
                       target := absolute (prefix ++ part :: r1 :: rest') |}).
        set (fs0 := {| dom := dom fs; _handles := _handles fs; detached := [];
                       unhandled := unhandled fs; calls := calls fs |}).
        pose proof (continueWalk_next tk0 hd fs0 r1 rest' eq_refl) as Hnext.
        cbv zeta in Hnext.
        pose proof (getDirectoryHandle_found hd r1 (dom fs) es c1
                      eq_refl Hr1 Hc Hc1) as Hreq.
        simpl in Hnext.
        assert (Hja : join (absolute (prefix ++ [part])) r1
                      = absolute ((prefix ++ [part]) ++ [r1])).
        { apply join_absolute; [|done].
          apply Forall_app. split; [done|by constructor]. }
        rewrite Hja in Hnext.
        set (tk1 := {| handle := Some hd;
                       response := (getDirectoryHandle hd r1 false (dom fs)).1;
                       fallback := false;
                       walkingPath := absolute ((prefix ++ [part]) ++ [r1]);
                       pathPart := r1; remainingPathParts := rest';
                       target := absolute (prefix ++ part :: r1 :: rest') |})
          in Hnext.
        set (fs2 := {| dom := (getDirectoryHandle hd r1 false (dom fs)).2;
                       _handles := <[absolute (prefix ++ [part]) := hd]> (_handles fs);
                       detached := [tk1]; unhandled := unhandled fs;
                       calls := calls fs |}) in Hnext.
        assert (Hrun : run_detached fs = fs2).
        { unfold run_detached. rewrite Hd. cbn [fallback]. cbv beta iota zeta.
          unfold getHandleParts_answer, bind at 1. cbn [response].
          cbv beta iota.
          match goal with
          | |- context [continueWalk ?a ?b ?c] =>
            change (continueWalk a b c) with (continueWalk tk0 hd fs0)
          end.
          by rewrite Hnext. }
        rewrite Hrun.
        assert (Hroot2 : root (dom fs2) = root (dom fs))
          by apply getDirectoryHandle_root.
        assert (Heq : prefix ++ part :: r1 :: rest'
                      = (prefix ++ [part]) ++ r1 :: rest')
          by (by rewrite <- app_assoc).
        destruct (IH fs2 tk1 (prefix ++ [part]) r1 rest' hd c1 n)
          as (H1 & H2 & H3 & H4 & h' & H5 & H6 & H7); try done.
        -- simpl. by rewrite Heq.
        -- by rewrite <- Heq.
        -- rewrite Hroot2, find_app, Hc. simpl. by rewrite Hc1.
        -- simpl. rewrite Hreq. destruct c1; simpl; [done|by eexists].
        -- simpl in *. lia.
        -- rewrite H1, Hroot2. do 4 (split; [done|]).
           exists h'. by rewrite Heq.
Qed.

(** C9. For a path that is not in the cache, [getHandle] never returns a
    handle: it returns [undefined] or throws. Whenever it returns, [stat] of
    that path throws invalid-argument and [readdir] throws not-a-directory.
    It does return when every part of the path is the name of an entry that
    exists: then, once the steps of the walk that are left to the event loop
    have run, the cache holds a handle for the entry under the path, and the
    next [getHandle] returns that handle. *)
Theorem getHandle_uncached (path : string) (fs : t) :
  _handles fs !! path = None →
  (∀ r fs', getHandle path fs = (r, fs') → r = Ok None ∨ ∃ e, r = Throw e)
  ∧ (∀ fs', getHandle path fs = (Ok None, fs') →
       stat path fs = (Throw (ApiError EINVAL path), fs')
       ∧ readdir path fs = (Throw (ApiError ENOTDIR path), fs'))
  ∧ (∀ names n h0,
       path = absolute names → names ≠ [] → Forall allowed names →
       find (root (dom fs)) names = Some n →
       _handles fs !! "/" = Some h0 → hkind h0 = KDirectory → loc h0 = [] →
       detached fs = [] →
       ∃ fs', getHandle path fs = (Ok None, fs')
         ∧ stat path fs = (Throw (ApiError EINVAL path), fs')
         ∧ readdir path fs = (Throw (ApiError ENOTDIR path), fs')
         ∧ root (dom (settle_walks fs')) = root (dom fs)
         ∧ ∃ h, _handles (settle_walks fs') !! path = Some h
             ∧ loc h = names ∧ hkind h = kind_of n
             ∧ getHandle path (settle_walks fs')
               = (Ok (Some h), settle_walks fs')).
Proof.
  intros Hc.
  assert (Hundef : ∀ fs', getHandle path fs = (Ok None, fs') →
            stat path fs = (Throw (ApiError EINVAL path), fs')
            ∧ readdir path fs = (Throw (ApiError ENOTDIR path), fs')).
  { intros fs' Hget. unfold stat, readdir, bind. by rewrite Hget. }
  split; [|split; [exact Hundef|]].
  - intros r fs'. unfold getHandle. rewrite Hc. unfold bind, ret.
    destruct (getHandleParts _ _ _ fs) as [[v|e] fs1]; intros [= <- <-]; eauto.
  - intros names n h0 Hp Hne Hall Hfind Hroot Hk Hl Hdt.
    destruct names as [|n1 rest]; [done|].
    pose proof Hall as [Hn1 Hrest]%Forall_cons.
    assert (∃ es c, find (root (dom fs)) (loc h0) = Some (DirNode es)
                    ∧ assoc n1 es = Some c ∧ find c rest = Some n)
      as (es & c & Hdir & Hc1 & Hn).
    { rewrite Hl. simpl in *. destruct (root (dom fs)) as [|es]; [done|].
      destruct (assoc n1 es) as [c|] eqn:E; [|done]. by exists es, c. }
    destruct (getHandleParts_found "/" n1 rest path fs h0 es c
                Hroot Hk Hn1 Hdir Hc1) as (tk & Hwp & Hrem & Htg & Hwalk).
    set (h' := {| hid := acquired (dom fs); hkind := kind_of c;
                  loc := loc h0 ++ [n1] |}) in *.
    assert (Hjoin : join "/" n1 = absolute [n1])
      by (apply (join_absolute [] n1); [constructor|done]).
    assert (Hgot : ∀ fs', getHandleParts "/" (n1 :: rest) path fs = (Ok None, fs') ∨
                          (∃ v, getHandleParts "/" (n1 :: rest) path fs = (Ok v, fs')) →
                     getHandle path fs = (Ok None, fs')).
    { intros fs' Hw. unfold getHandle. rewrite Hc. unfold bind, ret.
      rewrite Hp, split_absolute, <- Hp by done.
      by destruct Hw as [->|[v ->]]. }
    destruct rest as [|r1 rest'].
    + rewrite (continueWalk_last tk h' (granted fs) Hrem) in Hwalk.
      set (fs' := snd (handles_set (walkingPath tk) h' (granted fs))) in *.
      exists fs'.
      assert (Hget : getHandle path fs = (Ok None, fs')) by (apply Hgot; eauto).
      split; [done|]. destruct (Hundef _ Hget) as [Hstat Hreaddir].
      split; [done|]. split; [done|].
      assert (Hs : settle_walks fs' = fs')
        by (unfold settle_walks; by apply iter_settled).
      rewrite Hs. split; [done|]. exists h'.
      assert (Hin : _handles fs' !! path = Some h').
      { simpl. rewrite Hwp, Hjoin, Hp. apply lookup_insert_eq. }
      split; [done|]. split; [simpl; by rewrite Hl|].
      split; [simpl in Hn; by injection Hn as <-|].
      by apply getHandle_cached.
    + destruct c as [data mt|es1]; [done|].
      simpl in Hn. destruct (assoc r1 es1) as [c1|] eqn:Hc2; [|done].
      apply Forall_cons in Hrest as [Hr1 Hrest'].
      rewrite (continueWalk_next tk h' (granted fs) r1 rest' Hrem) in Hwalk.
      cbv zeta in Hwalk. rewrite Hwp, Hjoin, Htg in Hwalk.
      assert (Hja : join (absolute [n1]) r1 = absolute ([n1] ++ [r1]))
        by (apply join_absolute; [by constructor|done]).
      rewrite Hja in Hwalk.
      set (tk1 := {| handle := Some h';
                     response := (getDirectoryHandle h' r1 false (dom (granted fs))).1;
                     fallback := false;
                     walkingPath := absolute ([n1] ++ [r1]);
                     pathPart := r1; remainingPathParts := rest';
                     target := path |}) in Hwalk.
      set (fs' := {| dom := (getDirectoryHandle h' r1 false (dom (granted fs))).2;
                     _handles := <[absolute [n1] := h']> (_handles (granted fs));
                     detached := detached (granted fs) ++ [tk1];
                     unhandled := unhandled (granted fs);
                     calls := calls (granted fs) |}) in Hwalk.
      exists fs'.
      assert (Hget : getHandle path fs = (Ok None, fs')) by (apply Hgot; eauto).
      split; [done|]. destruct (Hundef _ Hget) as [Hstat Hreaddir].
      split; [done|]. split; [done|].
      assert (Hroot' : root (dom fs') = root (dom fs))
        by exact (getDirectoryHandle_root h' r1 (dom (granted fs))).
      assert (Hfind1 : find (root (dom fs)) (loc h') = Some (DirNode es1)).
      { simpl. rewrite find_app, Hdir. simpl. by rewrite Hc1. }
      destruct (walk_settles (2 * parts_left fs') fs' tk1 [n1] r1 rest' h' c1 n)
        as (H1 & H2 & H3 & H4 & h & H5 & H6 & H7); try done.
      * simpl. by rewrite Hdt.
      * simpl. by rewrite Hl.
      * rewrite Hroot'. rewrite Hl in Hdir. simpl in Hdir.
        injection Hdir as ->. simpl. by rewrite Hc1, Hc2.
      * unfold tk1. cbn [fallback response].
        rewrite (getDirectoryHandle_found h' r1 (dom (granted fs)) es1 c1
                   eq_refl Hr1 Hfind1 Hc2).
        destruct c1; simpl; [done|]. rewrite Hl. by eexists.
      * unfold parts_left. simpl. rewrite Hdt. simpl. lia.
      * unfold settle_walks. rewrite H1, Hroot'. split; [done|].
        exists h. simpl in H5. rewrite <- Hp in H5.
        split; [done|]. split; [done|]. split; [done|].
        by apply getHandle_cached.
Qed.

Lemma getHandle_uncached_witness :
  let fs := create nested in
  _handles fs !! "/a/d/x" = None
  ∧ stat "/a/d/x" fs = (Throw (ApiError EINVAL "/a/d/x"), snd (getHandle "/a/d/x" fs))
  ∧ ∃ fs' h, getHandle "/a/d/x" fs = (Ok None, fs')
      ∧ _handles (settle_walks fs') !! "/a/d/x" = Some h
      ∧ loc h = ["a"; "d"; "x"] ∧ hkind h = KFile.
Proof.
  intros fs.
  assert (Hc : _handles fs !! "/a/d/x" = None) by reflexivity.
  destruct (getHandle_uncached "/a/d/x" fs Hc) as (_ & Hstat & Hwalk).
  destruct (Hwalk ["a"; "d"; "x"] (FileNode "1" 5) rootHandle)
    as (fs' & Hget & _ & _ & _ & h & Hh & Hl & Hk & _);
    [reflexivity|discriminate| |reflexivity|reflexivity|reflexivity|reflexivity
    |reflexivity|].
  { repeat constructor. }
  split; [exact Hc|]. split.
  - rewrite Hget. simpl. exact (proj1 (Hstat fs' Hget)).
  - exists fs', h. repeat split; assumption.
Defined.

(** ** The record of calls *)

Lemma keeps_ret {A} (a : A) : keeps_calls (ret a).
Proof. done. Qed.

Lemma keeps_throw {A} e : keeps_calls (@throw A e).
Proof. done. Qed.

Lemma keeps_lift {A} (r : result A) : keeps_calls (lift r).
Proof. done. Qed.

Lemma keeps_bind {A B} (m : M A) (k : A → M B) :
  keeps_calls m → (∀ a, keeps_calls (k a)) → keeps_calls (bind m k).
Proof.
  intros Hm Hk fs. unfold bind. specialize (Hm fs).
  destruct (m fs) as [[a|e] fs1]; simpl in *; [|done].
  by rewrite Hk.
Qed.

Lemma keeps_try_catch {A} (m : M A) (h : error → M A) :
  keeps_calls m → (∀ e, keeps_calls (h e)) → keeps_calls (try_catch m h).
Proof.
  intros Hm Hh fs. unfold try_catch. specialize (Hm fs).
  destruct (m fs) as [[a|e] fs1]; simpl in *; [done|].
  by rewrite Hh.
Qed.

Lemma keeps_browser {A} (f : DOM.t → result A * DOM.t) :
  keeps_calls (browser f).
Proof. intros fs. unfold browser. by destruct (f (dom fs)). Qed.

Lemma keeps_handles_get p : keeps_calls (handles_get p).
Proof. done. Qed.

Lemma keeps_handles_set p h : keeps_calls (handles_set p h).
Proof. done. Qed.

Lemma keeps_handleError {A} p e : keeps_calls (@handleError A p e).
Proof. unfold handleError. case_match; apply keeps_throw. Qed.

Lemma keeps_on_handle {A} m oh (f : FileSystemHandle → DOM.t → result A * DOM.t) :
  keeps_calls (on_handle m oh f).
Proof. destruct oh; [apply keeps_browser|apply keeps_throw]. Qed.

Lemma keeps_unawaited (begin : M task) :
  keeps_calls begin → keeps_calls (unawaited begin).
Proof.
  intros Hb fs. unfold unawaited. specialize (Hb fs).
  by destruct (begin fs) as [[tk|e] fs1].
Qed.

Lemma keeps_attempt {A} (m : M A) : keeps_calls m → keeps_calls (attempt m).
Proof.
  intros Hm fs. unfold attempt. specialize (Hm fs). by destruct (m fs).
Qed.

Create HintDb keeps.
#[local] Hint Resolve keeps_ret keeps_throw keeps_lift keeps_browser
  keeps_handles_get keeps_handles_set keeps_handleError keeps_on_handle : keeps.

Ltac keeps :=
  repeat first
    [ progress (auto with keeps)
    | apply keeps_bind; [|intros ?]
    | apply keeps_try_catch; [|intros ?]
    | apply keeps_unawaited
    | apply keeps_attempt
    | case_match ].

Lemma keeps_getHandleParts_begin w parts p :
  keeps_calls (getHandleParts_begin w parts p).
Proof. unfold getHandleParts_begin. keeps. Qed.

Lemma keeps_continueWalk tk h : keeps_calls (continueWalk tk h).
Proof.
  unfold continueWalk. keeps; apply keeps_getHandleParts_begin.
Qed.

Lemma keeps_getHandleParts_answer tk :
  keeps_calls (getHandleParts_answer tk).
Proof.
  unfold getHandleParts_answer. keeps; apply keeps_continueWalk.
Qed.

Lemma keeps_getHandleParts_retry tk : keeps_calls (getHandleParts_retry tk).
Proof.
  unfold getHandleParts_retry. keeps; apply keeps_continueWalk.
Qed.

Lemma keeps_getHandleParts_end tk : keeps_calls (getHandleParts_end tk).
Proof.
  unfold getHandleParts_end.
  keeps; (apply keeps_getHandleParts_answer || apply keeps_getHandleParts_retry).
Qed.

Lemma keeps_getHandle p : keeps_calls (getHandle p).
Proof.
  intros fs. unfold getHandle. destruct (_handles fs !! p); [done|].
  apply keeps_bind; [|intros ?; apply keeps_ret].
  unfold getHandleParts. apply keeps_bind; [|intros ?].
  - apply keeps_getHandleParts_begin.
  - apply keeps_getHandleParts_end.
Qed.

#[local] Hint Resolve keeps_getHandle : keeps.

Lemma keeps_readdir p : keeps_calls (readdir p).
Proof. unfold readdir. keeps. Qed.

Lemma keeps_mkdir p mode : keeps_calls (mkdir p mode).
Proof. unfold mkdir. keeps. Qed.

Lemma keeps_rename_directory_begin a b :
  keeps_calls (rename_directory_begin a b).
Proof.
  unfold rename_directory_begin. keeps; (apply keeps_readdir || apply keeps_mkdir).
Qed.

(** [unlink] is recorded once, whatever it does then. *)
Lemma unlink_calls p fs : calls (snd (unlink p fs)) = calls fs ++ [CallUnlink p].
Proof.
  unfold unlink, bind at 1, record. simpl.
  match goal with |- calls (snd (?m ?s)) = _ =>
    assert (Hk : keeps_calls m) by keeps; by rewrite (Hk s) end.
Qed.

Lemma handleError_throws {A} p e fs :
  ∃ e', @handleError A p e fs = (Throw e', fs).
Proof. unfold handleError, throw. case_match; by eexists. Qed.

Lemma rename_file_calls h a b fs :
  calls fs `prefix_of` calls (snd (rename_file h a b fs)).
Proof.
  unfold rename_file, bind.
  pose proof (keeps_browser (getFile h) fs) as H1.
  destruct (browser (getFile h) fs) as [[f|e] fs1]; simpl in *;
    [|by rewrite H1].
  pose proof (keeps_getHandle (dirname b) fs1) as H2.
  destruct (getHandle (dirname b) fs1) as [[[d|]|e] fs2]; simpl in *;
    [|by rewrite H2, H1..].
  destruct (hkind d); [simpl; by rewrite H2, H1|].
  pose proof (keeps_browser (getFileHandle d (basename b) true) fs2) as H3.
  destruct (browser (getFileHandle d (basename b) true) fs2) as [[nf|e] fs3];
    simpl in *; [|by rewrite H3, H2, H1].
  pose proof (keeps_browser (write nf (arrayBuffer f)) fs3) as H4.
  destruct (browser (write nf (arrayBuffer f)) fs3) as [[?|e] fs4];
    simpl in *; [|by rewrite H4, H3, H2, H1].
  rewrite unlink_calls, H4, H3, H2, H1. by apply prefix_app_r.
Qed.

Lemma rename_children_calls ren a b files :
  (∀ x y fs r fs', ren x y fs = Some (r, fs') →
     calls fs `prefix_of` calls fs') →
  ∀ fs r fs', rename_children ren a b files fs = Some (r, fs') →
    calls fs `prefix_of` calls fs'.
Proof.
  intros Hren. induction files as [|f files IH]; intros fs r fs'; simpl.
  - intros ?; by simplify_eq.
  - destruct (ren (join a f) (join b f) fs) as [[[[]|e] fs1]|] eqn:Hr;
      [|intros ?; simplify_eq; by eapply Hren|done].
    apply Hren in Hr. pose proof (unlink_calls a fs1) as Hu.
    destruct (unlink a fs1) as [[[]|e] fs2]; simpl in Hu.
    + intros H%IH. etrans; [exact Hr|]. etrans; [|exact H].
      rewrite Hu. by apply prefix_app_r.
    + intros ?; simplify_eq. etrans; [exact Hr|]. rewrite Hu. by apply prefix_app_r.
Qed.

(** The first thing a call of [rename] leaves in the record is itself. *)
Lemma rename_calls depth : ∀ a b fs r fs',
  rename depth a b fs = Some (r, fs') →
  ∃ l, calls fs' = calls fs ++ CallRename a b :: l.
Proof.
  induction depth as [|d IH]; [done|]. intros a b fs r fs'.
  assert (Hd : ∀ x y fs r fs', rename d x y fs = Some (r, fs') →
                 calls fs `prefix_of` calls fs').
  { intros x y fs0 r0 fs0' [l Hl]%IH. rewrite Hl. by apply prefix_app_r. }
  cbn [rename]. unfold bind at 1. unfold record at 1.
  set (fs0 := {| dom := dom fs; _handles := _handles fs;
                 detached := detached fs; unhandled := unhandled fs;
                 calls := calls fs ++ [CallRename a b] |}).
  assert (Hgoal : ∀ o : outcome, (∀ r0 fs1, o = Some (r0, fs1) →
                          calls fs0 `prefix_of` calls fs1) →
            match o with
            | Some (Ok _, fs1) => Some (Ok tt, fs1)
            | Some (Throw err, fs1) => Some (handleError a err fs1)
            | None => None
            end = Some (r, fs') →
            ∃ l, calls fs' = calls fs ++ CallRename a b :: l).
  { intros [[[[]|e] fs1]|] Ho; [| |done].
    - intros ?; simplify_eq. destruct (Ho _ _ eq_refl) as [l Hl].
      exists l. rewrite Hl. simpl. by rewrite <- app_assoc.
    - destruct (@handleError_throws unit a e fs1) as [e' ->].
      intros ?; simplify_eq. destruct (Ho _ _ eq_refl) as [l Hl].
      exists l. rewrite Hl. simpl. by rewrite <- app_assoc. }
  apply Hgoal. clear Hgoal. intros r0 fs1.
  pose proof (keeps_getHandle a fs0) as Hg.
  destruct (getHandle a fs0) as [[[h|]|e] fs2]; cbn [snd] in Hg;
    cbv beta iota; [|intros ?; simplify_eq; by rewrite Hg..].
  destruct (hkind h).
  - intros H; simplify_eq. rewrite <- Hg.
    pose proof (rename_file_calls h a b fs2) as Hf. by rewrite H in Hf.
  - pose proof (keeps_rename_directory_begin a b fs2) as Hb.
    destruct (rename_directory_begin a b fs2) as [[files|e] fs3];
      cbn [snd] in Hb; cbv beta iota;
      [|intros ?; simplify_eq; by rewrite Hb, Hg].
    destruct files as [|f files].
    + intros H; simplify_eq. pose proof (unlink_calls a fs3) as Hu.
      rewrite H in Hu. simpl in Hu. rewrite Hu, Hb, Hg. by apply prefix_app_r.
    + intros H. rewrite <- Hg, <- Hb.
      by eapply rename_children_calls in H.
Qed.

(** A larger bound on the nesting does not change what [rename] does. *)
Lemma rename_children_mono (ren ren' : string → string → t → outcome) a b files :
  (∀ x y fs o, ren x y fs = Some o → ren' x y fs = Some o) →
  ∀ fs o, rename_children ren a b files fs = Some o →
    rename_children ren' a b files fs = Some o.
Proof.
  intros Hren. induction files as [|f files IH]; intros fs o; simpl; [done|].
  destruct (ren (join a f) (join b f) fs) as [[[[]|e] fs1]|] eqn:Hr; [| |done].
  - rewrite (Hren _ _ _ _ Hr).
    destruct (unlink a fs1) as [[[]|e] fs2]; [apply IH|done].
  - by rewrite (Hren _ _ _ _ Hr).
Qed.

Lemma rename_mono depth : ∀ a b fs o,
  rename depth a b fs = Some o → rename (S depth) a b fs = Some o.
Proof.
  induction depth as [|d IH]; [done|]. intros a b fs o Hd.
  cbn [rename] in Hd. revert Hd.
  change (rename (S (S d)) a b fs) with
    (match
       match (record (CallRename a b);; getHandle a) fs with
       | (Throw e, fs1) => Some (Throw e, fs1)
       | (Ok None, fs1) => Some (Ok tt, fs1)
       | (Ok (Some handle), fs1) =>
         match hkind handle with
         | KDirectory =>
           match rename_directory_begin a b fs1 with
           | (Throw e, fs2) => Some (Throw e, fs2)
           | (Ok [], fs2) => Some (unlink a fs2)
           | (Ok files, fs2) => rename_children (rename (S d)) a b files fs2
           end
         | KFile => Some (rename_file handle a b fs1)
         end
       end
     with
     | None => None
     | Some (Ok _, fs') => Some (Ok tt, fs')
     | Some (Throw err, fs') => Some (handleError a err fs')
     end).
  destruct ((record (CallRename a b);; getHandle a) fs) as [[[h|]|e] fs1];
    [|done..].
  destruct (hkind h); [done|].
  destruct (rename_directory_begin a b fs1) as [[[|f files]|e] fs2]; [done| |done].
  destruct (rename_children (rename d) a b (f :: files) fs2) as [o'|] eqn:Hl;
    [|done].
  by rewrite (rename_children_mono _ _ _ _ _ IH _ _ Hl).
Qed.

Lemma rename_children_log depth a b files : ∀ fs fs',
  rename_children (rename depth) a b files fs = Some (Ok tt, fs') →
  ∃ log, calls fs' = calls fs ++ log
    ∧ loop_calls a b files `sublist_of` log
    ∧ replicate (length files) (CallUnlink a) `sublist_of` log.
Proof.
  induction files as [|f files IH]; intros fs fs'; simpl.
  - intros ?; simplify_eq. exists []. by rewrite app_nil_r.
  - destruct (rename depth (join a f) (join b f) fs) as [[[[]|e] fs1]|] eqn:Hr;
      [|done..].
    apply rename_calls in Hr as [l1 Hl1].
    pose proof (unlink_calls a fs1) as Hu.
    destruct (unlink a fs1) as [[[]|e] fs2]; simpl in Hu; [|done].
    intros (l2 & Hl2 & Hsub & Hrep)%IH.
    exists ((CallRename (join a f) (join b f) :: l1 ++ [CallUnlink a]) ++ l2).
    split; [|split].
    + rewrite Hl2, Hu, Hl1. simpl. by rewrite <- !app_assoc.
    + apply (sublist_app [CallRename (join a f) (join b f); CallUnlink a]
               (CallRename (join a f) (join b f) :: l1 ++ [CallUnlink a])
               (loop_calls a b files) l2); [|done].
      apply sublist_skip, sublist_inserts_l. done.
    + apply (sublist_app [CallUnlink a]
               (CallRename (join a f) (join b f) :: l1 ++ [CallUnlink a])
               (replicate (length files) (CallUnlink a)) l2); [|done].
      apply sublist_cons, sublist_inserts_l. done.
Qed.

(** C8. [rename] of a path whose cached handle is a directory with children
    runs the loop over the children. In the loop, whenever the [rename] of a
    child returns, [unlink] of the source directory itself is called in the
    state that this leaves, before the next child is looked at, and a throw
    of that [unlink] ends the loop. So when the loop returns, the record of
    calls has for every child, in order, the [rename] of the child and after
    it an [unlink] of the source: as many [unlink]s of the source as there are
    children. *)
Theorem rename_children_unlinks_source (depth : nat) (oldPath newPath : string) :
  (∀ fs handle file files fs0,
     _handles fs !! oldPath = Some handle → hkind handle = KDirectory →
     rename_directory_begin oldPath newPath
       (snd (record (CallRename oldPath newPath) fs)) = (Ok (file :: files), fs0) →
     rename (S depth) oldPath newPath fs =
       match rename_children (rename depth) oldPath newPath (file :: files) fs0 with
       | None => None
       | Some (Ok _, fs') => Some (Ok tt, fs')
       | Some (Throw err, fs') => Some (handleError oldPath err fs')
       end)
  ∧ (∀ file files fs fs1,
       rename depth (join oldPath file) (join newPath file) fs = Some (Ok tt, fs1) →
       calls (snd (unlink oldPath fs1)) = calls fs1 ++ [CallUnlink oldPath]
       ∧ rename_children (rename depth) oldPath newPath (file :: files) fs =
           match unlink oldPath fs1 with
           | (Ok _, fs2) =>
             rename_children (rename depth) oldPath newPath files fs2
           | (Throw e, fs2) => Some (Throw e, fs2)
           end)
  ∧ (∀ files fs fs',
       rename_children (rename depth) oldPath newPath files fs = Some (Ok tt, fs') →
       ∃ log, calls fs' = calls fs ++ log
         ∧ loop_calls oldPath newPath files `sublist_of` log
         ∧ replicate (length files) (CallUnlink oldPath) `sublist_of` log).
Proof.
  split; [|split].
  - intros fs handle file files fs0 Hc Hk Hbegin.
    cbn [rename]. unfold bind at 1. unfold record at 1.
    unfold record in Hbegin. cbn [snd] in Hbegin.
    rewrite (getHandle_cached oldPath _ handle) by done.
    cbv beta iota. by rewrite Hk, Hbegin.
  - intros file files fs fs1 Hr. split; [apply unlink_calls|].
    cbn [rename_children]. by rewrite Hr.
  - intros files fs fs'. apply rename_children_log.
Qed.

(** Over the directory with the children [x] and [y]: the loop is entered with
    both children; the [rename] of the first child returns (it looks for
    ['/a/d/a/d/x'], which is not in the cache), the [unlink] of ['/a/d'] that
    follows removes the directory with both files, and after the second child
    the second [unlink] of ['/a/d'] throws not-found. *)
Lemma rename_children_unlinks_source_witness :
  let fs := resolved_d two_children in
  let fs0 := at_loop two_children in
  ∃ handle fs1 fs' fs'',
    _handles fs !! "/a/d" = Some handle ∧ hkind handle = KDirectory
    ∧ rename_directory_begin "/a/d" "/a/e"
        (snd (record (CallRename "/a/d" "/a/e") fs))
      = (Ok ["/a/d/x"; "/a/d/y"], fs0)
    ∧ rename 1 (join "/a/d" "/a/d/x") (join "/a/e" "/a/d/x") fs0 = Some (Ok tt, fs1)
    ∧ unlink "/a/d" fs1 = (Ok tt, fs')
    ∧ root (dom fs') = DirNode [("a", DirNode [("e", DirNode [])])]
    ∧ rename 2 "/a/d" "/a/e" fs = Some (Throw (ApiError ENOENT "/a/d"), fs'')
    ∧ calls fs'' = [CallRename "/a/d" "/a/e";
                    CallRename "/a/d/a/d/x" "/a/e/a/d/x"; CallUnlink "/a/d";
                    CallRename "/a/d/a/d/y" "/a/e/a/d/y"; CallUnlink "/a/d"].
Proof.
  intros fs fs0.
  destruct (rename_children_unlinks_source 1 "/a/d" "/a/e") as (Hentry & Hstep & _).
  set (handle := {| hid := 2; hkind := KDirectory; loc := ["a"; "d"] |}).
  assert (Hc : _handles fs !! "/a/d" = Some handle)
    by (vm_compute; reflexivity).
  assert (Hbegin : rename_directory_begin "/a/d" "/a/e"
                     (snd (record (CallRename "/a/d" "/a/e") fs))
                   = (Ok ["/a/d/x"; "/a/d/y"], fs0))
    by (vm_compute; reflexivity).
  pose proof (Hentry fs handle "/a/d/x" ["/a/d/y"] fs0 Hc eq_refl Hbegin) as Hrun.
  set (fs1 := snd (default (Ok tt, fs0)
                     (rename 1 (join "/a/d" "/a/d/x") (join "/a/e" "/a/d/x") fs0))).
  assert (Hr : rename 1 (join "/a/d" "/a/d/x") (join "/a/e" "/a/d/x") fs0
               = Some (Ok tt, fs1)) by (vm_compute; reflexivity).
  destruct (Hstep "/a/d/x" ["/a/d/y"] fs0 fs1 Hr) as [_ Hloop].
  exists handle, fs1, (snd (unlink "/a/d" fs1)).
  eexists. split; [exact Hc|]. split; [reflexivity|]. split; [exact Hbegin|].
  split; [exact Hr|]. split; [vm_compute; reflexivity|].
  split; [vm_compute; reflexivity|].
  rewrite Hrun, Hloop. split; vm_compute; reflexivity.
Defined.

End FileSystemAccessFacts.

(** * More properties of the bridge *)

Module WorkerFSMore.

Import WorkerFS WorkerFSFacts.
Local Open Scope list_scope.

Lemma isRPCMessage_response i m v : isRPCMessage (response i m v) = Ok true.
Proof. done. Qed.

Lemma method_name_not_metadata m :
  strict_eq_str (JStr (method_name m)) "metadata" = false.
Proof. by destruct m. Qed.

(** X1. A call of a method of the bridge followed by the response for its id
    settles the promise that the call returned, rejected for an error object
    and fulfilled otherwise, and leaves all other promises as they were
    before the call. The id of the call is then out of the pending map, and
    the rest of the map is as before the call; while no more than 2^53
    requests have been sent the id is a new one, and the pending map is
    again what it was before the call. *)
Theorem call_then_response (m : public_method) (a : list jsval) (v : jsval)
    (fs : t) :
  reachable fs →
  let p := fst (invoke m a fs) in
  let fs1 := snd (invoke m a fs) in
  ∃ fs2,
    onmessage (response (_currentID fs) (method_name m) v) fs1 = (Ok tt, fs2)
    ∧ promises fs1 !! p = Some Pending
    ∧ promises fs2 !! p =
        Some (if is_error_object v then Rejected v else Fulfilled v)
    ∧ _requests fs2 = delete (_currentID fs) (_requests fs)
    ∧ (Z.of_nat (length (posted fs)) ≤ 2 ^ 53 → _requests fs2 = _requests fs)
    ∧ (∀ q, q ≠ p → promises fs2 !! q = promises fs !! q).
Proof.
  intros Hreach p fs1.
  pose proof (reachable_consistent _ Hreach) as Hc.
  assert (Hp : promises fs1 !! p = Some Pending).
  { unfold fs1, p, invoke. simpl. by rewrite lookup_app_r, Nat.sub_diag. }
  unfold onmessage. rewrite isRPCMessage_response.
  change (get_prop "method" (response (_currentID fs) (method_name m) v))
    with (JStr (method_name m)).
  rewrite method_name_not_metadata.
  change (get_prop "id" (response (_currentID fs) (method_name m) v))
    with (JNum (_currentID fs)).
  change (get_prop "value" (response (_currentID fs) (method_name m) v)) with v.
  unfold requests_get, requests_delete.
  assert (Hget : _requests fs1 !! _currentID fs = Some {| promise := p |}).
  { unfold fs1, invoke. simpl. by rewrite lookup_insert_eq. }
  rewrite Hget. eexists. split; [done|]. simpl.
  split; [done|]. split; [by apply settle_pending|].
  split; [by rewrite delete_insert_eq|]. split.
  - intros Hmax. rewrite delete_insert_eq. apply delete_id.
    destruct (_requests fs !! _currentID fs) as [req|] eqn:Hreq; [|done].
    destruct (pending_issued fs Hc _ _ Hreq) as (_ & Hlt & _).
    rewrite (id_counts fs Hc) in Hlt. lia.
  - intros q Hq. rewrite settle_other by done.
    destruct (decide (q < length (promises fs))%nat).
    + by rewrite lookup_app_l.
    + rewrite !lookup_ge_None_2; [done|lia|].
      rewrite length_app. simpl. unfold p, invoke in Hq. simpl in Hq. lia.
Qed.

Lemma call_then_response_witness :
  ∃ fs2,
    onmessage (response 1 "readdir" array_x) (snd (invoke readdir [JStr "/"] one_pending))
    = (Ok tt, fs2)
    ∧ promises fs2 !! 1%nat = Some (Fulfilled array_x)
    ∧ _requests fs2 = _requests one_pending.
Proof.
  assert (Hreach : reachable one_pending) by (eexists; reflexivity).
  destruct (call_then_response readdir [JStr "/"] array_x one_pending Hreach)
    as (fs2 & H1 & _ & H2 & _ & H3 & _).
  exists fs2. split; [exact H1|]. split; [exact H2|].
  apply H3. vm_compute. discriminate.
Defined.

(** X2. The responses for two different outstanding requests can arrive in
    either order: neither delivery throws, and the bridge ends in the same
    state. *)
Theorem responses_commute (d1 d2 : jsval) (i j : Z) (r1 r2 : WorkerRequest)
    (fs : t) :
  reachable fs →
  isRPCMessage d1 = Ok true → isRPCMessage d2 = Ok true →
  strict_eq_str (get_prop "method" d1) "metadata" = false →
  strict_eq_str (get_prop "method" d2) "metadata" = false →
  get_prop "id" d1 = JNum i → get_prop "id" d2 = JNum j → i ≠ j →
  _requests fs !! i = Some r1 → _requests fs !! j = Some r2 →
  fst (onmessage d1 fs) = Ok tt
  ∧ fst (onmessage d2 (snd (onmessage d1 fs))) = Ok tt
  ∧ fst (onmessage d2 fs) = Ok tt
  ∧ fst (onmessage d1 (snd (onmessage d2 fs))) = Ok tt
  ∧ run [Deliver d1; Deliver d2] fs = run [Deliver d2; Deliver d1] fs.
Proof.
  intros Hreach H1 H2 Hm1 Hm2 Hi Hj Hij Hr1 Hr2.
  pose proof (reachable_consistent _ Hreach) as Hc.
  destruct (pending_issued fs Hc _ _ Hr1) as (_ & _ & Hpend1).
  destruct (pending_issued fs Hc _ _ Hr2) as (_ & _ & Hpend2).
  pose proof (pending_distinct fs Hc i j r1 r2 Hij Hr1 Hr2) as Hpp.
  unfold run. simpl. unfold onmessage.
  rewrite H1, H2, Hm1, Hm2, Hi, Hj. unfold requests_get, requests_delete.
  rewrite Hr1, Hr2. simpl.
  rewrite !lookup_delete_ne by done. rewrite Hr1, Hr2. simpl.
  do 4 (split; [done|]).
  f_equal; [apply delete_delete|].
  unfold settle. rewrite Hpend1, Hpend2.
  rewrite !list_lookup_insert_ne by done. rewrite Hpend1, Hpend2.
  by apply list_insert_insert_ne.
Qed.

Lemma responses_commute_witness :
  run [Deliver (response 0 "stat" JNull); Deliver (response 1 "readdir" array_x)]
    two_pending
  = run [Deliver (response 1 "readdir" array_x); Deliver (response 0 "stat" JNull)]
      two_pending.
Proof.
  assert (Hreach : reachable two_pending) by (eexists; reflexivity).
  refine (proj2 (proj2 (proj2 (proj2
    (responses_commute (response 0 "stat" JNull) (response 1 "readdir" array_x)
       0 1 {| promise := 0 |} {| promise := 1 |} two_pending Hreach
       eq_refl eq_refl eq_refl eq_refl eq_refl eq_refl _ eq_refl eq_refl))))).
  discriminate.
Defined.

(** X4. A request with an id below 2^53 whose id no delivered message
    carries stays in the pending map and its promise stays unsettled, however
    long the run and however many calls it makes: nothing but the response
    ends such a request. *)
Theorem unanswered_stays_pending (evs : list event) (fs : t) (i : Z)
    (req : WorkerRequest) :
  reachable fs → _requests fs !! i = Some req → i < 2 ^ 53 →
  Forall (λ ev, ∀ d, ev = Deliver d → get_prop "id" d ≠ JNum i) evs →
  _requests (run evs fs) !! i = Some req
  ∧ promises (run evs fs) !! promise req = Some Pending.
Proof.
  intros Hreach Hreq Hi Hevs.
  pose proof (reachable_consistent _ Hreach) as Hc.
  assert (Hrun : _requests (run evs fs) !! i = Some req).
  { clear Hreach. unfold run. revert fs Hc Hreq.
    induction Hevs as [|ev evs Hev Hevs IH]; intros fs Hc Hreq; simpl; [done|].
    apply IH; [by apply consistent_step|].
    destruct (pending_issued fs Hc _ _ Hreq) as (_ & Hlt & _).
    destruct ev as [m a|d]; simpl.
    - rewrite lookup_insert_ne; [done|]. rewrite (id_counts fs Hc). lia.
    - unfold onmessage. destruct (isRPCMessage d) as [[|]|]; simpl; try done.
      destruct (strict_eq_str _ _); simpl; [done|].
      destruct (requests_get _ fs) as [r|]; simpl; [|done].
      unfold requests_delete. specialize (Hev d eq_refl).
      destruct (get_prop "id" d) as [| | |n| | |]; try done.
      rewrite lookup_delete_ne; [done|congruence]. }
  split; [done|].
  assert (Hc' : consistent (run evs fs)) by by apply consistent_run.
  by destruct (pending_issued _ Hc' _ _ Hrun) as (_ & _ & Hpend).
Qed.

Lemma unanswered_stays_pending_witness :
  let evs := [Deliver (response 1 "readdir" array_x); Deliver JNull;
              Call "stat" []; Deliver (response 5 "stat" JNull)] in
  _requests (run evs two_pending) !! 0 = Some {| promise := 0 |}
  ∧ promises (run evs two_pending) !! 0%nat = Some Pending.
Proof.
  intros evs.
  assert (Hreach : reachable two_pending) by (eexists; reflexivity).
  apply (unanswered_stays_pending evs two_pending 0 {| promise := 0 |} Hreach);
    [reflexivity|vm_compute; reflexivity|].
  repeat constructor; intros d [= <-]; discriminate.
Defined.

(** X5. After a run the bridge is initialised exactly when it was before or the
    run delivered a metadata announcement, and the stored metadata is the
    value of the last announcement of the run, or what it was when there was
    none. *)
Theorem metadata_is_last_announcement (evs : list event) (fs : t) :
  _isInitialized (run evs fs)
  = _isInitialized fs || bool_decide (announcements evs ≠ [])
  ∧ _metadata (run evs fs) = default (_metadata fs) (last (announcements evs)).
Proof.
  unfold run. revert fs. induction evs as [|ev evs IH]; intros fs; simpl.
  - by rewrite orb_false_r.
  - destruct (IH (step fs ev)) as [-> ->]. unfold announcements. simpl.
    destruct ev as [m a|d]; simpl; [done|].
    unfold is_announcement, onmessage.
    destruct (isRPCMessage d) as [[|]|]; simpl; try done.
    destruct (strict_eq_str _ _); simpl.
    + rewrite last_cons. split; [by rewrite orb_true_r|].
      by destruct (last _).
    + by destruct (requests_get _ fs).
Qed.

Lemma assoc_obj_set k v k' fields :
  assoc k' (obj_set k v fields)
  = if String.eqb k k' then Some v else assoc k' fields.
Proof.
  induction fields as [|[k0 v0] fields IH]; simpl.
  - by rewrite (String.eqb_sym k' k).
  - destruct (String.eqb k k0) eqn:Hk0; simpl.
    + apply String.eqb_eq in Hk0 as ->.
      rewrite (String.eqb_sym k' k0). by destruct (String.eqb k0 k').
    + rewrite IH. destruct (String.eqb k' k0) eqn:Hk'; [|done].
      apply String.eqb_eq in Hk' as ->. by rewrite Hk0.
Qed.

Lemma assoc_spread_other k source target :
  k ∉ (own_properties source).*1 →
  assoc k (spread target source) = assoc k target.
Proof.
  unfold spread. generalize (own_properties source). intros l. revert target.
  induction l as [|[k0 v0] l IH]; intros target Hk; simpl; [done|].
  apply not_elem_of_cons in Hk as [Hne Hk]. rewrite IH by done.
  rewrite assoc_obj_set. simpl in Hne.
  by rewrite (proj2 (String.eqb_neq k0 k)).
Qed.

Lemma assoc_spread k v source target :
  NoDup (own_properties source).*1 →
  assoc k (own_properties source) = Some v →
  assoc k (spread target source) = Some v.
Proof.
  unfold spread. generalize (own_properties source). intros l. revert target.
  induction l as [|[k0 v0] l IH]; intros target Hnd; simpl; [done|].
  apply NoDup_cons in Hnd as [Hk0 Hnd].
  destruct (String.eqb k k0) eqn:Hk.
  - apply String.eqb_eq in Hk as ->. intros [= ->].
    pose proof (assoc_spread_other k0 (JObj ClsObject l)
                  (obj_set k0 v target) Hk0) as Hother.
    unfold spread in Hother. simpl in Hother. rewrite Hother.
    by rewrite assoc_obj_set, String.eqb_refl.
  - intros Hl. by apply IH.
Qed.

(** X6. Whatever the file system behind the bridge announces and whatever the
    base class reports, the metadata of the bridge has the name ['WorkerFS']
    and [synchronous: false]; every other property that the announcement
    has (its keys being distinct, as in any object) is passed through. *)
Theorem metadata_name_synchronous (super_metadata : jsval) (fs : t) :
  get_prop "name" (metadata super_metadata fs) = JStr "WorkerFS"
  ∧ get_prop "synchronous" (metadata super_metadata fs) = JBool false
  ∧ (∀ k v, k ≠ "name" → k ≠ "synchronous" →
       NoDup (own_properties (_metadata fs)).*1 →
       assoc k (own_properties (_metadata fs)) = Some v →
       get_prop k (metadata super_metadata fs) = v).
Proof.
  unfold metadata, get_prop. split; [|split].
  - by rewrite !assoc_obj_set.
  - by rewrite !assoc_obj_set.
  - intros k v Hn Hs Hnd Hk. rewrite !assoc_obj_set.
    rewrite (proj2 (String.eqb_neq "synchronous" k)) by done.
    rewrite (proj2 (String.eqb_neq "name" k)) by done.
    by rewrite (assoc_spread k v _ _ Hnd Hk).
Qed.

Lemma metadata_name_synchronous_witness :
  let remote := JObj ClsObject [("name", JStr "InMemory");
                                ("synchronous", JBool true);
                                ("readonly", JBool true)] in
  let fs := run [Deliver (response 0 "metadata" remote)] init in
  let super := JObj ClsObject [("name", JStr "Base"); ("readonly", JBool false)] in
  get_prop "name" (metadata super fs) = JStr "WorkerFS"
  ∧ get_prop "synchronous" (metadata super fs) = JBool false
  ∧ get_prop "readonly" (metadata super fs) = JBool true.
Proof.
  intros remote fs super.
  destruct (metadata_name_synchronous super fs) as (H1 & H2 & H3).
  split; [exact H1|]. split; [exact H2|].
  apply H3; [discriminate|discriminate| |reflexivity].
  simpl.
  repeat (apply NoDup_cons_2;
          [rewrite ?not_elem_of_cons, elem_of_nil; naive_solver|]).
  apply NoDup_nil_2.
Defined.

End WorkerFSMore.

(** * More properties of the resolver *)

Module FileSystemAccessMore.

Import DOM FileSystemAccessFileSystem PathFacts FileSystemAccessFacts.
Local Open Scope list_scope.

(** ** What is kept by every step *)

Section Preserves.

Variable P : t → Prop.

Lemma preserves_ret {A} (a : A) : preserves P (ret a).
Proof. by intros fs. Qed.

Lemma preserves_throw {A} e : preserves P (@throw A e).
Proof. by intros fs. Qed.

Lemma preserves_lift {A} (r : result A) : preserves P (lift r).
Proof. by intros fs. Qed.

Lemma preserves_handles_get p : preserves P (handles_get p).
Proof. by intros fs. Qed.

Lemma preserves_handleError {A} p e : preserves P (@handleError A p e).
Proof. unfold handleError. case_match; apply preserves_throw. Qed.

Lemma preserves_attempt {A} (m : M A) : preserves P m → preserves P (attempt m).
Proof.
  intros Hm fs HP. unfold attempt. specialize (Hm fs HP). by destruct (m fs).
Qed.

Lemma preserves_bind {A B} (m : M A) (k : A → M B) :
  preserves P m → (∀ a, preserves P (k a)) → preserves P (bind m k).
Proof.
  intros Hm Hk fs HP. unfold bind. specialize (Hm fs HP).
  destruct (m fs) as [[a|e] fs1]; simpl in *; [|done]. by apply Hk.
Qed.

Lemma preserves_try_catch {A} (m : M A) (h : error → M A) :
  preserves P m → (∀ e, preserves P (h e)) → preserves P (try_catch m h).
Proof.
  intros Hm Hh fs HP. unfold try_catch. specialize (Hm fs HP).
  destruct (m fs) as [[a|e] fs1]; simpl in *; [done|]. by apply Hh.
Qed.

(** [rename] keeps what all the methods it is made of keep. *)
Lemma preserves_rename :
  (∀ c, preserves P (record c)) →
  (∀ p, preserves P (getHandle p)) →
  (∀ a b, preserves P (rename_directory_begin a b)) →
  (∀ p, preserves P (unlink p)) →
  (∀ h a b, preserves P (rename_file h a b)) →
  ∀ depth a b fs o, P fs → rename depth a b fs = Some o → P (snd o).
Proof.
  intros Hrec Hget Hbegin Hunlink Hfile.
  induction depth as [|d IH]; [done|]. intros a b fs o HP.
  assert (Hloop : ∀ files fs o, P fs →
            rename_children (rename d) a b files fs = Some o → P (snd o)).
  { induction files as [|f files IHf]; intros fs0 o0 HP0; simpl.
    - by intros [= <-].
    - destruct (rename d (join a f) (join b f) fs0) as [[[[]|e] fs1]|] eqn:Hr;
        [| |done].
      + pose proof (IH _ _ _ _ HP0 Hr) as HP1. simpl in HP1.
        pose proof (Hunlink a fs1 HP1) as HP2.
        destruct (unlink a fs1) as [[[]|e] fs2]; simpl in HP2.
        * by apply IHf.
        * by intros [= <-].
      + intros [= <-]. by apply (IH _ _ _ _ HP0 Hr). }
  cbn [rename].
  pose proof (preserves_bind _ _ (Hrec (CallRename a b))
                (λ _, Hget a) fs HP) as HP1.
  destruct ((record (CallRename a b);; getHandle a) fs) as [[[h|]|e] fs1];
    simpl in HP1.
  - destruct (hkind h).
    + pose proof (Hfile h a b fs1 HP1) as HP2.
      destruct (rename_file h a b fs1) as [[[]|e] fs2]; simpl in HP2.
      * by intros [= <-].
      * destruct (@handleError_throws unit a e fs2) as [e' ->].
        by intros [= <-].
    + pose proof (Hbegin a b fs1 HP1) as HP2.
      destruct (rename_directory_begin a b fs1) as [[[|f files]|e] fs2];
        simpl in HP2.
      * pose proof (Hunlink a fs2 HP2) as HP3.
        destruct (unlink a fs2) as [[[]|e] fs3]; simpl in HP3.
        -- by intros [= <-].
        -- destruct (@handleError_throws unit a e fs3) as [e' ->].
           by intros [= <-].
      * destruct (rename_children (rename d) a b (f :: files) fs2)
          as [[[[]|e] fs3]|] eqn:Hl; [| |done].
        -- intros [= <-]. by apply (Hloop _ _ _ HP2 Hl).
        -- destruct (@handleError_throws unit a e fs3) as [e' ->].
           intros [= <-]. by apply (Hloop _ _ _ HP2 Hl).
      * destruct (@handleError_throws unit a e fs2) as [e' ->].
        by intros [= <-].
  - by intros [= <-].
  - destruct (@handleError_throws unit a e fs1) as [e' ->]. by intros [= <-].
Qed.

End Preserves.

Create HintDb pres.
#[local] Hint Resolve preserves_ret preserves_throw preserves_lift
  preserves_handles_get preserves_handleError : pres.

Ltac pres :=
  repeat first
    [ progress (auto with pres)
    | apply preserves_bind; [|intros ?]
    | apply preserves_try_catch; [|intros ?]
    | apply preserves_attempt
    | case_match ].

(** The walk keeps [P] when setting a cache entry and the two requests of
    the walk keep it and [P] does not look at the walks under way or at the
    unhandled errors. *)
Section Walk.

Variable P : t → Prop.
Hypothesis Hset : ∀ p h, preserves P (handles_set p h).
Hypothesis Hdir : ∀ h n, preserves P (browser (getDirectoryHandle h n false)).
Hypothesis Hfile : ∀ h n, preserves P (browser (getFileHandle h n false)).
Hypothesis Hplain : ∀ fs l u,
  P fs → P {| dom := dom fs; _handles := _handles fs; detached := l;
              unhandled := u; calls := calls fs |}.

Lemma walk_on_handle {A} m oh (f : FileSystemHandle → DOM.t → result A * DOM.t) :
  (∀ h, preserves P (browser (f h))) → preserves P (on_handle m oh f).
Proof. intros Hf. destruct oh; [apply Hf|apply preserves_throw]. Qed.

Local Hint Resolve Hset Hdir Hfile walk_on_handle : pres.

Lemma walk_begin w parts p : preserves P (getHandleParts_begin w parts p).
Proof. unfold getHandleParts_begin. pres. Qed.

Lemma walk_unawaited begin : preserves P begin → preserves P (unawaited begin).
Proof.
  intros Hb fs HP. unfold unawaited. specialize (Hb fs HP).
  destruct (begin fs) as [[tk|e] fs1]; simpl in *; by apply Hplain.
Qed.

Local Hint Resolve walk_begin walk_unawaited : pres.

Lemma walk_continue tk h : preserves P (continueWalk tk h).
Proof. unfold continueWalk. pres. Qed.

Local Hint Resolve walk_continue : pres.

Lemma walk_answer tk : preserves P (getHandleParts_answer tk).
Proof. unfold getHandleParts_answer. pres. Qed.

Lemma walk_retry tk : preserves P (getHandleParts_retry tk).
Proof. unfold getHandleParts_retry. pres. Qed.

Local Hint Resolve walk_answer walk_retry : pres.

Lemma walk_end tk : preserves P (getHandleParts_end tk).
Proof. unfold getHandleParts_end. pres. Qed.

Lemma walk_getHandle p : preserves P (getHandle p).
Proof.
  intros fs HP. unfold getHandle. destruct (_handles fs !! p); [done|].
  revert fs HP. apply preserves_bind; [|intros ?; apply preserves_ret].
  unfold getHandleParts. apply preserves_bind; [apply walk_begin|].
  intros tk. apply walk_end.
Qed.

Lemma walk_run_detached fs : P fs → P (run_detached fs).
Proof.
  intros HP. unfold run_detached. destruct (detached fs) as [|tk rest]; [done|].
  pose proof (Hplain fs rest (unhandled fs) HP) as HP0.
  destruct (fallback tk).
  - pose proof (walk_retry tk _ HP0) as HP1.
    destruct (getHandleParts_retry tk _) as [[v|e] fs1]; simpl in HP1; [done|].
    by apply (Hplain _ _ _ HP1).
  - pose proof (walk_answer tk _ HP0) as HP1.
    destruct (getHandleParts_answer tk _) as [[[v|tk']|e] fs1]; simpl in HP1;
      [done|by apply (Hplain _ _ _ HP1)..].
Qed.

End Walk.

(** All the operations keep [P] when [getHandle], the event loop, the record
    of calls and every request to the browser keep it. *)
Section Operations.

Variable P : t → Prop.
Hypothesis Hget : ∀ p, preserves P (getHandle p).
Hypothesis Hbrowser : ∀ A (f : DOM.t → result A * DOM.t), preserves P (browser f).
Hypothesis Hrecord : ∀ c, preserves P (record c).
Hypothesis Hresume : ∀ fs, P fs → P (run_detached fs).

Local Hint Resolve Hget Hbrowser Hrecord : pres.

Lemma all_stat p : preserves P (stat p).
Proof. unfold stat. pres. Qed.

Lemma all_exists p : preserves P (exists_ p).
Proof. unfold exists_. pres. Qed.

Lemma all_readdir p : preserves P (readdir p).
Proof. unfold readdir. pres. Qed.

Lemma all_newFile p f d s l : preserves P (newFile p f d s l).
Proof. by intros fs. Qed.

Local Hint Resolve all_newFile : pres.

Lemma all_openFile p f : preserves P (openFile p f).
Proof. unfold openFile. pres. Qed.

Lemma all_mkdir p mode : preserves P (mkdir p mode).
Proof. unfold mkdir. pres. Qed.

Lemma all_unlink p : preserves P (unlink p).
Proof. unfold unlink. pres. Qed.

Lemma all_writeFile p data : preserves P (writeFile p data).
Proof. unfold writeFile. pres. Qed.

Local Hint Resolve all_readdir all_mkdir all_unlink all_writeFile
  all_openFile : pres.

Lemma all_createFile p f : preserves P (createFile p f).
Proof. unfold createFile. pres. Qed.

Lemma all_rename_file h a b : preserves P (rename_file h a b).
Proof. unfold rename_file. pres. Qed.

Lemma all_rename_directory_begin a b : preserves P (rename_directory_begin a b).
Proof. unfold rename_directory_begin. pres. Qed.

Lemma all_perform o fs fs' : P fs → perform o fs = Some fs' → P fs'.
Proof.
  intros HP. destruct o; simpl; try (intros [= <-]).
  - by apply all_stat.
  - by apply all_exists.
  - by apply all_readdir.
  - by apply all_openFile.
  - by apply all_mkdir.
  - by apply all_unlink.
  - by apply all_unlink.
  - by apply all_writeFile.
  - by apply all_createFile.
  - destruct (rename depth oldPath newPath fs) as [out|] eqn:Hr; [|done].
    intros [= <-].
    eapply (preserves_rename P); eauto using all_rename_directory_begin,
      all_unlink, all_rename_file.
  - by apply Hresume.
Qed.

Lemma all_perform_all ops : ∀ fs fs',
  P fs → perform_all ops fs = Some fs' → P fs'.
Proof.
  induction ops as [|o ops IH]; intros fs fs' HP; simpl.
  - by intros [= <-].
  - destruct (perform o fs) as [fs1|] eqn:Ho; [|done].
    apply IH. by eapply all_perform.
Qed.

End Operations.

(** ** The cache only grows *)

Lemma cached_walk p0 p :
  preserves (λ fs, is_Some (_handles fs !! p0)) (getHandle p).
Proof.
  apply walk_getHandle.
  - intros q h fs. simpl. rewrite lookup_insert. case_decide; eauto.
  - intros h n fs. unfold browser. by destruct (getDirectoryHandle _ _ _ _).
  - intros h n fs. unfold browser. by destruct (getFileHandle _ _ _ _).
  - done.
Qed.

Lemma cached_resume p0 fs :
  is_Some (_handles fs !! p0) → is_Some (_handles (run_detached fs) !! p0).
Proof.
  apply (walk_run_detached (λ fs, is_Some (_handles fs !! p0))).
  - intros q h fs0. simpl. rewrite lookup_insert. case_decide; eauto.
  - intros h n fs0. unfold browser. by destruct (getDirectoryHandle _ _ _ _).
  - intros h n fs0. unfold browser. by destruct (getFileHandle _ _ _ _).
  - done.
Qed.

(** X7. No operation and no step of the event loop takes a path out of the
    cache: a path that is cached stays cached through every sequence of
    operations, whether they return or throw. *)
Theorem cache_only_grows (ops : list operation) (fs fs' : t) (path : string) :
  perform_all ops fs = Some fs' →
  is_Some (_handles fs !! path) → is_Some (_handles fs' !! path).
Proof.
  intros Hops Hc.
  refine (all_perform_all (λ fs, is_Some (_handles fs !! path))
            _ _ _ _ ops fs fs' Hc Hops).
  - apply cached_walk.
  - intros A f fs0. unfold browser. by destruct (f (dom fs0)).
  - by intros c fs0.
  - apply cached_resume.
Qed.

Lemma cache_only_grows_witness :
  let ops := [OpStat "/a/d"; OpResume; OpRename 2 "/a/d" "/a/e"; OpResume;
              OpStat "/a/d/x"] in
  ∃ fs', perform_all ops (create two_children) = Some fs'
    ∧ find (root (dom fs')) ["a"; "d"] = None
    ∧ is_Some (_handles fs' !! "/a/d").
Proof.
  intros ops.
  set (fs1 := default (create two_children)
                (perform_all [OpStat "/a/d"; OpResume] (create two_children))).
  set (rest := [OpRename 2 "/a/d" "/a/e"; OpResume; OpStat "/a/d/x"]).
  set (fs' := default fs1 (perform_all rest fs1)).
  assert (Hrun : perform_all rest fs1 = Some fs') by (vm_compute; reflexivity).
  exists fs'. split; [vm_compute; reflexivity|].
  split; [vm_compute; reflexivity|].
  apply (cache_only_grows rest fs1 fs' "/a/d" Hrun). by eexists.
Defined.

(** ** Looking does not change the tree *)

Lemma browser_root {A} (f : DOM.t → result A * DOM.t) r :
  (∀ d, root (snd (f d)) = root d) →
  preserves (λ fs, root (dom fs) = r) (browser f).
Proof.
  intros Hf fs <-. unfold browser. specialize (Hf (dom fs)).
  by destruct (f (dom fs)).
Qed.

Lemma getFile_root h d : root (snd (getFile h d)) = root d.
Proof. unfold getFile. by repeat case_match. Qed.

Lemma keys_root h d : root (snd (keys h d)) = root d.
Proof. unfold keys. by repeat case_match. Qed.

Section Looking.

Variable r : node.
Let P := λ fs : t, root (dom fs) = r.

Lemma looking_getHandle p : preserves P (getHandle p).
Proof.
  refine (walk_getHandle P _ _ _ _ p).
  - by intros q h fs.
  - intros h n. apply browser_root, getDirectoryHandle_root.
  - intros h n. apply browser_root, getFileHandle_root.
  - by intros fs l u.
Qed.

Lemma looking_resume fs : P fs → P (run_detached fs).
Proof.
  refine (walk_run_detached P _ _ _ _ fs).
  - by intros q h fs0.
  - intros h n. apply browser_root, getDirectoryHandle_root.
  - intros h n. apply browser_root, getFileHandle_root.
  - by intros fs0 l u.
Qed.

Lemma looking_getFile h : preserves P (browser (getFile h)).
Proof. apply browser_root, getFile_root. Qed.

Lemma looking_keys h : preserves P (browser (keys h)).
Proof. apply browser_root, keys_root. Qed.

Local Hint Resolve looking_getHandle looking_getFile looking_keys : pres.

Lemma looking_perform o fs :
  read_only o = true → P fs → ∃ fs', perform o fs = Some fs' ∧ P fs'.
Proof.
  intros Ho HP. destruct o; try done; simpl; eexists; (split; [done|]);
    revert fs HP.
  - change (preserves P (stat path)). unfold stat. pres.
  - change (preserves P (exists_ p)). unfold exists_. pres.
  - change (preserves P (readdir path)). unfold readdir. pres.
  - change (preserves P (openFile path flags)). unfold openFile. pres.
    by intros fs.
  - apply looking_resume.
Qed.

End Looking.

(** X8. The operations that look, [stat], [exists], [readdir], [openFile], and
    the steps of the event loop, always finish and never change the tree
    behind the root handle, in any sequence and whether they return or
    throw. *)
Theorem looking_keeps_tree (ops : list operation) (fs : t) :
  forallb read_only ops = true →
  ∃ fs', perform_all ops fs = Some fs' ∧ root (dom fs') = root (dom fs).
Proof.
  revert fs. induction ops as [|o ops IH]; intros fs; simpl.
  - by exists fs.
  - intros [Ho Hops]%andb_true_iff.
    destruct (looking_perform (root (dom fs)) o fs Ho eq_refl)
      as (fs1 & -> & H1).
    destruct (IH fs1 Hops) as (fs' & Hrun & H'). exists fs'.
    split; [done|]. by rewrite H'.
Qed.

Lemma looking_keeps_tree_witness :
  let ops := [OpStat "/a/d/x"; OpResume; OpExists "/nowhere";
              OpReaddir "/a"; OpOpenFile "/a/d/x" JUndefined; OpResume] in
  ∃ fs', perform_all ops (create nested) = Some fs'
    ∧ root (dom fs') = nested.
Proof.
  intros ops.
  exact (looking_keeps_tree ops (create nested) eq_refl).
Defined.

(** ** The cache is coherent *)

Lemma absolute_snoc_not_root l x :
  Forall allowed (l ++ [x]) → absolute (l ++ [x]) ≠ "/".
Proof.
  intros Hall. destruct (l ++ [x]) as [|n rest] eqn:Hl; [by destruct l|].
  apply Forall_cons in Hall as [Hn _]. unfold absolute.
  pose proof (join_segs_nonempty n rest Hn) as Hne.
  destruct (join_segs (n :: rest)); [done|]. by rewrite append_cons.
Qed.

Lemma coherent_ext fs fs' :
  _handles fs' = _handles fs → detached fs' = detached fs →
  rooted fs → rooted fs'.
Proof.
  intros Hh Hd [[H1 H2] H3]. split; [split|]; by rewrite ?Hh, ?Hd.
Qed.

Lemma rooted_browser {A} (f : DOM.t → result A * DOM.t) :
  preserves rooted (browser f).
Proof.
  intros fs. unfold browser. destruct (f (dom fs)). by apply coherent_ext.
Qed.

(** A request of the walk changes neither the cache nor the walks under
    way, and a handle it returns is for the entry asked for. *)
Lemma request_frame (dir : bool) oh part fs :
  let m := on_handle (if dir then "getDirectoryHandle" else "getFileHandle") oh
             (λ h, if dir then getDirectoryHandle h part false
                   else getFileHandle h part false) in
  _handles (snd (m fs)) = _handles fs ∧ detached (snd (m fs)) = detached fs
  ∧ ∀ h', fst (m fs) = Ok h' →
      ∃ h, oh = Some h ∧ loc h' = loc h ++ [part] ∧ allowed part.
Proof.
  cbv zeta. unfold on_handle. destruct oh as [h|]; [|by repeat split].
  unfold browser.
  assert (Hok : ∀ h' d', (if dir then getDirectoryHandle h part false
                          else getFileHandle h part false) (dom fs)
                         = (Ok h', d') →
                loc h' = loc h ++ [part] ∧ allowed part).
  { intros h' d' Hg. destruct dir.
    - by apply getDirectoryHandle_Ok in Hg as (? & ? & _).
    - by apply getFileHandle_Ok in Hg as (? & ? & _). }
  destruct ((if dir then _ else _) (dom fs)) as [[h''|e] d1]; simpl;
    [|by repeat split].
  split; [done|]. split; [done|]. intros h' [= ->].
  destruct (Hok h' d1 eq_refl). by exists h.
Qed.

Lemma coherent_task_intro tk :
  (∀ h, handle tk = Some h → allowed (pathPart tk) →
     names_entry (walkingPath tk) (loc h ++ [pathPart tk])) →
  (∀ h', response tk = Ok h' →
     ∃ h, handle tk = Some h ∧ loc h' = loc h ++ [pathPart tk]
          ∧ allowed (pathPart tk)) →
  coherent_task tk.
Proof.
  intros HA HB. split; [done|]. intros h' (h & Hh & Hl & Hal)%HB.
  destruct (HA h Hh Hal) as [Hw Hall]. rewrite Hl. split; [done|].
  rewrite Hw. by apply absolute_snoc_not_root.
Qed.

Lemma rooted_begin w parts p fs tk fs' :
  rooted fs → getHandleParts_begin w parts p fs = (Ok tk, fs') →
  _handles fs' = _handles fs ∧ detached fs' = detached fs ∧ coherent_task tk.
Proof.
  intros [[Hh _] _]. unfold getHandleParts_begin.
  destruct parts as [|part rest]; [done|].
  unfold bind at 1, handles_get. unfold bind, attempt, ret.
  destruct (request_frame true (_handles fs !! w) part fs) as (H1 & H2 & H3).
  cbv zeta in *.
  destruct (on_handle _ _ _ fs) as [r fs1]. simpl in H1, H2, H3.
  intros [= <- <-]. split; [done|]. split; [done|].
  apply coherent_task_intro; simpl.
  - intros h Hw Hpart. destruct (Hh _ _ Hw) as [-> Hall]. split.
    + by apply join_absolute.
    + apply Forall_app. split; [done|by constructor].
  - intros h' ->. by apply H3.
Qed.

Lemma rooted_continueWalk tk h fs :
  rooted fs → names_entry (walkingPath tk) (loc h) →
  walkingPath tk ≠ "/" → rooted (snd (continueWalk tk h fs)).
Proof.
  intros [[Hh Hd] Hroot] Hname Hne.
  assert (Hset : rooted (snd (handles_set (walkingPath tk) h fs))).
  { split; [split|]; simpl; try done.
    - intros q hq. rewrite lookup_insert. case_decide; [|by apply Hh].
      intros [= <-]. by subst q.
    - by rewrite lookup_insert_ne. }
  unfold continueWalk, bind at 1.
  destruct (handles_set (walkingPath tk) h fs) as [[[]|e] fs1] eqn:Hs;
    [|done].
  simpl in Hset. destruct (remainingPathParts tk) as [|r1 rest]; [done|].
  unfold bind, unawaited.
  destruct (getHandleParts_begin (walkingPath tk) (r1 :: rest) (target tk) fs1)
    as [[tk'|e] fs2] eqn:Hb.
  - apply (rooted_begin _ _ _ _ _ _ Hset) in Hb as (Hh2 & Hd2 & Hk).
    destruct Hset as [[Hh1 Hd1] Hroot1]. simpl.
    split; [split|]; simpl; rewrite ?Hh2, ?Hd2; try done.
    apply Forall_app. split; [done|by constructor].
  - revert Hb. unfold getHandleParts_begin, bind at 1, handles_get.
    unfold bind, attempt, ret. by destruct (on_handle _ _ _ fs1).
Qed.

Lemma rooted_retry tk :
  coherent_task tk → preserves rooted (getHandleParts_retry tk).
Proof.
  intros [_ Htk] fs HP. unfold getHandleParts_retry.
  destruct (response tk) as [h|e] eqn:Hr.
  - destruct (Htk h eq_refl). by apply rooted_continueWalk.
  - by apply preserves_handleError.
Qed.

(** The answer to the first request: the instance stays coherent, and so is
    the call when it waits again. *)
Lemma rooted_answer tk fs :
  coherent_task tk → rooted fs →
  rooted (snd (getHandleParts_answer tk fs))
  ∧ ∀ tk', fst (getHandleParts_answer tk fs) = Ok (inr tk') → coherent_task tk'.
Proof.
  intros [HA HB] HP. unfold getHandleParts_answer.
  destruct (response tk) as [h|e] eqn:Hr.
  - destruct (HB h eq_refl) as [Hn Hne].
    pose proof (rooted_continueWalk tk h fs HP Hn Hne) as HP1.
    unfold bind, ret. destruct (continueWalk tk h fs) as [[v|e] fs1]; by split.
  - destruct (String.eqb (error_name e) "TypeMismatchError").
    + unfold bind, attempt, ret.
      destruct (request_frame false (handle tk) (pathPart tk) fs)
        as (H1 & H2 & H3).
      cbv zeta in *.
      destruct (on_handle _ _ _ fs) as [r fs1]. simpl in H1, H2, H3. simpl.
      split; [by apply (coherent_ext fs)|].
      intros tk' [= <-]. apply coherent_task_intro; simpl; [done|].
      intros h' ->. by apply H3.
    + destruct (String.eqb (error_message e) "Name is not allowed.").
      * by split.
      * split; [by apply preserves_handleError|].
        intros tk'. by destruct (@handleError_throws (option FileSystemHandle + task)
                                   (walkingPath tk) e fs) as [e' ->].
Qed.

Lemma rooted_end tk : coherent_task tk → preserves rooted (getHandleParts_end tk).
Proof.
  intros Htk fs HP. unfold getHandleParts_end, bind.
  destruct (rooted_answer tk fs Htk HP) as [HP1 Hnext].
  destruct (getHandleParts_answer tk fs) as [[[v|tk']|e] fs1]; simpl in *;
    [done| |done].
  by apply rooted_retry; [apply Hnext|].
Qed.

Lemma rooted_getHandle p : preserves rooted (getHandle p).
Proof.
  intros fs HP. unfold getHandle. destruct (_handles fs !! p); [done|].
  unfold bind, getHandleParts, bind.
  destruct (getHandleParts_begin "/" (tail (split p)) p fs) as [[tk|e] fs1] eqn:Hb.
  - apply (rooted_begin _ _ _ _ _ _ HP) in Hb as (Hh & Hd & Htk).
    pose proof (rooted_end tk Htk fs1 (coherent_ext fs fs1 Hh Hd HP)) as HP1.
    by destruct (getHandleParts_end tk fs1) as [[v|e] fs2].
  - simpl. revert Hb. unfold getHandleParts_begin.
    destruct (tail (split p)); [by intros [= _ <-]|].
    unfold bind at 1, handles_get. unfold bind, attempt, ret.
    by destruct (on_handle _ _ _ fs).
Qed.

Lemma rooted_resume fs : rooted fs → rooted (run_detached fs).
Proof.
  intros HP. unfold run_detached.
  destruct (detached fs) as [|tk rest] eqn:Hd; [done|].
  assert (Htk : coherent_task tk ∧ Forall coherent_task rest).
  { destruct HP as [[_ Hall] _]. rewrite Hd in Hall.
    by apply Forall_cons in Hall. }
  destruct Htk as [Htk Hrest].
  assert (HP0 : rooted {| dom := dom fs; _handles := _handles fs;
                          detached := rest; unhandled := unhandled fs;
                          calls := calls fs |}).
  { destruct HP as [[Hh _] Hroot]. by split; [split|]. }
  destruct (fallback tk).
  - pose proof (rooted_retry tk Htk _ HP0) as HP1.
    destruct (getHandleParts_retry tk _) as [[v|e] fs1]; simpl in HP1; [done|].
    by apply (coherent_ext fs1).
  - destruct (rooted_answer tk _ Htk HP0) as [HP1 Hnext].
    destruct (getHandleParts_answer tk _) as [[[v|tk']|e] fs1]; simpl in *;
      [done| |by apply (coherent_ext fs1)].
    destruct HP1 as [[Hh1 Hd1] Hroot1]. split; [split|]; simpl; try done.
    apply Forall_app. split; [done|]. constructor; [by apply Hnext|done].
Qed.

Lemma rooted_create tree : rooted (create tree).
Proof.
  split; [split|]; simpl; try done.
  intros path h [<- <-]%lookup_singleton_Some. by split.
Qed.

Lemma cache_stays_coherent_rooted (tree : node) (ops : list operation) (fs : t) :
  perform_all ops (create tree) = Some fs → rooted fs.
Proof.
  intros Hops.
  refine (all_perform_all rooted _ _ _ _ ops (create tree) fs
            (rooted_create tree) Hops).
  - apply rooted_getHandle.
  - intros A f. apply rooted_browser.
  - intros c fs0. by apply coherent_ext.
  - apply rooted_resume.
Qed.

(** X9. In every instance reached from a new one by any sequence of operations
    and steps of the event loop, the cache is coherent: each cached path is
    the absolute path, made of allowed names, of the entry that its handle
    points to, and the root handle is still the one under ['/']. *)
Theorem cache_stays_coherent (tree : node) (ops : list operation) (fs : t) :
  perform_all ops (create tree) = Some fs →
  _handles fs !! "/" = Some rootHandle
  ∧ ∀ path h, _handles fs !! path = Some h →
      path = absolute (loc h) ∧ Forall allowed (loc h).
Proof.
  intros Hops.
  destruct (cache_stays_coherent_rooted tree ops fs Hops) as [[Hh _] Hroot].
  split; [done|]. apply Hh.
Qed.

Lemma cache_stays_coherent_witness :
  let ops := [OpStat "/a/../a/d"; OpResume; OpMkdir "/a/e" JUndefined;
              OpResume; OpStat "/a/d/x"; OpResume; OpResume; OpResume] in
  ∃ fs h, perform_all ops (create nested) = Some fs
    ∧ _handles fs !! "/" = Some rootHandle
    ∧ _handles fs !! "/a/d/x" = Some h
    ∧ "/a/d/x" = absolute (loc h)
    ∧ _handles fs !! "/a/e" = None
    ∧ _handles fs !! "/a/../a/d" = None.
Proof.
  intros ops.
  set (fs := default (create nested) (perform_all ops (create nested))).
  set (h := {| hid := 6; hkind := KFile; loc := ["a"; "d"; "x"] |}).
  assert (Hrun : perform_all ops (create nested) = Some fs)
    by (vm_compute; reflexivity).
  assert (Hh : _handles fs !! "/a/d/x" = Some h) by (vm_compute; reflexivity).
  exists fs, h. split; [exact Hrun|].
  destruct (cache_stays_coherent nested ops fs Hrun) as [Hroot Hall].
  split; [exact Hroot|]. split; [exact Hh|].
  split; [exact (proj1 (Hall "/a/d/x" h Hh))|].
  split; vm_compute; reflexivity.
Defined.

Lemma join_segs_snoc l n : ∃ s, join_segs (l ++ [n]) = (s ++ n)%string.
Proof.
  induction l as [|x l [s Hs]]; [by exists EmptyString|].
  destruct (l ++ [n]) as [|y l'] eqn:Hl; [by destruct l|].
  exists (x ++ "/" ++ s)%string. rewrite <- app_comm_cons, Hl.
  change (join_segs (x :: y :: l'))
    with (x ++ "/" ++ join_segs (y :: l'))%string.
  by rewrite Hs, !append_assoc.
Qed.

Lemma absolute_no_trailing_slash names :
  Forall allowed names → names ≠ [] → ends_with_slash (absolute names) = false.
Proof.
  intros Hall Hne. destruct (exists_last Hne) as (l & n & ->).
  apply Forall_app in Hall as [_ [Hn _]%Forall_cons]. unfold absolute.
  destruct (join_segs_snoc l n) as [s ->].
  rewrite <- append_assoc. by apply ends_with_slash_append.
Qed.

(** X10. A path that is not the absolute path of a list of allowed names (one
    with a trailing slash, an empty part, ['.'] or ['..']) is never cached,
    so in an instance reached from a new one [stat] of it never returns: it
    throws, on every call. *)
Theorem stat_needs_normal_path (tree : node) (ops : list operation) (fs : t)
    (path : string) :
  perform_all ops (create tree) = Some fs →
  (∀ names, Forall allowed names → path ≠ absolute names) →
  _handles fs !! path = None ∧ ∃ e, fst (stat path fs) = Throw e.
Proof.
  intros Hops Hpath.
  destruct (cache_stays_coherent_rooted tree ops fs Hops) as [[Hh _] _].
  assert (Hc : _handles fs !! path = None).
  { destruct (_handles fs !! path) as [h|] eqn:Hc; [|done].
    destruct (Hh _ _ Hc) as [-> Hall]. by destruct (Hpath _ Hall). }
  split; [done|]. unfold stat, bind, getHandle. rewrite Hc. unfold bind, ret.
  destruct (getHandleParts _ _ _ fs) as [[v|e] fs1]; by eexists.
Qed.

Lemma stat_needs_normal_path_witness :
  let ops := [OpStat "/a/"; OpResume; OpResume] in
  ∃ fs e, perform_all ops (create nested) = Some fs
    ∧ fst (stat "/a/" fs) = Throw e.
Proof.
  intros ops.
  set (fs := default (create nested) (perform_all ops (create nested))).
  assert (Hrun : perform_all ops (create nested) = Some fs)
    by (vm_compute; reflexivity).
  destruct (stat_needs_normal_path nested ops fs "/a/" Hrun) as (_ & e & He).
  - intros names Hall Heq. destruct names as [|n names]; [discriminate|].
    pose proof (absolute_no_trailing_slash (n :: names) Hall) as Hends.
    rewrite <- Heq in Hends. by specialize (Hends ltac:(discriminate)).
  - by exists fs, e.
Defined.

(** ** [exists] *)

(** The awaited step of [getHandle] for a path that is not in the cache:
    when the first part names an entry of the root directory, [getHandle]
    returns [undefined], with the handle of that entry in the cache. *)
Lemma getHandle_first_part_found fs path n1 rest h0 es c :
  _handles fs !! path = None → tail (split path) = n1 :: rest →
  _handles fs !! "/" = Some h0 → hkind h0 = KDirectory →
  find (root (dom fs)) (loc h0) = Some (DirNode es) →
  allowed n1 → assoc n1 es = Some c →
  let h1 := {| hid := acquired (dom fs); hkind := kind_of c;
               loc := loc h0 ++ [n1] |} in
  ∃ fs', getHandle path fs = (Ok None, fs')
    ∧ root (dom fs') = root (dom fs)
    ∧ _handles fs' = <[join "/" n1 := h1]> (_handles fs)
    ∧ calls fs' = calls fs.
Proof.
  intros Hc Hparts Hroot Hk Hfind Hal Hassoc h1.
  destruct (getHandleParts_found "/" n1 rest path fs h0 es c
              Hroot Hk Hal Hfind Hassoc) as (tk & Hwp & _ & _ & Hwalk).
  destruct (continueWalk_frame tk h1 (granted fs))
    as (v & fs' & Hcw & H1 & H2 & H3 & _).
  exists fs'. unfold getHandle. rewrite Hc. unfold bind, ret.
  rewrite Hparts, Hwalk. fold h1. rewrite Hcw. rewrite Hwp in H2. done.
Qed.

(** When the first part names no entry, [getHandle] throws not-found with
    the path of the first part and changes nothing. *)
Lemma getHandle_first_part_missing fs path n1 rest h0 es :
  _handles fs !! path = None → tail (split path) = n1 :: rest →
  _handles fs !! "/" = Some h0 → hkind h0 = KDirectory →
  find (root (dom fs)) (loc h0) = Some (DirNode es) →
  allowed n1 → assoc n1 es = None →
  getHandle path fs = (Throw (ApiError ENOENT (join "/" n1)), fs).
Proof.
  intros Hc Hparts Hroot Hk Hfind Hal Hnone.
  unfold getHandle. rewrite Hc. unfold getHandleParts, getHandleParts_begin.
  rewrite Hparts. unfold bind, handles_get. rewrite Hroot.
  destruct fs as [d hs dt un cs], h0 as [i k l]. simpl in Hk, Hfind. subst k.
  unfold attempt, on_handle, browser, getDirectoryHandle, entries_of. simpl.
  unfold allowed in Hal. rewrite Hal. simpl. rewrite Hfind, Hnone.
  unfold getHandleParts_end, bind, getHandleParts_answer. simpl.
  by destruct d.
Qed.

(** X11. [exists] answers for the first part of a path only. For a path that is
    not cached it returns true when the first part names an entry of the
    root, whether or not the rest of the path exists, and false when the
    first part names no entry. *)
Theorem exists_looks_at_first_part (fs : t) (path n1 : string)
    (rest : list string) (h0 : FileSystemHandle) (es : list (string * node)) :
  _handles fs !! path = None →
  tail (split path) = n1 :: rest →
  _handles fs !! "/" = Some h0 → hkind h0 = KDirectory →
  find (root (dom fs)) (loc h0) = Some (DirNode es) →
  allowed n1 →
  (∀ c, assoc n1 es = Some c → fst (exists_ path fs) = Ok true)
  ∧ (assoc n1 es = None → fst (exists_ path fs) = Ok false).
Proof.
  intros Hc Hparts Hroot Hk Hfind Hal. split.
  - intros c Hassoc.
    destruct (getHandle_first_part_found fs path n1 rest h0 es c
                Hc Hparts Hroot Hk Hfind Hal Hassoc) as (fs' & Hget & _).
    unfold exists_, try_catch, bind. by rewrite Hget.
  - intros Hnone.
    unfold exists_, try_catch, bind.
    by rewrite (getHandle_first_part_missing fs path n1 rest h0 es).
Qed.

Lemma exists_looks_at_first_part_witness :
  fst (exists_ "/a/nowhere/at/all" (create nested)) = Ok true
  ∧ fst (exists_ "/nowhere" (create nested)) = Ok false.
Proof.
  split.
  - exact (proj1 (exists_looks_at_first_part (create nested)
              "/a/nowhere/at/all" "a" ["nowhere"; "at"; "all"] rootHandle _
              eq_refl eq_refl eq_refl eq_refl eq_refl eq_refl) _ eq_refl).
  - exact (proj2 (exists_looks_at_first_part (create nested)
              "/nowhere" "nowhere" [] rootHandle _
              eq_refl eq_refl eq_refl eq_refl eq_refl eq_refl) eq_refl).
Defined.

(** ** The tree under [update] *)

Lemma assoc_map_update x (g : node → node) es :
  assoc x (map (λ e, if String.eqb x (fst e) then (fst e, g (snd e)) else e) es)
  = g <$> assoc x es.
Proof.
  induction es as [|[k c] es IH]; simpl; [done|].
  destruct (String.eqb x k) eqn:Hk; simpl; by rewrite Hk.
Qed.

Lemma assoc_map_update_ne x y (g : node → node) es :
  x ≠ y →
  assoc y (map (λ e, if String.eqb x (fst e) then (fst e, g (snd e)) else e) es)
  = assoc y es.
Proof.
  intros Hxy. induction es as [|[k c] es IH]; simpl; [done|].
  destruct (String.eqb x k) eqn:Hk; simpl; [|by rewrite IH].
  apply String.eqb_eq in Hk as <-.
  by rewrite (proj2 (String.eqb_neq y x)) by done.
Qed.

Lemma find_update f l : ∀ n, find (update f l n) l = f <$> find n l.
Proof.
  induction l as [|x l IH]; intros n; simpl; [done|].
  destruct n as [|es]; simpl; [done|].
  rewrite assoc_map_update. destruct (assoc x es); simpl; [apply IH|done].
Qed.

Lemma find_update_under f l rest : ∀ n,
  find (update f l n) (l ++ rest) = (f <$> find n l) ≫= (λ m, find m rest).
Proof. intros n. by rewrite find_app, find_update. Qed.

Lemma assoc_filter_ne name n (es : list (string * node)) :
  n ≠ name →
  assoc n (filter (λ e, negb (String.eqb name (fst e))) es) = assoc n es.
Proof.
  intros Hn. induction es as [|[k c] es IH]; [done|].
  rewrite filter_cons. cbn [fst assoc].
  destruct (String.eqb name k) eqn:Hk; simpl.
  - apply String.eqb_eq in Hk as <-.
    by rewrite (proj2 (String.eqb_neq n name)) by done.
  - by rewrite IH.
Qed.

Lemma assoc_filter_eq name (es : list (string * node)) :
  assoc name (filter (λ e, negb (String.eqb name (fst e))) es) = None.
Proof.
  induction es as [|[k c] es IH]; [done|].
  rewrite filter_cons. cbn [fst].
  destruct (String.eqb name k) eqn:Hk; simpl; [done|]. by rewrite Hk.
Qed.

Lemma assoc_app_None {A} k (l1 l2 : list (string * A)) :
  assoc k l1 = None → assoc k (l1 ++ l2) = assoc k l2.
Proof.
  induction l1 as [|[k' v] l1 IH]; simpl; [done|].
  destruct (String.eqb k k'); [done|apply IH].
Qed.

(** ** [unlink] *)

(** X12. With the parent directory in the cache, [unlink] (and [rmdir], which is
    the same method) of an entry that exists returns and removes the entry
    with everything below it, leaves the other entries of the directory as
    they are, and leaves the cache as it is: a handle cached for the removed
    path stays, and [stat] of a removed directory that is cached still
    reports a directory. *)
Theorem unlink_removes_entry (fs : t) (path : string) (hp : FileSystemHandle)
    (es : list (string * node)) (c : node) :
  _handles fs !! dirname path = Some hp → hkind hp = KDirectory →
  find (root (dom fs)) (loc hp) = Some (DirNode es) →
  allowed (basename path) → assoc (basename path) es = Some c →
  ∃ fs', unlink path fs = (Ok tt, fs')
    ∧ rmdir path fs = (Ok tt, fs')
    ∧ (∀ rest, find (root (dom fs')) (loc hp ++ basename path :: rest) = None)
    ∧ (∀ n rest, n ≠ basename path →
         find (root (dom fs')) (loc hp ++ n :: rest)
         = find (root (dom fs)) (loc hp ++ n :: rest))
    ∧ _handles fs' = _handles fs
    ∧ (∀ h, _handles fs !! path = Some h → hkind h = KDirectory →
         fst (stat path fs')
         = Ok {| itemType := DIRECTORY; size := 4096; mtimeMs := None |}).
Proof.
  intros Hc Hk Hfind Hal Hassoc.
  assert (Hun : ∃ fs', unlink path fs = (Ok tt, fs')
            ∧ root (dom fs')
              = update (remove_entry (basename path)) (loc hp) (root (dom fs))
            ∧ _handles fs' = _handles fs).
  { unfold unlink, bind at 1, record.
    unfold bind. rewrite (getHandle_cached _ _ hp) by done. rewrite Hk.
    unfold try_catch, browser, removeEntry, entries_of. simpl. rewrite Hk.
    unfold allowed in Hal. rewrite Hal. simpl. rewrite Hfind, Hassoc.
    eexists. split; [done|]. by simpl. }
  destruct Hun as (fs' & Hun & Hroot & Hh). exists fs'.
  split; [done|]. split; [done|]. rewrite Hroot. split; [|split; [|split]].
  - intros rest. rewrite find_update_under, Hfind. simpl.
    by rewrite assoc_filter_eq.
  - intros n rest Hn. rewrite find_update_under, find_app, Hfind. simpl.
    by rewrite assoc_filter_ne.
  - done.
  - intros h Hp Hkh. unfold stat, bind.
    rewrite (getHandle_cached _ _ h) by by rewrite Hh. by rewrite Hkh.
Qed.

Lemma unlink_removes_entry_witness :
  let fs := resolved_d two_children in
  ∃ fs', unlink "/a/d" fs = (Ok tt, fs')
    ∧ find (root (dom fs')) ["a"; "d"; "x"] = None
    ∧ fst (stat "/a/d" fs')
      = Ok {| itemType := DIRECTORY; size := 4096; mtimeMs := None |}.
Proof.
  intros fs.
  destruct (unlink_removes_entry fs "/a/d"
              {| hid := 1; hkind := KDirectory; loc := ["a"] |}
              [("d", DirNode [("x", FileNode "1" 5); ("y", FileNode "2" 6)])]
              (DirNode [("x", FileNode "1" 5); ("y", FileNode "2" 6)]))
    as (fs' & Hun & _ & Hgone & _ & _ & Hstat);
    [vm_compute; reflexivity|reflexivity|vm_compute; reflexivity|reflexivity
    |reflexivity|].
  exists fs'. split; [exact Hun|]. split; [exact (Hgone ["x"])|].
  apply (Hstat {| hid := 2; hkind := KDirectory; loc := ["a"; "d"] |});
    [vm_compute; reflexivity|reflexivity].
Defined.

(** X13. With the parent directory in the cache, [unlink] of a name that the
    directory does not have throws not-found with the path that was given,
    and changes neither the tree nor the cache. *)
Theorem unlink_missing_entry (fs : t) (path : string) (hp : FileSystemHandle)
    (es : list (string * node)) :
  _handles fs !! dirname path = Some hp → hkind hp = KDirectory →
  find (root (dom fs)) (loc hp) = Some (DirNode es) →
  allowed (basename path) → assoc (basename path) es = None →
  ∃ fs', unlink path fs = (Throw (ApiError ENOENT path), fs')
    ∧ root (dom fs') = root (dom fs) ∧ _handles fs' = _handles fs.
Proof.
  intros Hc Hk Hfind Hal Hassoc.
  unfold unlink, bind at 1, record.
  unfold bind. rewrite (getHandle_cached _ _ hp) by done. rewrite Hk.
  unfold try_catch, browser, removeEntry, entries_of. simpl. rewrite Hk.
  unfold allowed in Hal. rewrite Hal. simpl. rewrite Hfind, Hassoc.
  eexists. split; [done|]. by simpl.
Qed.

Lemma unlink_missing_entry_witness :
  ∃ fs', unlink "/b.txt" (create single_file)
         = (Throw (ApiError ENOENT "/b.txt"), fs')
    ∧ root (dom fs') = single_file.
Proof.
  destruct (unlink_missing_entry (create single_file) "/b.txt" rootHandle
              [("a.txt", FileNode "hi" 1000)])
    as (fs' & Hun & Hroot & _); try reflexivity.
  exists fs'. split; [exact Hun|exact Hroot].
Defined.

(** ** A path whose first part is missing *)

(** X14. When the first part of a path that is not in the cache names no entry of
    the root directory, [stat], [readdir], [openFile] and [mkdir] throw
    not-found, with the path of that first part and not the path they were
    given, and change nothing; [rename] from the path throws the same error
    and leaves the tree as it is. *)
Theorem missing_first_part_throws (fs : t) (path n1 : string)
    (rest : list string) (h0 : FileSystemHandle) (es : list (string * node))
    (flags mode : jsval) (o : bool) (depth : nat) (newPath : string) :
  _handles fs !! path = None → tail (split path) = n1 :: rest →
  _handles fs !! "/" = Some h0 → hkind h0 = KDirectory →
  find (root (dom fs)) (loc h0) = Some (DirNode es) →
  allowed n1 → assoc n1 es = None → overwrite_flag mode = Ok o →
  let e := ApiError ENOENT (join "/" n1) in
  stat path fs = (Throw e, fs)
  ∧ readdir path fs = (Throw e, fs)
  ∧ openFile path flags fs = (Throw e, fs)
  ∧ mkdir path mode fs = (Throw e, fs)
  ∧ ∃ fs', rename (S depth) path newPath fs = Some (Throw e, fs')
      ∧ root (dom fs') = root (dom fs) ∧ _handles fs' = _handles fs.
Proof.
  intros Hc Hparts Hroot Hk Hfind Hal Hnone Ho e.
  pose proof (getHandle_first_part_missing fs path n1 rest h0 es
                Hc Hparts Hroot Hk Hfind Hal Hnone) as Hget.
  repeat split.
  - unfold stat, bind. by rewrite Hget.
  - unfold readdir, bind. by rewrite Hget.
  - unfold openFile, bind. by rewrite Hget.
  - unfold mkdir, bind, lift. rewrite Ho. by rewrite Hget.
  - set (fs1 := snd (record (CallRename path newPath) fs)).
    pose proof (getHandle_first_part_missing fs1 path n1 rest h0 es
                  Hc Hparts Hroot Hk Hfind Hal Hnone) as Hget1.
    exists fs1. split; [|done].
    cbn [rename]. unfold bind at 1. fold fs1.
    change (record (CallRename path newPath) fs) with (Ok tt, fs1).
    cbv beta iota. by rewrite Hget1.
Qed.

Lemma missing_first_part_throws_witness :
  mkdir "/new" JUndefined (create single_file)
  = (Throw (ApiError ENOENT "/new"), create single_file)
  ∧ stat "/no/such/file" (create single_file)
    = (Throw (ApiError ENOENT "/no"), create single_file).
Proof.
  split.
  - exact (proj1 (proj2 (proj2 (proj2
      (missing_first_part_throws (create single_file) "/new" "new" []
         rootHandle [("a.txt", FileNode "hi" 1000)] JUndefined JUndefined
         false 0 "/other"
         eq_refl eq_refl eq_refl eq_refl eq_refl eq_refl eq_refl eq_refl))))).
  - exact (proj1
      (missing_first_part_throws (create single_file) "/no/such/file" "no"
         ["such"; "file"] rootHandle [("a.txt", FileNode "hi" 1000)]
         JUndefined JUndefined false 0 "/other"
         eq_refl eq_refl eq_refl eq_refl eq_refl eq_refl eq_refl eq_refl)).
Defined.

(** ** A path that is not in the cache *)

Lemma getHandle_None path fs :
  _handles fs !! path = None →
  ∃ fs', (getHandle path fs = (Ok None, fs')
          ∨ ∃ e, getHandle path fs = (Throw e, fs'))
    ∧ root (dom fs') = root (dom fs) ∧ calls fs' = calls fs.
Proof.
  intros Hc.
  pose proof (looking_getHandle (root (dom fs)) path fs eq_refl) as Hr.
  pose proof (keeps_getHandle path fs) as Hcalls.
  revert Hr Hcalls. unfold getHandle. rewrite Hc. unfold bind, ret.
  destruct (getHandleParts "/" (tail (split path)) path fs) as [[v|e] fs1];
    simpl; intros Hr Hcalls; exists fs1; eauto.
Qed.

(** X15. [writeFile], [unlink] and [rmdir] change the tree only through a handle
    of the parent directory that is already in the cache: with the parent
    path not cached the tree stays as it is, whether they return or throw,
    and when [getHandle] of the parent returns, [writeFile] returns as well
    and the data is dropped. *)
Theorem uncached_parent_writes_nothing (fs : t) (path data : string) :
  _handles fs !! dirname path = None →
  root (dom (snd (writeFile path data fs))) = root (dom fs)
  ∧ root (dom (snd (unlink path fs))) = root (dom fs)
  ∧ root (dom (snd (rmdir path fs))) = root (dom fs)
  ∧ (∀ fs', getHandle (dirname path) fs = (Ok None, fs') →
       writeFile path data fs = (Ok tt, fs')).
Proof.
  intros Hc.
  assert (Hun : root (dom (snd (unlink path fs))) = root (dom fs)).
  { unfold unlink, bind at 1.
    set (fs1 := snd (record (CallUnlink path) fs)).
    change (record (CallUnlink path) fs) with (Ok tt, fs1). cbv beta iota.
    destruct (getHandle_None (dirname path) fs1 Hc) as (fs' & [H|[e H]] & Hr & _);
      unfold bind; by rewrite H. }
  split; [|split; [done|split; [done|]]].
  - destruct (getHandle_None (dirname path) fs Hc) as (fs' & [H|[e H]] & Hr & _);
      unfold writeFile, bind; by rewrite H.
  - intros fs' H. unfold writeFile, bind. by rewrite H.
Qed.

Lemma uncached_parent_writes_nothing_witness :
  root (dom (snd (writeFile "/a/d/x" "new" (create nested)))) = nested
  ∧ root (dom (snd (unlink "/a/d/x" (create nested)))) = nested.
Proof.
  destruct (uncached_parent_writes_nothing (create nested) "/a/d/x" "new"
              eq_refl) as (Hw & Hu & _).
  split; [exact Hw|exact Hu].
Defined.

(** X16. [rename] from a path that is not in the cache finishes without looking
    at the new path: the tree stays as it is and the only call recorded is
    the [rename] itself. When the first part of the old path names an entry
    of the root directory, [rename] returns as if it had moved the entry. *)
Theorem rename_uncached_source (depth : nat) (oldPath newPath : string) (fs : t) :
  _handles fs !! oldPath = None →
  ∃ r fs', rename (S depth) oldPath newPath fs = Some (r, fs')
    ∧ root (dom fs') = root (dom fs)
    ∧ calls fs' = calls fs ++ [CallRename oldPath newPath]
    ∧ (∀ n1 rest h0 es c,
         tail (split oldPath) = n1 :: rest →
         _handles fs !! "/" = Some h0 → hkind h0 = KDirectory →
         find (root (dom fs)) (loc h0) = Some (DirNode es) →
         allowed n1 → assoc n1 es = Some c → r = Ok tt).
Proof.
  intros Hc. cbn [rename]. unfold bind at 1.
  set (fs1 := snd (record (CallRename oldPath newPath) fs)).
  change (record (CallRename oldPath newPath) fs) with (Ok tt, fs1).
  cbv beta iota.
  destruct (getHandle_None oldPath fs1 Hc) as (fs' & [H|[e H]] & Hr & Hcalls).
  - rewrite H. exists (Ok tt), fs'. by repeat split.
  - destruct (@handleError_throws unit oldPath e fs') as [e' He'].
    rewrite H, He'. exists (Throw e'), fs'. split; [done|]. split; [done|].
    split; [done|]. intros n1 rest h0 es c Hparts Hroot Hk Hfind Hal Hassoc.
    destruct (getHandle_first_part_found fs1 oldPath n1 rest h0 es c
                Hc Hparts Hroot Hk Hfind Hal Hassoc) as (fs2 & Hget & _).
    congruence.
Qed.

Lemma rename_uncached_source_witness :
  ∃ fs', rename 1 "/a/d" "/a/e" (create nested) = Some (Ok tt, fs')
    ∧ root (dom fs') = nested.
Proof.
  destruct (rename_uncached_source 0 "/a/d" "/a/e" (create nested) eq_refl)
    as (r & fs' & Hren & Hroot & _ & Hr).
  exists fs'. split; [|exact Hroot].
  rewrite Hren.
  by rewrite (Hr "a" ["d"] rootHandle
                [("a", DirNode [("d", DirNode [("x", FileNode "1" 5)])])]
                (DirNode [("d", DirNode [("x", FileNode "1" 5)])])
                eq_refl eq_refl eq_refl eq_refl eq_refl eq_refl).
Defined.

(** ** [mkdir] and [rename] onto a cached path *)

Lemma overwrite_flag_string s : overwrite_flag (JStr s) = Ok false.
Proof. unfold overwrite_flag. simpl. by destruct (negb _). Qed.

(** X17. [rename] of a directory that is in the cache onto a path that is in the
    cache throws already-exists, whatever the tree has at the new path:
    [mkdir] is given the string ['wx'] as its mode, a string has no [flag],
    and so [mkdir] of a cached path throws for every string mode. Nothing is
    moved and nothing is removed. *)
Theorem rename_directory_onto_cached (depth : nat) (oldPath newPath : string)
    (fs : t) (h hn : FileSystemHandle) (es : list (string * node)) :
  _handles fs !! oldPath = Some h → hkind h = KDirectory →
  find (root (dom fs)) (loc h) = Some (DirNode es) →
  _handles fs !! newPath = Some hn →
  (∀ s, mkdir newPath (JStr s) fs = (Throw (ApiError EEXIST newPath), fs))
  ∧ ∃ fs', rename (S depth) oldPath newPath fs
           = Some (Throw (ApiError EEXIST newPath), fs')
      ∧ root (dom fs') = root (dom fs) ∧ _handles fs' = _handles fs
      ∧ calls fs' = calls fs ++ [CallRename oldPath newPath].
Proof.
  intros Hc Hk Hfind Hn. split.
  { intros s. apply (mkdir_cached _ _ _ hn); [apply overwrite_flag_string|done]. }
  set (fs1 := snd (record (CallRename oldPath newPath) fs)).
  exists fs1. split; [|done].
  cbn [rename]. unfold bind at 1.
  change (record (CallRename oldPath newPath) fs) with (Ok tt, fs1).
  cbv beta iota. rewrite (getHandle_cached oldPath fs1 h Hc). rewrite Hk.
  assert (Hbegin : rename_directory_begin oldPath newPath fs1
                   = (Throw (ApiError EEXIST newPath), fs1)).
  { unfold rename_directory_begin, bind at 1, readdir, bind at 1.
    rewrite (getHandle_cached oldPath fs1 h Hc). rewrite Hk.
    unfold bind at 1, browser, keys, entries_of. rewrite Hk.
    change (from_option name_allowed true None) with true.
    change (dom fs1) with (dom fs). cbn [negb]. cbv iota.
    rewrite Hfind. unfold ret, bind.
    erewrite mkdir_cached; [|reflexivity|exact Hn].
    subst fs1. by destruct fs as [[]]. }
  by rewrite Hbegin.
Qed.

Lemma rename_directory_onto_cached_witness :
  ∃ fs', rename 1 "/a/d" "/a" (resolved_d two_children)
         = Some (Throw (ApiError EEXIST "/a"), fs')
    ∧ root (dom fs') = two_children.
Proof.
  destruct (rename_directory_onto_cached 0 "/a/d" "/a" (resolved_d two_children)
              {| hid := 2; hkind := KDirectory; loc := ["a"; "d"] |}
              {| hid := 1; hkind := KDirectory; loc := ["a"] |}
              [("x", FileNode "1" 5); ("y", FileNode "2" 6)])
    as (_ & fs' & Hren & Hroot & _);
    [vm_compute; reflexivity|reflexivity|vm_compute; reflexivity
    |vm_compute; reflexivity|].
  exists fs'. split; [exact Hren|]. rewrite Hroot. vm_compute. reflexivity.
Defined.

(** ** Writing and reading back *)

Lemma find_update_above f l r : ∀ n,
  find (update f (l ++ r) n) l = update f r <$> find n l.
Proof.
  induction l as [|x l IH]; intros n; simpl; [done|].
  destruct n as [|es]; simpl; [done|].
  rewrite assoc_map_update. destruct (assoc x es); simpl; [apply IH|done].
Qed.

Lemma assoc_snoc_ne {A} n name (c : A) es :
  n ≠ name → assoc n (es ++ [(name, c)]) = assoc n es.
Proof.
  intros Hn. induction es as [|[k v] es IH]; simpl.
  - by rewrite (proj2 (String.eqb_neq n name)).
  - destruct (String.eqb n k); [done|apply IH].
Qed.

Lemma assoc_snoc_eq {A} name (c : A) es :
  assoc name es = None → assoc name (es ++ [(name, c)]) = Some c.
Proof.
  intros H. rewrite assoc_app_None by done. simpl. by rewrite String.eqb_refl.
Qed.

(** The request for a file handle with [create] inside a directory that has
    no directory of that name: afterwards the directory has a file of that
    name, an empty one when there was none. *)
Lemma getFileHandle_create hp name d es :
  hkind hp = KDirectory → allowed name →
  find (root d) (loc hp) = Some (DirNode es) →
  (∀ c, assoc name es = Some c → kind_of c = KFile) →
  ∃ d' es' data0 m0,
    getFileHandle hp name true d
    = (Ok {| hid := acquired d; hkind := KFile; loc := loc hp ++ [name] |}, d')
    ∧ find (root d') (loc hp) = Some (DirNode es')
    ∧ assoc name es' = Some (FileNode data0 m0)
    ∧ (∀ n, n ≠ name → assoc n es' = assoc n es)
    ∧ (assoc name es = None → data0 = EmptyString).
Proof.
  intros Hk Hal Hfind Hfile.
  unfold getFileHandle, entries_of. rewrite Hk. unfold allowed in Hal.
  simpl. rewrite Hal. simpl. rewrite Hfind.
  destruct (assoc name es) as [[data0 m0|es0]|] eqn:Ha.
  - eexists _, es, data0, m0. unfold grant. split; [reflexivity|].
    simpl. by repeat split.
  - by specialize (Hfile _ eq_refl).
  - eexists _, (es ++ [(name, FileNode EmptyString (clock d))]),
      EmptyString, (clock d).
    unfold grant. split; [reflexivity|]. simpl. rewrite find_update, Hfind.
    simpl. split; [done|]. split; [by apply assoc_snoc_eq|].
    split; [intros; by apply assoc_snoc_ne|done].
Qed.

(** Writing through a file handle replaces the content of the file. *)
Lemma write_file h data d l name es data0 m0 :
  hkind h = KFile → loc h = l ++ [name] →
  find (root d) l = Some (DirNode es) →
  assoc name es = Some (FileNode data0 m0) →
  ∃ d' es', write h data d = (Ok tt, d')
    ∧ find (root d') l = Some (DirNode es')
    ∧ assoc name es' = Some (FileNode data (clock d))
    ∧ (∀ n, n ≠ name → assoc n es' = assoc n es)
    ∧ acquired d' = acquired d.
Proof.
  intros Hk Hl Hfind Ha. unfold write. rewrite Hk, Hl, find_app, Hfind.
  simpl. rewrite Ha.
  eexists _, _. split; [reflexivity|]. simpl.
  rewrite find_update_above, Hfind. simpl. split; [reflexivity|].
  split.
  - by rewrite (assoc_map_update name (λ _, FileNode data (clock d))), Ha.
  - split; [|done]. intros n Hn.
    apply (assoc_map_update_ne name n (λ _, FileNode data (clock d))).
    congruence.
Qed.

(** [getFileHandle] with [create] and the write, as [writeFile] and the file
    branch of [rename] do them. *)
Lemma create_and_write fs hp name data es :
  hkind hp = KDirectory → allowed name →
  find (root (dom fs)) (loc hp) = Some (DirNode es) →
  (∀ c, assoc name es = Some c → kind_of c = KFile) →
  ∃ fs' es' m,
    (let* file := browser (getFileHandle hp name true) in
     browser (write file data)) fs = (Ok tt, fs')
    ∧ find (root (dom fs')) (loc hp) = Some (DirNode es')
    ∧ assoc name es' = Some (FileNode data m)
    ∧ (∀ n, n ≠ name → assoc n es' = assoc n es)
    ∧ _handles fs' = _handles fs ∧ calls fs' = calls fs.
Proof.
  intros Hk Hal Hfind Hfile.
  destruct (getFileHandle_create hp name (dom fs) es Hk Hal Hfind Hfile)
    as (d1 & es1 & data0 & m0 & Hg & Hf1 & Ha1 & Ho1 & _).
  destruct (write_file {| hid := acquired (dom fs); hkind := KFile;
                          loc := loc hp ++ [name] |}
              data d1 (loc hp) name es1 data0 m0 eq_refl eq_refl Hf1 Ha1)
    as (d2 & es2 & Hw & Hf2 & Ha2 & Ho2 & _).
  unfold bind, browser. rewrite Hg. simpl. rewrite Hw.
  eexists _, es2, _. split; [reflexivity|]. simpl.
  split; [done|]. split; [done|]. split; [|done].
  intros n Hn. by rewrite Ho2, Ho1.
Qed.

Lemma writeFile_cached fs fname data hp es :
  _handles fs !! dirname fname = Some hp → hkind hp = KDirectory →
  find (root (dom fs)) (loc hp) = Some (DirNode es) →
  allowed (basename fname) →
  (∀ c, assoc (basename fname) es = Some c → kind_of c = KFile) →
  ∃ fs' es' m, writeFile fname data fs = (Ok tt, fs')
    ∧ find (root (dom fs')) (loc hp) = Some (DirNode es')
    ∧ assoc (basename fname) es' = Some (FileNode data m)
    ∧ (∀ n, n ≠ basename fname → assoc n es' = assoc n es)
    ∧ _handles fs' = _handles fs ∧ calls fs' = calls fs.
Proof.
  intros Hc Hk Hfind Hal Hfile.
  unfold writeFile, bind at 1. rewrite (getHandle_cached _ _ hp Hc), Hk.
  by apply create_and_write.
Qed.

Lemma size_or_zero (z : Z) : (if z =? 0 then 0 else z) = z.
Proof. by destruct (Z.eqb_spec z 0). Qed.

Lemma openFile_cached fs path flags h data m :
  _handles fs !! path = Some h → hkind h = KFile →
  find (root (dom fs)) (loc h) = Some (FileNode data m) →
  ∃ f, fst (openFile path flags fs) = Ok (Some f)
    ∧ _path f = path ∧ _flag f = flags ∧ _buffer f = data
    ∧ itemType (_stat f) = FILE
    ∧ size (_stat f) = Z.of_nat (String.length data).
Proof.
  intros Hc Hk Hfind.
  unfold openFile, bind at 1. rewrite (getHandle_cached _ _ h Hc), Hk.
  unfold bind, browser, getFile. rewrite Hk, Hfind. simpl.
  eexists. split; [reflexivity|]. simpl. by rewrite size_or_zero.
Qed.

(** X18. With the parent directory in the cache, [writeFile] creates the file
    when the directory has no entry of that name, replaces the content when
    it has a file of that name, and leaves the other entries and the cache
    as they are; when the path of the file is in the cache as well,
    [openFile] then returns a file object with the path, the flag and
    exactly the data that was written. *)
Theorem writeFile_then_openFile (fs : t) (fname data : string) (flags : jsval)
    (hp h : FileSystemHandle) (es : list (string * node)) :
  _handles fs !! dirname fname = Some hp → hkind hp = KDirectory →
  find (root (dom fs)) (loc hp) = Some (DirNode es) →
  allowed (basename fname) →
  (∀ c, assoc (basename fname) es = Some c → kind_of c = KFile) →
  _handles fs !! fname = Some h → hkind h = KFile →
  loc h = loc hp ++ [basename fname] →
  ∃ fs' f m, writeFile fname data fs = (Ok tt, fs')
    ∧ find (root (dom fs')) (loc hp ++ [basename fname])
      = Some (FileNode data m)
    ∧ (∀ n rest, n ≠ basename fname →
         find (root (dom fs')) (loc hp ++ n :: rest)
         = find (root (dom fs)) (loc hp ++ n :: rest))
    ∧ _handles fs' = _handles fs
    ∧ fst (openFile fname flags fs') = Ok (Some f)
    ∧ _path f = fname ∧ _flag f = flags ∧ _buffer f = data
    ∧ size (_stat f) = Z.of_nat (String.length data).
Proof.
  intros Hc Hk Hfind Hal Hfile Hch Hkh Hl.
  destruct (writeFile_cached fs fname data hp es Hc Hk Hfind Hal Hfile)
    as (fs' & es' & m & Hw & Hf & Ha & Ho & Hh & _).
  assert (Hnew : find (root (dom fs')) (loc hp ++ [basename fname])
                 = Some (FileNode data m)).
  { rewrite find_app, Hf. simpl. by rewrite Ha. }
  destruct (openFile_cached fs' fname flags h data m) as (f & Hopen & Hf1 & Hf2 & Hf3 & _ & Hf4).
  { by rewrite Hh. }
  { done. }
  { by rewrite Hl. }
  exists fs', f, m. split; [done|]. split; [done|].
  split; [|by repeat split].
  intros n rest Hn. rewrite !find_app, Hf, Hfind. simpl. by rewrite Ho.
Qed.

Lemma writeFile_then_openFile_witness :
  let fs := settle_walks (snd (stat "/a/d/x" (create nested))) in
  ∃ fs' f, writeFile "/a/d/x" "changed" fs = (Ok tt, fs')
    ∧ fst (openFile "/a/d/x" JUndefined fs') = Ok (Some f)
    ∧ _buffer f = "changed".
Proof.
  intros fs.
  destruct (writeFile_then_openFile fs "/a/d/x" "changed" JUndefined
              {| hid := 2; hkind := KDirectory; loc := ["a"; "d"] |}
              {| hid := 3; hkind := KFile; loc := ["a"; "d"; "x"] |}
              [("x", FileNode "1" 5)])
    as (fs' & f & m & Hw & _ & _ & _ & Hopen & _ & _ & Hbuf & _).
  - vm_compute; reflexivity.
  - reflexivity.
  - vm_compute; reflexivity.
  - reflexivity.
  - intros c Hc. vm_compute in Hc. by injection Hc as <-.
  - vm_compute; reflexivity.
  - reflexivity.
  - reflexivity.
  - exists fs', f. split; [exact Hw|]. split; [exact Hopen|exact Hbuf].
Defined.


(** ** A new file directly under the root *)

Lemma no_slash_chars name :
  includes "/" name = false →
  Forall (λ c, is_slash c = false) (list_ascii_of_string name).
Proof.
  induction name as [|x s IH]; [constructor|].
  rewrite includes_cons, is_slash_eqb. intros [Hx Hs]%orb_false_iff.
  cbn [list_ascii_of_string]. constructor; auto.
Qed.

Lemma drop_while_none {A} (f : A → bool) l :
  Forall (λ c, f c = false) l → drop_while f l = l.
Proof. destruct 1 as [|x l Hx _]; simpl; [done|by rewrite Hx]. Qed.

Lemma drop_while_all {A} (f : A → bool) l :
  Forall (λ c, f c = true) l → drop_while f l = [].
Proof. induction 1 as [|x l Hx _ IH]; simpl; [done|by rewrite Hx]. Qed.

Lemma take_while_app {A} (f : A → bool) l x r :
  Forall (λ c, f c = true) l → f x = false → take_while f (l ++ x :: r) = l.
Proof.
  induction 1 as [|y l Hy _ IH]; simpl; intros Hx; [by rewrite Hx|].
  rewrite Hy. f_equal. auto.
Qed.

Lemma rev_chars_no_slash name :
  allowed name →
  Forall (λ c, is_slash c = false) (rev (list_ascii_of_string name)).
Proof.
  intros Hal. apply List.Forall_rev, no_slash_chars. by apply allowed_no_slash.
Qed.

Lemma dirname_root_child name : allowed name → dirname ("/" ++ name) = "/".
Proof.
  intros Hal. change ("/" ++ name)%string with (String "/" name).
  unfold dirname. cbv zeta.
  pose proof (rev_chars_no_slash name Hal) as Hns.
  rewrite (drop_while_none is_slash) by done.
  rewrite drop_while_all; [done|].
  eapply Forall_impl; [exact Hns|]. intros c Hc. simpl. by rewrite Hc.
Qed.

Lemma basename_root_child name : allowed name → basename ("/" ++ name) = name.
Proof.
  intros Hal. change ("/" ++ name)%string with (String "/" name).
  unfold basename. cbn [list_ascii_of_string rev].
  pose proof (rev_chars_no_slash name Hal) as Hns.
  destruct (allowed_nonempty _ Hal) as (c & s & Hname).
  destruct (rev (list_ascii_of_string name)) as [|x l] eqn:Hrev.
  { apply (f_equal (@length _)) in Hrev. rewrite length_rev, Hname in Hrev.
    done. }
  assert (Hd : drop_while is_slash ((x :: l) ++ ["/"%char])
               = (x :: l) ++ ["/"%char]).
  { pose proof Hns as [Hx _]%Forall_cons. simpl. by rewrite Hx. }
  rewrite Hd, take_while_app.
  - by rewrite <- Hrev, rev_involutive, string_of_list_ascii_of_string.
  - eapply Forall_impl; [exact Hns|]. intros a Ha. simpl. by rewrite Ha.
  - done.
Qed.

Lemma join_root_child name : allowed name → join "/" name = ("/" ++ name)%string.
Proof. intros Hal. exact (join_absolute [] name (Forall_nil_2 _) Hal). Qed.

Lemma split_root_child name :
  allowed name → tail (split ("/" ++ name)) = [name].
Proof. intros Hal. apply (split_absolute [name]); [by constructor|done]. Qed.

Lemma root_child_not_root name : allowed name → ("/" ++ name)%string ≠ "/".
Proof. by intros (c & s & ->)%allowed_nonempty. Qed.

(** X19. [createFile] of a path directly under the root that is not in the cache,
    where the root has no directory of that name: the file is created, or
    emptied when it was there, and the call returns [undefined] instead of a
    file object, because [openFile] gets no handle from the walk that puts
    the path in the cache. The second call finds the path in the cache and
    returns the file object, with no content. *)
Theorem createFile_under_root (fs : t) (name : string) (flag : jsval)
    (h0 : FileSystemHandle) (es : list (string * node)) :
  allowed name →
  _handles fs !! "/" = Some h0 → hkind h0 = KDirectory →
  find (root (dom fs)) (loc h0) = Some (DirNode es) →
  (∀ c, assoc name es = Some c → kind_of c = KFile) →
  _handles fs !! ("/" ++ name)%string = None →
  ∃ fs' m, createFile ("/" ++ name) flag fs = (Ok None, fs')
    ∧ find (root (dom fs')) (loc h0 ++ [name]) = Some (FileNode EmptyString m)
    ∧ ∃ f, fst (createFile ("/" ++ name) flag fs') = Ok (Some f)
        ∧ _path f = ("/" ++ name)%string ∧ _flag f = flag
        ∧ _buffer f = EmptyString ∧ size (_stat f) = 0.
Proof.
  intros Hal Hroot Hk Hfind Hfile Hc. set (p := ("/" ++ name)%string) in *.
  pose proof (dirname_root_child name Hal) as Hdir.
  pose proof (basename_root_child name Hal) as Hbase.
  fold p in Hdir, Hbase.
  destruct (writeFile_cached fs p EmptyString h0 es)
    as (fs1 & es1 & m & Hw & Hf1 & Ha1 & Ho1 & Hh1 & _);
    [by rewrite Hdir|done|done|by rewrite Hbase|by rewrite Hbase|].
  rewrite Hbase in Ha1.
  set (h' := {| hid := acquired (dom fs1); hkind := KFile;
                loc := loc h0 ++ [name] |}).
  destruct (getHandle_first_part_found fs1 p name [] h0 es1
              (FileNode EmptyString m))
    as (fs2 & Hget & Hr2 & Hh2 & _);
    [by rewrite Hh1|by apply split_root_child|by rewrite Hh1|done..|].
  cbv zeta in Hh2. fold h' in Hh2.
  rewrite join_root_child, Hh1 in Hh2 by done. fold p in Hh2.
  assert (Hf2 : find (root (dom fs2)) (loc h0) = Some (DirNode es1))
    by (by rewrite Hr2).
  exists fs2, m. split.
  { unfold createFile, bind at 1. rewrite Hw. unfold openFile, bind.
    by rewrite Hget. }
  split.
  { rewrite find_app, Hf2. simpl. by rewrite Ha1. }
  destruct (writeFile_cached fs2 p EmptyString h0 es1)
    as (fs3 & es3 & m3 & Hw3 & Hf3 & Ha3 & _ & Hh3 & _).
  { rewrite Hdir, Hh2, lookup_insert_ne; [done|]. by apply root_child_not_root. }
  { done. }
  { done. }
  { by rewrite Hbase. }
  { rewrite Hbase, Ha1. by intros c [= <-]. }
  rewrite Hbase in Ha3.
  destruct (openFile_cached fs3 p flag h' EmptyString m3)
    as (f & Hopen & Hp1 & Hp2 & Hp3 & _ & Hp4).
  { by rewrite Hh3, Hh2, lookup_insert_eq. }
  { done. }
  { simpl. rewrite find_app, Hf3. simpl. by rewrite Ha3. }
  exists f. split; [|done].
  unfold createFile, bind at 1. by rewrite Hw3.
Qed.

Lemma createFile_under_root_witness :
  ∃ fs' m, createFile "/b.txt" JUndefined (create single_file) = (Ok None, fs')
    ∧ find (root (dom fs')) ["b.txt"] = Some (FileNode EmptyString m).
Proof.
  destruct (createFile_under_root (create single_file) "b.txt" JUndefined
              rootHandle [("a.txt", FileNode "hi" 1000)])
    as (fs' & m & Hcreate & Hfind & _).
  - reflexivity.
  - reflexivity.
  - reflexivity.
  - reflexivity.
  - intros c Hc. vm_compute in Hc. discriminate Hc.
  - reflexivity.
  - exists fs', m. split; [exact Hcreate|exact Hfind].
Defined.

(** ** [rename] of a file *)

Lemma bind_assoc {A B C} (m : M A) (k : A → M B) (k' : B → M C) fs :
  bind m (λ a, bind (k a) k') fs = bind (bind m k) k' fs.
Proof. unfold bind. by destruct (m fs) as [[a|e] fs1]. Qed.

Lemma unlink_cached fs path hp es c :
  _handles fs !! dirname path = Some hp → hkind hp = KDirectory →
  find (root (dom fs)) (loc hp) = Some (DirNode es) →
  allowed (basename path) → assoc (basename path) es = Some c →
  ∃ fs', unlink path fs = (Ok tt, fs')
    ∧ find (root (dom fs')) (loc hp)
      = Some (DirNode (filter (λ e, negb (String.eqb (basename path) (fst e))) es))
    ∧ _handles fs' = _handles fs.
Proof.
  intros Hc Hk Hfind Hal Hassoc.
  unfold unlink, bind at 1, record.
  unfold bind. rewrite (getHandle_cached _ _ hp) by done. rewrite Hk.
  unfold try_catch, browser, removeEntry, entries_of. simpl. rewrite Hk.
  unfold allowed in Hal. rewrite Hal. simpl. rewrite Hfind, Hassoc.
  eexists. split; [done|]. simpl. by rewrite find_update, Hfind.
Qed.

(** X20. [rename] of a file that is in the cache, inside one directory that is in
    the cache: the call returns, the directory no longer has the old name,
    it has the content under the new name when the two names differ, and
    its other entries are as before. When the two names are the same the
    content is written onto the file and the file is then removed. The
    cache is left as it is, so the old path stays cached. *)
Theorem rename_file_in_directory (depth : nat) (oldPath newPath : string)
    (fs : t) (h hp : FileSystemHandle) (es : list (string * node))
    (data : string) (m : Z) :
  _handles fs !! oldPath = Some h → hkind h = KFile →
  loc h = loc hp ++ [basename oldPath] →
  _handles fs !! dirname oldPath = Some hp →
  _handles fs !! dirname newPath = Some hp →
  hkind hp = KDirectory →
  find (root (dom fs)) (loc hp) = Some (DirNode es) →
  allowed (basename oldPath) → allowed (basename newPath) →
  assoc (basename oldPath) es = Some (FileNode data m) →
  (∀ c, assoc (basename newPath) es = Some c → kind_of c = KFile) →
  ∃ fs' es', rename (S depth) oldPath newPath fs = Some (Ok tt, fs')
    ∧ find (root (dom fs')) (loc hp) = Some (DirNode es')
    ∧ assoc (basename oldPath) es' = None
    ∧ (basename newPath ≠ basename oldPath →
       ∃ m', assoc (basename newPath) es' = Some (FileNode data m'))
    ∧ (∀ n, n ≠ basename oldPath → n ≠ basename newPath →
         assoc n es' = assoc n es)
    ∧ _handles fs' = _handles fs.
Proof.
  intros Hc Hk Hl Hold Hnew Hkp Hfind Halo Haln Hassoc Hfile.
  set (fs1 := snd (record (CallRename oldPath newPath) fs)).
  assert (Hfile1 : ∃ fs' es',
            rename_file h oldPath newPath fs1 = (Ok tt, fs')
            ∧ find (root (dom fs')) (loc hp) = Some (DirNode es')
            ∧ assoc (basename oldPath) es' = None
            ∧ (basename newPath ≠ basename oldPath →
               ∃ m', assoc (basename newPath) es' = Some (FileNode data m'))
            ∧ (∀ n, n ≠ basename oldPath → n ≠ basename newPath →
                 assoc n es' = assoc n es)
            ∧ _handles fs' = _handles fs).
  { unfold rename_file, bind at 1, browser at 1, getFile.
    rewrite Hk, Hl, find_app. change (dom fs1) with (dom fs).
    rewrite Hfind. simpl. rewrite Hassoc. unfold bind at 1.
    erewrite getHandle_cached; [|exact Hnew]. rewrite Hkp.
    cbn [arrayBuffer].
    rewrite (bind_assoc (browser (getFileHandle hp (basename newPath) true))
               (λ f, browser (write f data)) (λ _, unlink oldPath)).
    match goal with
    | |- context [bind (bind _ _) _ ?st] =>
      destruct (create_and_write st hp (basename newPath) data es
                  Hkp Haln Hfind Hfile)
        as (fs3 & es3 & m3 & Hw & Hf3 & Ha3 & Ho3 & Hh3 & _)
    end.
    assert (Hassoc3 : ∃ c, assoc (basename oldPath) es3 = Some c).
    { destruct (decide (basename oldPath = basename newPath)) as [->|Hne].
      - eauto.
      - rewrite Ho3 by done. eauto. }
    destruct Hassoc3 as (c & Hassoc3).
    destruct (unlink_cached fs3 oldPath hp es3 c) as (fs4 & Hun & Hf4 & Hh4);
      [by rewrite Hh3|done|done|done|done|].
    exists fs4. eexists. split.
    { unfold bind at 1. by rewrite Hw. }
    split; [exact Hf4|]. split; [apply assoc_filter_eq|]. split.
    - intros Hne. exists m3. by rewrite assoc_filter_ne.
    - split; [|by rewrite Hh4, Hh3].
      intros n Hn1 Hn2. rewrite assoc_filter_ne by done. by apply Ho3. }
  destruct Hfile1 as (fs' & es' & Hren & Hrest).
  exists fs', es'. split; [|done].
  cbn [rename]. unfold bind at 1.
  change (record (CallRename oldPath newPath) fs) with (Ok tt, fs1).
  cbv beta iota. rewrite (getHandle_cached oldPath fs1 h Hc). rewrite Hk.
  by rewrite Hren.
Qed.

Lemma rename_file_in_directory_witness :
  let fs := settle_walks (snd (stat "/a/d/x" (create two_children))) in
  ∃ fs' es', rename 1 "/a/d/x" "/a/d/z" fs = Some (Ok tt, fs')
    ∧ find (root (dom fs')) ["a"; "d"] = Some (DirNode es')
    ∧ assoc "x" es' = None
    ∧ ∃ m', assoc "z" es' = Some (FileNode "1" m').
Proof.
  intros fs.
  destruct (rename_file_in_directory 0 "/a/d/x" "/a/d/z" fs
              {| hid := 3; hkind := KFile; loc := ["a"; "d"; "x"] |}
              {| hid := 2; hkind := KDirectory; loc := ["a"; "d"] |}
              [("x", FileNode "1" 5); ("y", FileNode "2" 6)] "1" 5)
    as (fs' & es' & Hren & Hfind & Hold & Hnew & _).
  - vm_compute; reflexivity.
  - reflexivity.
  - reflexivity.
  - vm_compute; reflexivity.
  - vm_compute; reflexivity.
  - reflexivity.
  - vm_compute; reflexivity.
  - reflexivity.
  - reflexivity.
  - reflexivity.
  - intros c Hc. vm_compute in Hc. discriminate Hc.
  - exists fs', es'. split; [exact Hren|]. split; [exact Hfind|].
    split; [exact Hold|]. apply Hnew. vm_compute. discriminate.
Defined.

(** ** [mkdir] below a directory of the root *)

Lemma join_segs_snoc_eq l n :
  l ≠ [] → join_segs (l ++ [n]) = (join_segs l ++ "/" ++ n)%string.
Proof.
  induction l as [|a l IH]; [done|]. intros _.
  destruct l as [|b l]; [done|].
  change (join_segs ((a :: b :: l) ++ [n]))
    with (a ++ "/" ++ join_segs ((b :: l) ++ [n]))%string.
  rewrite IH by done.
  change (join_segs (a :: b :: l)) with (a ++ "/" ++ join_segs (b :: l))%string.
  by rewrite !append_assoc.
Qed.

Lemma drop_while_app {A} (f : A → bool) l x r :
  Forall (λ c, f c = true) l → f x = false →
  drop_while f (l ++ x :: r) = x :: r.
Proof.
  induction 1 as [|y l Hy _ IH]; simpl; intros Hx; [by rewrite Hx|].
  rewrite Hy. auto.
Qed.

Lemma drop_while_head_app {A} (f : A → bool) l r :
  l ≠ [] → Forall (λ c, f c = false) l → drop_while f (l ++ r) = l ++ r.
Proof.
  destruct l as [|x l']; [done|]. intros _ [Hx _]%Forall_cons.
  simpl. by rewrite Hx.
Qed.

Lemma rev_chars_nonempty name :
  allowed name → rev (list_ascii_of_string name) ≠ [].
Proof.
  intros (c & s & ->)%allowed_nonempty H.
  apply (f_equal (@length _)) in H. by rewrite length_rev in H.
Qed.

Lemma not_slash_true l :
  Forall (λ c, is_slash c = false) l →
  Forall (λ c, negb (is_slash c) = true) l.
Proof. intros H. eapply Forall_impl; [exact H|]. intros c Hc. by rewrite Hc. Qed.

Lemma chars_of_parent (d n : string) :
  rev (list_ascii_of_string (d ++ "/" ++ n))
  = rev (list_ascii_of_string n) ++ "/"%char :: rev (list_ascii_of_string d).
Proof.
  rewrite !list_ascii_of_string_append, !rev_app_distr. simpl.
  by rewrite <- app_assoc.
Qed.

Lemma dirname_absolute l n :
  Forall allowed l → allowed n → dirname (absolute (l ++ [n])) = absolute l.
Proof.
  intros Hl Hn. destruct l as [|a l].
  { exact (dirname_root_child n Hn). }
  unfold absolute. rewrite join_segs_snoc_eq by done.
  set (d := join_segs (a :: l)).
  change ("/" ++ d ++ "/" ++ n)%string with (String "/" (d ++ "/" ++ n)).
  unfold dirname. cbv zeta. rewrite chars_of_parent.
  rewrite drop_while_head_app
    by (by apply rev_chars_nonempty || by apply rev_chars_no_slash).
  rewrite drop_while_app by (by apply not_slash_true, rev_chars_no_slash || done).
  assert (Hd : rev (list_ascii_of_string d) ≠ []).
  { apply Forall_cons in Hl as [Ha _].
    pose proof (join_segs_nonempty a l Ha) as Hne. fold d in Hne.
    destruct d; [done|]. intros H.
    apply (f_equal (@length _)) in H. by rewrite length_rev in H. }
  rewrite bool_decide_eq_false_2 by done. simpl.
  by rewrite rev_involutive, string_of_list_ascii_of_string.
Qed.

Lemma basename_absolute l n :
  Forall allowed l → allowed n → basename (absolute (l ++ [n])) = n.
Proof.
  intros Hl Hn. destruct l as [|a l].
  { exact (basename_root_child n Hn). }
  unfold absolute. rewrite join_segs_snoc_eq by done.
  set (d := join_segs (a :: l)).
  rewrite <- append_assoc.
  unfold basename. rewrite chars_of_parent.
  rewrite drop_while_head_app
    by (by apply rev_chars_nonempty || by apply rev_chars_no_slash).
  rewrite take_while_app
    by (by apply not_slash_true, rev_chars_no_slash || done).
  by rewrite rev_involutive, string_of_list_ascii_of_string.
Qed.

(** X21. [mkdir] of a path that is not in the cache, one level below a directory
    of the root: the walk for the path puts the parent in the cache, so the
    call returns and the directory is there afterwards, created empty when
    the parent had no entry of that name. When the directory was there
    already the call returns as well, without the already-exists error, for
    every mode. *)
Theorem mkdir_second_level (fs : t) (n1 n2 : string) (mode : jsval) (o : bool)
    (h0 : FileSystemHandle) (es0 es1 : list (string * node)) :
  allowed n1 → allowed n2 → overwrite_flag mode = Ok o →
  _handles fs !! "/" = Some h0 → hkind h0 = KDirectory →
  find (root (dom fs)) (loc h0) = Some (DirNode es0) →
  assoc n1 es0 = Some (DirNode es1) →
  (∀ c, assoc n2 es1 = Some c → kind_of c = KDirectory) →
  _handles fs !! absolute [n1; n2] = None →
  ∃ fs' es2, mkdir (absolute [n1; n2]) mode fs = (Ok tt, fs')
    ∧ find (root (dom fs')) (loc h0 ++ [n1; n2]) = Some (DirNode es2)
    ∧ (assoc n2 es1 = None → es2 = [])
    ∧ (∀ c, assoc n2 es1 = Some c → root (dom fs') = root (dom fs)).
Proof.
  intros Hn1 Hn2 Ho Hroot Hk Hfind Hassoc Hdir Hc.
  set (p := absolute [n1; n2]) in *.
  assert (Hparts : tail (split p) = [n1; n2]).
  { apply (split_absolute [n1; n2]); [by repeat constructor|done]. }
  assert (Hparent : dirname p = join "/" n1).
  { rewrite join_root_child by done.
    apply (dirname_absolute [n1] n2); [by repeat constructor|done]. }
  assert (Hbase : basename p = n2).
  { apply (basename_absolute [n1] n2); [by repeat constructor|done]. }
  set (h1 := {| hid := acquired (dom fs); hkind := KDirectory;
                loc := loc h0 ++ [n1] |}).
  destruct (getHandle_first_part_found fs p n1 [n2] h0 es0 (DirNode es1)
              Hc Hparts Hroot Hk Hfind Hn1 Hassoc)
    as (fs1 & Hget & Hr1 & Hh1 & _).
  cbv zeta in Hh1. change (kind_of (DirNode es1)) with KDirectory in Hh1.
  fold h1 in Hh1.
  assert (Hget1 : getHandle (dirname p) fs1 = (Ok (Some h1), fs1)).
  { apply getHandle_cached. rewrite Hparent, Hh1. apply lookup_insert_eq. }
  assert (Hfind1 : find (root (dom fs1)) (loc h1) = Some (DirNode es1)).
  { rewrite Hr1. simpl. rewrite find_app, Hfind. simpl. by rewrite Hassoc. }
  assert (Heq : loc h0 ++ [n1; n2] = loc h1 ++ [n2])
    by (simpl; by rewrite <- app_assoc).
  unfold mkdir, bind, lift. rewrite Ho, Hget.
  rewrite bool_decide_eq_false_2 by (by intros [? ?]). cbn [andb].
  rewrite Hget1. change (hkind h1) with KDirectory. cbv iota.
  unfold browser, getDirectoryHandle, entries_of.
  change (hkind h1) with KDirectory. cbv iota.
  rewrite Hbase. unfold allowed in Hn2. simpl from_option. rewrite Hn2.
  cbn [negb]. rewrite Hfind1.
  destruct (assoc n2 es1) as [[data m|es2]|] eqn:Ha.
  - by specialize (Hdir _ eq_refl).
  - unfold grant. eexists _, es2. split; [reflexivity|]. cbn [dom root].
    split; [|split; [done|by rewrite Hr1]].
    rewrite Heq, find_app, Hfind1. simpl. by rewrite Ha.
  - unfold grant. eexists _, []. split; [reflexivity|]. cbn [dom root].
    split; [|by split].
    rewrite Heq, find_update_under, Hfind1. simpl. by rewrite assoc_snoc_eq.
Qed.

Lemma mkdir_second_level_witness :
  ∃ fs', mkdir "/a/new" JUndefined (create nested) = (Ok tt, fs')
    ∧ find (root (dom fs')) ["a"; "new"] = Some (DirNode []).
Proof.
  destruct (mkdir_second_level (create nested) "a" "new" JUndefined false
              rootHandle
              [("a", DirNode [("d", DirNode [("x", FileNode "1" 5)])])]
              [("d", DirNode [("x", FileNode "1" 5)])])
    as (fs' & es2 & Hmk & Hfind & Hnew & _).
  - reflexivity.
  - reflexivity.
  - reflexivity.
  - reflexivity.
  - reflexivity.
  - reflexivity.
  - reflexivity.
  - intros c Hc. vm_compute in Hc. discriminate Hc.
  - reflexivity.
  - exists fs'. split; [exact Hmk|].
    rewrite <- (Hnew eq_refl). exact Hfind.
Defined.

(** ** [readdir] *)

(** X22. [readdir] of a directory whose handle is in the cache under the absolute
    path of the directory returns, in the order of the directory, the
    absolute path of every child, and changes neither the tree nor the
    cache; for a path that is cached with a file handle it throws
    not-a-directory. *)
Theorem readdir_lists_children (fs : t) (path : string) (h : FileSystemHandle) :
  _handles fs !! path = Some h →
  (hkind h = KFile → readdir path fs = (Throw (ApiError ENOTDIR path), fs))
  ∧ (∀ es, hkind h = KDirectory →
       find (root (dom fs)) (loc h) = Some (DirNode es) →
       names_entry path (loc h) → Forall allowed (map fst es) →
       ∃ fs', readdir path fs
              = (Ok (map (λ n, absolute (loc h ++ [n])) (map fst es)), fs')
         ∧ root (dom fs') = root (dom fs) ∧ _handles fs' = _handles fs).
Proof.
  intros Hc. split.
  - intros Hk. unfold readdir, bind. by rewrite (getHandle_cached _ _ h Hc), Hk.
  - intros es Hk Hfind [Hpath Hall] Hnames.
    unfold readdir, bind. rewrite (getHandle_cached _ _ h Hc), Hk.
    unfold browser, keys, entries_of. rewrite Hk. simpl. rewrite Hfind.
    unfold ret. eexists. split.
    + f_equal. f_equal.
      apply map_ext_in. intros n Hn. rewrite Hpath.
      apply join_absolute; [done|].
      rewrite List.Forall_forall in Hnames. by apply Hnames.
    + done.
Qed.

Lemma readdir_lists_children_witness :
  ∃ fs', readdir "/a/d" (resolved_d two_children)
         = (Ok ["/a/d/x"; "/a/d/y"], fs')
    ∧ root (dom fs') = two_children.
Proof.
  destruct (proj2 (readdir_lists_children (resolved_d two_children) "/a/d"
                     {| hid := 2; hkind := KDirectory; loc := ["a"; "d"] |}
                     ltac:(vm_compute; reflexivity))
              [("x", FileNode "1" 5); ("y", FileNode "2" 6)])
    as (fs' & Hread & Hroot & _).
  - reflexivity.
  - vm_compute; reflexivity.
  - split; [reflexivity|]. repeat constructor.
  - repeat constructor.
  - exists fs'. split; [exact Hread|]. rewrite Hroot. vm_compute. reflexivity.
Defined.

End FileSystemAccessMore.

